(** * Diario: the local persistence layer (src/services/db.ts)

    A shallow embedding of [diaryService] and of the part of the browser
    platform it runs on (JSON text, an IndexedDB database with two object
    stores, [Array.prototype.sort]), followed by the properties of the
    persistence contract, and by the handlers of the editor, of the
    application and of the statistics that call it.

    Conventions.
    - A JavaScript value of the JSON fragment is a [json].  Numbers are the
      integers ([date] and [updatedAt] are millisecond timestamps); strings
      and texts are sequences of 8-bit code units.
    - A text that is JSON outside this fragment (a number with a fraction
      or an exponent, a [\uXXXX] escape above 00ff) is not read as a
      SyntaxError: [JSON.parse] gives [JSON.Unsupported] for it, and
      [importData], which would go on with a value that no [json] stands
      for, gives [Unmodelled].
    - TypeScript types are erased at run time: [JSON.parse(..) as Entry[]]
      checks nothing, so object stores hold [json] values, and the typed
      records [Entry] and [AppSettings] are injected by [entry_to_json] and
      [settings_to_json].
    - Every service call is a function of the engine's behaviour during the
      call (an [Engine] oracle) and of the database before the call; it
      returns how its promise settles and the database after the call. *)

From Stdlib Require Import Bool List ZArith NArith Lia Ascii String.
From Stdlib Require Import DecimalString DecimalN DecimalFacts.
From Stdlib Require Import Permutation Sorted.
Import ListNotations.

Local Open Scope string_scope.
Local Open Scope list_scope.

(** ** JavaScript values of the JSON fragment *)

#[warnings="-register-all"]
Inductive json : Type :=
| JNull
| JBool (b : bool)
| JNum (z : Z)
| JStr (s : string)
| JArr (items : list json)
| JObj (members : list (string * json)).

(** [o.name] on a value: own property lookup; [None] is [undefined]. *)
Fixpoint lookup (name : string) (members : list (string * json)) : option json :=
  match members with
  | [] => None
  | (k, v) :: rest => if String.eqb k name then Some v else lookup name rest
  end.

Definition get_prop (v : json) (name : string) : option json :=
  match v with
  | JObj members => lookup name members
  | _ => None
  end.

(** [o[name] = v]: replaces the property in place, or adds it last. *)
Fixpoint set_prop (name : string) (v : json) (members : list (string * json))
  : list (string * json) :=
  match members with
  | [] => [(name, v)]
  | (k, w) :: rest =>
      if String.eqb k name then (k, v) :: rest
      else (k, w) :: set_prop name v rest
  end.

(** ToBoolean, for [x || y]. *)
Definition truthy (v : option json) : bool :=
  match v with
  | None => false
  | Some JNull => false
  | Some (JBool b) => b
  | Some (JNum z) => negb (Z.eqb z 0)
  | Some (JStr s) => negb (String.eqb s "")
  | Some (JArr _) => true
  | Some (JObj _) => true
  end.

(** ** JSON text: [JSON.stringify] and [JSON.parse] *)

Module JSON.

Definition dquote : ascii := "034"%char.
Definition backslash : ascii := "092"%char.

Definition hex_digit (n : N) : ascii :=
  if (n <? 10)%N then ascii_of_N (48 + n) else ascii_of_N (87 + n).

(** QuoteJSONString: the two-character escapes, [\u00xx] for the other
    control characters, everything else verbatim. *)
Definition escape_char (c : ascii) : string :=
  if Ascii.eqb c dquote then String backslash (String dquote "")
  else if Ascii.eqb c backslash then String backslash (String backslash "")
  else if Ascii.eqb c "008"%char then String backslash "b"
  else if Ascii.eqb c "009"%char then String backslash "t"
  else if Ascii.eqb c "010"%char then String backslash "n"
  else if Ascii.eqb c "012"%char then String backslash "f"
  else if Ascii.eqb c "013"%char then String backslash "r"
  else if (N_of_ascii c <? 32)%N then
    String backslash
      (String "u" (String "0" (String "0"
         (String (hex_digit (N_of_ascii c / 16))
            (String (hex_digit (N_of_ascii c mod 16)) "")))))
  else String c "".

Fixpoint escape (s : string) : string :=
  match s with
  | "" => ""
  | String c rest => escape_char c ++ escape rest
  end.

Definition quote (s : string) : string :=
  String dquote (escape s ++ String dquote "").

Definition print_N (n : N) : string := NilEmpty.string_of_uint (N.to_uint n).

Definition print_Z (z : Z) : string :=
  match z with
  | Z0 => "0"
  | Zpos p => print_N (Npos p)
  | Zneg p => String "-" (print_N (Npos p))
  end.

(** [JSON.stringify(v)] without indentation. *)
Fixpoint stringify (v : json) : string :=
  match v with
  | JNull => "null"
  | JBool true => "true"
  | JBool false => "false"
  | JNum z => print_Z z
  | JStr s => quote s
  | JArr items =>
      match items with
      | [] => "[]"
      | x :: rest =>
          String "[" (stringify x ++
            (fix tail (l : list json) : string :=
               match l with
               | [] => "]"
               | y :: l' => String "," (stringify y ++ tail l')
               end) rest)
      end
  | JObj members =>
      match members with
      | [] => "{}"
      | (k, x) :: rest =>
          String "{" (quote k ++ String ":" (stringify x ++
            (fix tail (l : list (string * json)) : string :=
               match l with
               | [] => "}"
               | (k', y) :: l' =>
                   String "," (quote k' ++ String ":" (stringify y ++ tail l'))
               end) rest))
      end
  end.

Definition elements_tail : list json -> string :=
  fix tail (l : list json) : string :=
    match l with
    | [] => "]"
    | y :: l' => String "," (stringify y ++ tail l')
    end.

Definition members_tail : list (string * json) -> string :=
  fix tail (l : list (string * json)) : string :=
    match l with
    | [] => "}"
    | (k', y) :: l' =>
        String "," (quote k' ++ String ":" (stringify y ++ tail l'))
    end.

(** *** The parser *)

Definition is_ws (c : ascii) : bool :=
  Ascii.eqb c " "%char || Ascii.eqb c "009"%char
  || Ascii.eqb c "010"%char || Ascii.eqb c "013"%char.

Fixpoint skip_ws (s : string) : string :=
  match s with
  | String c rest => if is_ws c then skip_ws rest else s
  | "" => ""
  end.

Definition is_digit (c : ascii) : bool :=
  (48 <=? N_of_ascii c)%N && (N_of_ascii c <=? 57)%N.

(** The longest prefix of digits, and what follows it. *)
Fixpoint span_digits (s : string) : string * string :=
  match s with
  | String c rest =>
      if is_digit c then
        let (ds, r) := span_digits rest in (String c ds, r)
      else ("", s)
  | "" => ("", "")
  end.

Definition hex_value (c : ascii) : option N :=
  let n := N_of_ascii c in
  if (48 <=? n)%N && (n <=? 57)%N then Some (n - 48)%N
  else if (97 <=? n)%N && (n <=? 102)%N then Some (n - 87)%N
  else if (65 <=? n)%N && (n <=? 70)%N then Some (n - 55)%N
  else None.

Definition hex4 (a b c d : ascii) : option N :=
  match hex_value a, hex_value b, hex_value c, hex_value d with
  | Some x, Some y, Some z, Some w => Some (((x * 16 + y) * 16 + z) * 16 + w)%N
  | _, _, _, _ => None
  end.

Definition simple_escape (e : ascii) : option ascii :=
  if Ascii.eqb e dquote then Some dquote
  else if Ascii.eqb e backslash then Some backslash
  else if Ascii.eqb e "/"%char then Some "/"%char
  else if Ascii.eqb e "b"%char then Some "008"%char
  else if Ascii.eqb e "t"%char then Some "009"%char
  else if Ascii.eqb e "n"%char then Some "010"%char
  else if Ascii.eqb e "f"%char then Some "012"%char
  else if Ascii.eqb e "r"%char then Some "013"%char
  else None.

(** What reading a text gives: the value read; a SyntaxError; or
    [Unsupported], when the text leaves the fragment of this development
    at a place where it is JSON so far (a number with a fraction or an
    exponent, a [\uXXXX] escape above 00ff).  Of an [Unsupported] text
    nothing is known: [JSON.parse] may read a value that no [json]
    stands for, or find a SyntaxError further on. *)
Inductive outcome (A : Type) : Type :=
| Parsed (a : A)
| SyntaxError
| Unsupported.
Arguments Parsed {A} a.
Arguments SyntaxError {A}.
Arguments Unsupported {A}.

(** The failure of a part is the failure of the whole. *)
Definition failed {A B : Type} (r : outcome A) : outcome B :=
  match r with
  | Unsupported => Unsupported
  | _ => SyntaxError
  end.

Definition cons_char (c : ascii) (r : outcome (string * string))
  : outcome (string * string) :=
  match r with
  | Parsed (s, rest) => Parsed (String c s, rest)
  | r => failed r
  end.

(** The characters of a string literal after its opening quote, up to
    and including the closing quote.  A [\uXXXX] escape above 00ff
    names a code unit outside the 8-bit fragment. *)
Fixpoint parse_chars (s : string) : outcome (string * string) :=
  match s with
  | "" => SyntaxError
  | String c rest =>
      if Ascii.eqb c dquote then Parsed ("", rest)
      else if Ascii.eqb c backslash then
        match rest with
        | String e rest1 =>
            if Ascii.eqb e "u"%char then
              match rest1 with
              | String h1 (String h2 (String h3 (String h4 rest2))) =>
                  match hex4 h1 h2 h3 h4 with
                  | Some n =>
                      if (n <? 256)%N
                      then cons_char (ascii_of_N n) (parse_chars rest2)
                      else Unsupported
                  | None => SyntaxError
                  end
              | _ => SyntaxError
              end
            else
              match simple_escape e with
              | Some c' => cons_char c' (parse_chars rest1)
              | None => SyntaxError
              end
        | "" => SyntaxError
        end
      else if (N_of_ascii c <? 32)%N then SyntaxError
      else cons_char c (parse_chars rest)
  end.

(** An integer literal: a single zero or a digit string that does not
    start with zero.  A fraction or an exponent after it makes a number
    of JSON that is outside the integer fragment.  The integer read is
    exact, as JavaScript reads it up to 2^53. *)
Definition parse_nat (s : string) : outcome (N * string) :=
  let (ds, rest) := span_digits s in
  match NilEmpty.uint_of_string ds with
  | Some d =>
      if Decimal.uint_beq (Decimal.unorm d) d then
        match rest with
        | String c _ =>
            if Ascii.eqb c "."%char || Ascii.eqb c "e"%char
               || Ascii.eqb c "E"%char
            then Unsupported else Parsed (N.of_uint d, rest)
        | "" => Parsed (N.of_uint d, rest)
        end
      else SyntaxError
  | None => SyntaxError
  end.

Definition parse_number (s : string) : outcome (json * string) :=
  match s with
  | String c rest =>
      if Ascii.eqb c "-"%char then
        match parse_nat rest with
        | Parsed (n, r) => Parsed (JNum (- Z.of_N n), r)
        | r => failed r
        end
      else
        match parse_nat s with
        | Parsed (n, r) => Parsed (JNum (Z.of_N n), r)
        | r => failed r
        end
  | "" => SyntaxError
  end.

Fixpoint strip_prefix (word s : string) : option string :=
  match word with
  | "" => Some s
  | String c word' =>
      match s with
      | String d s' => if Ascii.eqb c d then strip_prefix word' s' else None
      | "" => None
      end
  end.

Definition expect (word : string) (v : json) (s : string)
  : outcome (json * string) :=
  match strip_prefix word s with
  | Some rest => Parsed (v, rest)
  | None => SyntaxError
  end.

(** The members read for an object are defined on it one by one, so a
    repeated name keeps its first place and its last value. *)
Fixpoint define_all (raw acc : list (string * json)) : list (string * json) :=
  match raw with
  | [] => acc
  | (k, v) :: rest => define_all rest (set_prop k v acc)
  end.

(** Recursive descent.  Every call spends one unit of [fuel]; [parse]
    gives as much as the text has characters, which is enough for every
    text that [stringify] prints ([JSONFacts.parse_stringify]).  Running
    out of fuel says nothing about the text. *)
Fixpoint parse_value (fuel : nat) (s : string) {struct fuel}
  : outcome (json * string) :=
  match fuel with
  | O => Unsupported
  | S fuel' =>
      match skip_ws s with
      | "" => SyntaxError
      | String c rest =>
          if Ascii.eqb c "n"%char then expect "ull" JNull rest
          else if Ascii.eqb c "t"%char then expect "rue" (JBool true) rest
          else if Ascii.eqb c "f"%char then expect "alse" (JBool false) rest
          else if Ascii.eqb c dquote then
            match parse_chars rest with
            | Parsed (str, r) => Parsed (JStr str, r)
            | r => failed r
            end
          else if Ascii.eqb c "["%char then
            match skip_ws rest with
            | "" => SyntaxError
            | String c' r =>
                if Ascii.eqb c' "]"%char then Parsed (JArr [], r)
                else
                  match parse_elements fuel' rest with
                  | Parsed (items, r) => Parsed (JArr items, r)
                  | r => failed r
                  end
            end
          else if Ascii.eqb c "{"%char then
            match skip_ws rest with
            | "" => SyntaxError
            | String c' r =>
                if Ascii.eqb c' "}"%char then Parsed (JObj [], r)
                else
                  match parse_members fuel' rest with
                  | Parsed (raw, r) => Parsed (JObj (define_all raw []), r)
                  | r => failed r
                  end
            end
          else parse_number (String c rest)
      end
  end

with parse_elements (fuel : nat) (s : string) {struct fuel}
  : outcome (list json * string) :=
  match fuel with
  | O => Unsupported
  | S fuel' =>
      match parse_value fuel' s with
      | Parsed (v, r) =>
          match skip_ws r with
          | "" => SyntaxError
          | String c r' =>
              if Ascii.eqb c ","%char then
                match parse_elements fuel' r' with
                | Parsed (vs, r'') => Parsed (v :: vs, r'')
                | r => failed r
                end
              else if Ascii.eqb c "]"%char then Parsed ([v], r')
              else SyntaxError
          end
      | r => failed r
      end
  end

with parse_members (fuel : nat) (s : string) {struct fuel}
  : outcome (list (string * json) * string) :=
  match fuel with
  | O => Unsupported
  | S fuel' =>
      match skip_ws s with
      | "" => SyntaxError
      | String c rest =>
          if Ascii.eqb c dquote then
            match parse_chars rest with
            | Parsed (k, r) =>
                match skip_ws r with
                | "" => SyntaxError
                | String c1 r1 =>
                    if Ascii.eqb c1 ":"%char then
                      match parse_value fuel' r1 with
                      | Parsed (v, r2) =>
                          match skip_ws r2 with
                          | "" => SyntaxError
                          | String c2 r3 =>
                              if Ascii.eqb c2 ","%char then
                                match parse_members fuel' r3 with
                                | Parsed (kvs, r4) => Parsed ((k, v) :: kvs, r4)
                                | r => failed r
                                end
                              else if Ascii.eqb c2 "}"%char
                              then Parsed ([(k, v)], r3)
                              else SyntaxError
                          end
                      | r => failed r
                      end
                    else SyntaxError
                end
            | r => failed r
            end
          else SyntaxError
      end
  end.

(** [JSON.parse(text)]: the value, or the thrown SyntaxError, or
    [Unsupported] for a text outside the fragment. *)
Definition parse (text : string) : outcome json :=
  match parse_value (S (String.length text)) text with
  | Parsed (v, rest) =>
      match skip_ws rest with
      | "" => Parsed v
      | _ => SyntaxError
      end
  | r => failed r
  end.

(** *** Vocabulary of the round trip *)

(** What may follow a printed value inside a printed text. *)
Definition delimited (rest : string) : Prop :=
  match rest with
  | "" => True
  | String c _ => c = ","%char \/ c = "]"%char \/ c = "}"%char
  end.




End JSON.

(** Every property name of a JavaScript object occurs once, at every
    depth.  [JSON.parse] only builds such values (see [set_prop] in
    [parse_value]); the type [json] cannot say it. *)
Fixpoint distinct (names : list string) : bool :=
  match names with
  | [] => true
  | n :: rest => negb (existsb (String.eqb n) rest) && distinct rest
  end.

Fixpoint well_formed (v : json) : bool :=
  match v with
  | JArr items => forallb well_formed items
  | JObj members =>
      distinct (map fst members)
      && forallb (fun kv : string * json => let (_, x) := kv in well_formed x) members
  | _ => true
  end.

(** ** The IndexedDB engine *)

(** Valid keys: numbers, strings, and arrays of valid keys. *)
#[warnings="-register-all"]
Inductive key : Type :=
| KNum (z : Z)
| KStr (s : string)
| KArr (ks : list key).

(** "Convert a value to a key"; [None] is "invalid". *)
Fixpoint to_key (v : json) : option key :=
  match v with
  | JNum z => Some (KNum z)
  | JStr s => Some (KStr s)
  | JArr items =>
      option_map KArr
        ((fix all (l : list json) : option (list key) :=
            match l with
            | [] => Some []
            | x :: l' =>
                match to_key x, all l' with
                | Some k, Some ks => Some (k :: ks)
                | _, _ => None
                end
            end) items)
  | _ => None
  end.

Fixpoint key_eqb (a b : key) : bool :=
  match a, b with
  | KNum x, KNum y => Z.eqb x y
  | KStr x, KStr y => String.eqb x y
  | KArr xs, KArr ys =>
      (fix all (l1 l2 : list key) : bool :=
         match l1, l2 with
         | [], [] => true
         | x :: l1', y :: l2' => key_eqb x y && all l1' l2'
         | _, _ => false
         end) xs ys
  | _, _ => false
  end.

(** The order of keys: numbers before strings before arrays; arrays
    element by element, a proper prefix first. *)
Fixpoint key_compare (a b : key) : comparison :=
  match a, b with
  | KNum x, KNum y => Z.compare x y
  | KNum _, _ => Lt
  | KStr _, KNum _ => Gt
  | KStr x, KStr y => String.compare x y
  | KStr _, KArr _ => Lt
  | KArr xs, KArr ys =>
      (fix lex (l1 l2 : list key) : comparison :=
         match l1, l2 with
         | [], [] => Eq
         | [], _ :: _ => Lt
         | _ :: _, [] => Gt
         | x :: l1', y :: l2' =>
             match key_compare x y with
             | Eq => lex l1' l2'
             | c => c
             end
         end) xs ys
  | KArr _, _ => Gt
  end.

(** An object store with in-line keys and no key generator.  The
    records are kept in the order in which their keys were first put;
    reads that enumerate them ([getAll]) sort them by key.  The two
    non-unique indexes of the entry store constrain nothing and are
    never read, so they are left out. *)
Record ObjectStore : Type := {
  keyPath : string;
  records : list json
}.

(** "Extract a key from a value using a key path". *)
Definition key_of (path : string) (v : json) : option key :=
  match get_prop v path with
  | Some x => to_key x
  | None => None
  end.

Definition has_key (path : string) (k : key) (v : json) : bool :=
  match key_of path v with
  | Some k' => key_eqb k' k
  | None => false
  end.

Definition store_get (k : key) (s : ObjectStore) : option json :=
  find (has_key (keyPath s) k) (records s).

(** Insert-or-replace of a record whose key is [k]. *)
Fixpoint upsert (path : string) (k : key) (v : json) (l : list json) : list json :=
  match l with
  | [] => [v]
  | w :: rest =>
      if has_key path k w then v :: rest else w :: upsert path k v rest
  end.

(** What a [put] request does to the store when the engine runs it; a
    value without a valid key never becomes a request ([put] throws
    DataError when it is called). *)
Definition store_put (v : json) (s : ObjectStore) : ObjectStore :=
  match key_of (keyPath s) v with
  | Some k => {| keyPath := keyPath s; records := upsert (keyPath s) k v (records s) |}
  | None => s
  end.

Definition store_delete (k : key) (s : ObjectStore) : ObjectStore :=
  {| keyPath := keyPath s;
     records := filter (fun v => negb (has_key (keyPath s) k v)) (records s) |}.

Fixpoint insert_by_key (path : string) (v : json) (l : list json) : list json :=
  match l with
  | [] => [v]
  | w :: rest =>
      match key_of path v, key_of path w with
      | Some kv, Some kw =>
          match key_compare kv kw with
          | Gt => w :: insert_by_key path v rest
          | _ => v :: l
          end
      | _, _ => v :: l
      end
  end.

(** [store.getAll()]: every record, in ascending order of key. *)
Definition store_getAll (s : ObjectStore) : list json :=
  fold_right (insert_by_key (keyPath s)) [] (records s).

(** A database: its version and its object stores by name.  A
    database that was never opened has version 0 and no store. *)
Record IDBDatabase : Type := {
  version : N;
  objectStores : list (string * ObjectStore)
}.

Definition no_database : IDBDatabase := {| version := 0; objectStores := [] |}.

Fixpoint find_store (name : string) (l : list (string * ObjectStore))
  : option ObjectStore :=
  match l with
  | [] => None
  | (n, s) :: rest => if String.eqb n name then Some s else find_store name rest
  end.

Fixpoint replace_store (name : string) (s : ObjectStore)
    (l : list (string * ObjectStore)) : list (string * ObjectStore) :=
  match l with
  | [] => []
  | (n, s') :: rest =>
      if String.eqb n name then (n, s) :: rest
      else (n, s') :: replace_store name s rest
  end.

Definition objectStore (name : string) (db : IDBDatabase) : option ObjectStore :=
  find_store name (objectStores db).

Definition contains (name : string) (db : IDBDatabase) : bool :=
  match objectStore name db with Some _ => true | None => false end.

Definition createObjectStore (name path : string) (db : IDBDatabase) : IDBDatabase :=
  {| version := version db;
     objectStores := objectStores db ++ [(name, {| keyPath := path; records := [] |})] |}.

(** The database after a transaction on store [name] has committed. *)
Definition commit (name : string) (s : ObjectStore) (db : IDBDatabase) : IDBDatabase :=
  {| version := version db;
     objectStores := replace_store name s (objectStores db) |}.

(** How the engine behaves during one service call: whether the open
    request fails, which of the requests placed on the call's transaction
    fail (numbered from 0 in the order they are placed), and whether the
    commit of the transaction fails. *)
Record Engine : Type := {
  open_fails : bool;
  request_fails : nat -> bool;
  commit_fails : bool
}.

Definition healthy : Engine :=
  {| open_fails := false; request_fails := fun _ => false; commit_fails := false |}.

(** Some request among the first [n] fails. *)
Definition some_request_fails (eng : Engine) (n : nat) : bool :=
  existsb (request_fails eng) (seq 0 n).

Inductive error : Type :=
| StorageError   (* request.error or transaction.error of the engine *)
| VersionError   (* open: the stored version is above the requested one *)
| NotFoundError  (* db.transaction on a store that does not exist *)
| DataError      (* store.put of a value without a valid key *)
| InvalidFormat. (* new Error('Formato de arquivo invalido') *)

(** How the promise returned by a call settles. [Pending]: it never does.
    [Unmodelled]: the call went on with a value outside the fragment
    (the value of a text that [JSON.parse] gives as [JSON.Unsupported]);
    what it did then is not known here. *)
Inductive settled (A : Type) : Type :=
| Resolved (a : A)
| Rejected (e : error)
| Pending
| Unmodelled.
Arguments Resolved {A} a.
Arguments Rejected {A} e.
Arguments Pending {A}.
Arguments Unmodelled {A}.

(** [array.sort(comparefn)]: a stable sort; [a] goes after [b] only when
    [comparefn(a, b) > 0]. *)
Fixpoint sort_insert (comparefn : json -> json -> Z) (a : json) (l : list json)
  : list json :=
  match l with
  | [] => [a]
  | b :: rest =>
      if (0 <? comparefn a b)%Z then b :: sort_insert comparefn a rest
      else a :: l
  end.

Definition sort (comparefn : json -> json -> Z) (l : list json) : list json :=
  fold_right (sort_insert comparefn) [] l.

(** [for (const x of v)]: arrays and strings can be iterated; [None] is
    the TypeError for any other value. *)
Fixpoint characters (s : string) : list json :=
  match s with
  | "" => []
  | String c rest => JStr (String c "") :: characters rest
  end.

Definition iterate (v : json) : option (list json) :=
  match v with
  | JArr items => Some items
  | JStr s => Some (characters s)
  | _ => None
  end.

(** ** src/types.ts *)

Inductive ViewMode : Type := list_view | grid_view | calendar_view.
Inductive Theme : Type := light | dark.

Record Entry : Type := {
  id : string;
  title : string;
  content : string;
  date : Z;
  updatedAt : Z;
  mood : string;
  tags : list string;
  category : string;
  isFavorite : bool;
  isPrivate : bool;
  images : list string;
  audio : option string;
  drawing : option string;
  location : option string
}.

Record AppSettings : Type := {
  theme : Theme;
  securityEnabled : bool;
  pin : option string;
  biometricsEnabled : bool;
  dailyReminder : bool;
  reminderTime : string;
  viewMode : ViewMode
}.

(** The run-time object of a typed record.  An optional field that is
    not set is an absent property. *)
Definition optional (name : string) (o : option string) : list (string * json) :=
  match o with
  | Some s => [(name, JStr s)]
  | None => []
  end.

Definition entry_to_json (e : Entry) : json :=
  JObj ([("id", JStr (id e));
         ("title", JStr (title e));
         ("content", JStr (content e));
         ("date", JNum (date e));
         ("updatedAt", JNum (updatedAt e));
         ("mood", JStr (mood e));
         ("tags", JArr (map JStr (tags e)));
         ("category", JStr (category e));
         ("isFavorite", JBool (isFavorite e));
         ("isPrivate", JBool (isPrivate e));
         ("images", JArr (map JStr (images e)))]
        ++ optional "audio" (audio e)
        ++ optional "drawing" (drawing e)
        ++ optional "location" (location e)).

Definition theme_to_json (t : Theme) : json :=
  match t with light => JStr "light" | dark => JStr "dark" end.

Definition viewMode_to_json (m : ViewMode) : json :=
  match m with
  | list_view => JStr "list"
  | grid_view => JStr "grid"
  | calendar_view => JStr "calendar"
  end.

Definition settings_to_json (s : AppSettings) : json :=
  JObj [("theme", theme_to_json (theme s));
        ("securityEnabled", JBool (securityEnabled s));
        ("pin", match pin s with Some p => JStr p | None => JNull end);
        ("biometricsEnabled", JBool (biometricsEnabled s));
        ("dailyReminder", JBool (dailyReminder s));
        ("reminderTime", JStr (reminderTime s));
        ("viewMode", viewMode_to_json (viewMode s))].

(** ** src/services/db.ts *)

Definition DB_NAME : string := "OfflineDiaryDB".
Definition DB_VERSION : N := 1.
Definition STORE_ENTRIES : string := "entries".
Definition STORE_SETTINGS : string := "settings".

Definition onupgradeneeded (db : IDBDatabase) : IDBDatabase :=
  let db :=
    if negb (contains STORE_ENTRIES db)
    then createObjectStore STORE_ENTRIES "id" db
    else db in
  if negb (contains STORE_SETTINGS db)
  then createObjectStore STORE_SETTINGS "key" db
  else db.

(** [openDB()]: [indexedDB.open(DB_NAME, DB_VERSION)].  A stored version
    below [DB_VERSION] runs the upgrade; one above it is a VersionError. *)
Definition openDB (eng : Engine) (db : IDBDatabase) : (unit + error) * IDBDatabase :=
  if open_fails eng then (inr StorageError, db)
  else if (DB_VERSION <? version db)%N then (inr VersionError, db)
  else if (version db <? DB_VERSION)%N then
    let db' := onupgradeneeded db in
    (inl tt, {| version := DB_VERSION; objectStores := objectStores db' |})
  else (inl tt, db).

(** The fallback object literal of [getSettings]. *)
Definition defaultSettings : json :=
  JObj [("theme", JStr "light");
        ("securityEnabled", JBool false);
        ("pin", JNull);
        ("biometricsEnabled", JBool false);
        ("dailyReminder", JBool false);
        ("reminderTime", JStr "20:00");
        ("viewMode", JStr "list")].

(** [(a, b) => b.date - a.date].  This is the comparator of the code
    when each [date] is a number or is missing: a missing [date] is
    [undefined], the difference is then NaN, and [sort] reads NaN as 0.
    A [date] of another kind (a string, [null], a boolean, an array) is
    coerced to a number by JavaScript; that coercion is outside the
    fragment, the 0 given here is not what the code computes, and the
    properties below state an order only of records whose [date] is a
    number or is missing. *)
Definition by_date_descending (a b : json) : Z :=
  match get_prop b "date", get_prop a "date" with
  | Some (JNum db), Some (JNum da) => db - da
  | _, _ => 0
  end.

(** The body of the [for..of] loop of [importData]: the values for which
    [store.put] placed a request, and whether a [put] threw. *)
Fixpoint put_each (path : string) (entries : list json) : list json * bool :=
  match entries with
  | [] => ([], false)
  | entry :: rest =>
      match key_of path entry with
      | None => ([], true)
      | Some _ =>
          let (placed, thrown) := put_each path rest in
          (entry :: placed, thrown)
      end
  end.

(** The engine runs the requests placed on a read-write transaction in
    order.  A failed request whose error event nobody cancels, or a
    failed commit, aborts the transaction and undoes all of it: [None]. *)
Definition run_transaction (eng : Engine) (placed : list json) (s : ObjectStore)
  : option ObjectStore :=
  if some_request_fails eng (List.length placed) || commit_fails eng then None
  else Some (fold_left (fun st v => store_put v st) placed s).

Module diaryService.

Definition getAllEntries (eng : Engine) (db : IDBDatabase)
  : settled (list json) * IDBDatabase :=
  match openDB eng db with
  | (inr e, db) => (Rejected e, db)
  | (inl _, db) =>
      match objectStore STORE_ENTRIES db with
      | None => (Rejected NotFoundError, db)
      | Some store =>
          if request_fails eng 0 then (Rejected StorageError, db)
          else (Resolved (sort by_date_descending (store_getAll store)), db)
      end
  end.

(** The body that [saveEntry] and [saveSettings] share: one [put] on
    its own read-write transaction of store [name].  A [put] that throws
    inside the promise's executor rejects the promise; the promise
    resolves on the request's success event, which comes before the
    commit, so a failed commit loses the write unnoticed. *)
Definition put_one (name : string) (v : json) (eng : Engine) (db : IDBDatabase)
  : settled unit * IDBDatabase :=
  match openDB eng db with
  | (inr e, db) => (Rejected e, db)
  | (inl _, db) =>
      match objectStore name db with
      | None => (Rejected NotFoundError, db)
      | Some store =>
          match key_of (keyPath store) v with
          | None => (Rejected DataError, db)
          | Some _ =>
              if request_fails eng 0 then (Rejected StorageError, db)
              else
                (Resolved tt,
                 match run_transaction eng [v] store with
                 | Some store' => commit name store' db
                 | None => db
                 end)
          end
      end
  end.

Definition saveEntry (entry : Entry) : Engine -> IDBDatabase -> settled unit * IDBDatabase :=
  put_one STORE_ENTRIES (entry_to_json entry).

Definition deleteEntry (id : string) (eng : Engine) (db : IDBDatabase)
  : settled unit * IDBDatabase :=
  match openDB eng db with
  | (inr e, db) => (Rejected e, db)
  | (inl _, db) =>
      match objectStore STORE_ENTRIES db with
      | None => (Rejected NotFoundError, db)
      | Some store =>
          if request_fails eng 0 then (Rejected StorageError, db)
          else
            (Resolved tt,
             if commit_fails eng then db
             else commit STORE_ENTRIES (store_delete (KStr id) store) db)
      end
  end.

Definition getSettings (eng : Engine) (db : IDBDatabase)
  : settled json * IDBDatabase :=
  match openDB eng db with
  | (inr e, db) => (Rejected e, db)
  | (inl _, db) =>
      match objectStore STORE_SETTINGS db with
      | None => (Rejected NotFoundError, db)
      | Some store =>
          if request_fails eng 0 then (Resolved (JObj []), db)
          else
            let result := store_get (KStr "appSettings") store in
            let value :=
              match result with
              | Some r => get_prop r "value"
              | None => None
              end in
            (Resolved (match value with
                       | Some v => if truthy value then v else defaultSettings
                       | None => defaultSettings
                       end), db)
      end
  end.

Definition saveSettings (settings : AppSettings)
  : Engine -> IDBDatabase -> settled unit * IDBDatabase :=
  put_one STORE_SETTINGS
    (JObj [("key", JStr "appSettings"); ("value", settings_to_json settings)]).

Definition exportData (eng : Engine) (db : IDBDatabase)
  : settled string * IDBDatabase :=
  match getAllEntries eng db with
  | (Resolved entries, db) => (Resolved (JSON.stringify (JArr entries)), db)
  | (Rejected e, db) => (Rejected e, db)
  | (Pending, db) => (Pending, db)
  | (Unmodelled, db) => (Unmodelled, db)
  end.

(** Everything thrown inside the [try] becomes [InvalidFormat]: a
    SyntaxError of [JSON.parse], a rejected [openDB], a TypeError of
    [for..of], a DataError of [put].  The requests placed before a throw
    stay on the transaction, which nothing aborts, so the engine still
    runs and commits them.  The returned promise is not awaited inside
    the [try]: an engine error reaches the caller as it is, and an abort
    without a request error (a failed commit) settles nothing.  A text
    outside the fragment is parsed by the code to a value that is not a
    [json]: the database is still opened before that value is used, and
    what the loop does with it is [Unmodelled]. *)
Definition importData (jsonString : string) (eng : Engine) (db : IDBDatabase)
  : settled unit * IDBDatabase :=
  match JSON.parse jsonString with
  | JSON.SyntaxError => (Rejected InvalidFormat, db)
  | parsed =>
      match openDB eng db with
      | (inr _, db) => (Rejected InvalidFormat, db)
      | (inl _, db) =>
          match objectStore STORE_ENTRIES db with
          | None => (Rejected InvalidFormat, db)
          | Some store =>
              match parsed with
              | JSON.Parsed entries =>
                  match iterate entries with
                  | None => (Rejected InvalidFormat, db)
                  | Some items =>
                      let (placed, thrown) := put_each (keyPath store) items in
                      let db' :=
                        match run_transaction eng placed store with
                        | Some store' => commit STORE_ENTRIES store' db
                        | None => db
                        end in
                      if thrown then (Rejected InvalidFormat, db')
                      else if some_request_fails eng (List.length placed)
                      then (Rejected StorageError, db')
                      else if commit_fails eng then (Pending, db')
                      else (Resolved tt, db')
                  end
              | _ => (Unmodelled, db)
              end
          end
      end
  end.

End diaryService.

(** The records of a collection, as stored; none when the store does
    not exist yet. *)
Definition collection (name : string) (db : IDBDatabase) : list json :=
  match objectStore name db with
  | Some s => records s
  | None => []
  end.

(** ** Vocabulary of the properties *)

(** Induction on values and on keys, through the lists they nest. *)
Section json_induction.
Variable P : json -> Prop.
Hypothesis Hnull : P JNull.
Hypothesis Hbool : forall b, P (JBool b).
Hypothesis Hnum : forall z, P (JNum z).
Hypothesis Hstr : forall s, P (JStr s).
Hypothesis Harr : forall items, Forall P items -> P (JArr items).
Hypothesis Hobj :
  forall members, Forall (fun kv => P (snd kv)) members -> P (JObj members).

End json_induction.

Section key_induction.
Variable P : key -> Prop.
Hypothesis Hnum : forall z, P (KNum z).
Hypothesis Hstr : forall s, P (KStr s).
Hypothesis Harr : forall ks, Forall P ks -> P (KArr ks).

Fixpoint key_nested_ind (k : key) : P k :=
  match k with
  | KNum z => Hnum z
  | KStr s => Hstr s
  | KArr ks =>
      Harr ks
        ((fix all (l : list key) : Forall P l :=
            match l with
            | [] => Forall_nil _
            | x :: l' => Forall_cons x (key_nested_ind x) (all l')
            end) ks)
  end.
End key_induction.

(** The values of the members of an object are well formed. *)
Definition members_ok (m : list (string * json)) : bool :=
  forallb (fun kv : string * json => let (_, x) := kv in well_formed x) m.

(** The [date] of a record, when it is a number. *)
Definition date_of (v : json) : option Z :=
  match get_prop v "date" with
  | Some (JNum z) => Some z
  | _ => None
  end.

(** [a] may come before [b] in a list sorted by date, newest first. *)
Definition not_older (a b : json) : Prop :=
  exists x y, date_of a = Some x /\ date_of b = Some y /\ (y <= x)%Z.

(** The record has a number as its [date], as [Entry] declares. *)
Definition dated (v : json) : Prop := exists x, date_of v = Some x.

(** A store as [createObjectStore] makes it. *)
Definition empty_store (path : string) : ObjectStore :=
  {| keyPath := path; records := [] |}.

(** The value has a valid key at the key path: [put] accepts it. *)
Definition keyed (path : string) (v : json) : Prop :=
  exists k, key_of path v = Some k.

(** Every record is a JavaScript object with a valid key at the key
    path, and no two records have the same key. *)
Definition store_ok (s : ObjectStore) : Prop :=
  Forall (fun v => keyed (keyPath s) v /\ well_formed v = true) (records s)
  /\ NoDup (map (key_of (keyPath s)) (records s)).

(** The states of the database that the service can reach: never
    opened, or at [DB_VERSION] with both stores of the schema. *)
Definition db_ok (db : IDBDatabase) : Prop :=
  (version db <= 1)%N
  /\ (version db = 1%N ->
      contains STORE_ENTRIES db = true /\ contains STORE_SETTINGS db = true)
  /\ (forall s, objectStore STORE_ENTRIES db = Some s ->
                keyPath s = "id" /\ store_ok s)
  /\ (forall s, objectStore STORE_SETTINGS db = Some s ->
                keyPath s = "key" /\ store_ok s).

(** An engine on which nothing fails during the call. *)
Definition works (eng : Engine) : Prop :=
  open_fails eng = false /\ (forall i, request_fails eng i = false)
  /\ commit_fails eng = false.

(** What one [put] request does to the records of a store. *)
Definition put_record (path : string) (l : list json) (v : json) : list json :=
  match key_of path v with
  | Some k => upsert path k v l
  | None => l
  end.

(** The record stored under a key of the entry collection. *)
Definition entry_get (k : key) (db : IDBDatabase) : option json :=
  find (has_key "id" k) (collection STORE_ENTRIES db).

(** The settings that [saveSettings] last stored, when there are any:
    the [value] of the record under the key ["appSettings"]. *)
Definition stored_settings (db : IDBDatabase) : option json :=
  match find (has_key "key" (KStr "appSettings")) (collection STORE_SETTINGS db) with
  | Some r =>
      match get_prop r "value" with
      | Some v => if truthy (Some v) then Some v else None
      | None => None
      end
  | None => None
  end.

(** The interface [Entry] of types.ts as a test on run-time values. *)
Definition is_string (o : option json) : bool :=
  match o with Some (JStr _) => true | _ => false end.
Definition is_number (o : option json) : bool :=
  match o with Some (JNum _) => true | _ => false end.
Definition is_boolean (o : option json) : bool :=
  match o with Some (JBool _) => true | _ => false end.
Definition is_strings (o : option json) : bool :=
  match o with
  | Some (JArr l) => forallb (fun x => is_string (Some x)) l
  | _ => false
  end.
Definition is_optional_string (o : option json) : bool :=
  match o with None => true | Some (JStr _) => true | _ => false end.

Definition is_entry (v : json) : bool :=
  is_string (get_prop v "id") && is_string (get_prop v "title")
  && is_string (get_prop v "content") && is_number (get_prop v "date")
  && is_number (get_prop v "updatedAt") && is_string (get_prop v "mood")
  && is_strings (get_prop v "tags") && is_string (get_prop v "category")
  && is_boolean (get_prop v "isFavorite") && is_boolean (get_prop v "isPrivate")
  && is_strings (get_prop v "images")
  && is_optional_string (get_prop v "audio")
  && is_optional_string (get_prop v "drawing")
  && is_optional_string (get_prop v "location").

(** The text decodes to a sequence of entry-shaped records. *)
Definition decodes_to_entries (text : string) : bool :=
  match JSON.parse text with
  | JSON.Parsed (JArr items) => forallb is_entry items
  | _ => false
  end.

(** The database after a sequence of [saveEntry] calls, each with its
    own behaviour of the engine. *)
Definition save_all (calls : list (Engine * Entry)) (db : IDBDatabase)
  : IDBDatabase :=
  fold_left (fun d c => snd (diaryService.saveEntry (snd c) (fst c) d)) calls db.

(** The calls of the service, and the database after a sequence of
    calls, each with its own behaviour of the engine. *)
Inductive call : Type :=
| GetAllEntries
| SaveEntry (entry : Entry)
| DeleteEntry (id : string)
| GetSettings
| SaveSettings (settings : AppSettings)
| ExportData
| ImportData (jsonString : string).

Definition after (c : call) (eng : Engine) (db : IDBDatabase) : IDBDatabase :=
  match c with
  | GetAllEntries => snd (diaryService.getAllEntries eng db)
  | SaveEntry entry => snd (diaryService.saveEntry entry eng db)
  | DeleteEntry i => snd (diaryService.deleteEntry i eng db)
  | GetSettings => snd (diaryService.getSettings eng db)
  | SaveSettings settings => snd (diaryService.saveSettings settings eng db)
  | ExportData => snd (diaryService.exportData eng db)
  | ImportData jsonString => snd (diaryService.importData jsonString eng db)
  end.

Definition after_all (calls : list (call * Engine)) (db : IDBDatabase)
  : IDBDatabase :=
  fold_left (fun d c => after (fst c) (snd c) d) calls db.

(** ** Sample data *)

(** Test texts are written with ['] for the double quote. *)
Fixpoint dq (s : string) : string :=
  match s with
  | "" => ""
  | String c rest =>
      String (if Ascii.eqb c "'"%char then JSON.dquote else c) (dq rest)
  end.

(** The engine fails every request, and nothing else. *)
Definition read_error : Engine :=
  {| open_fails := false; request_fails := fun _ => true; commit_fails := false |}.

(** The engine fails the second request placed on the transaction. *)
Definition second_request_fails : Engine :=
  {| open_fails := false; request_fails := Nat.eqb 1; commit_fails := false |}.

(** An entry of the scenarios: an id, a date, a title, the favorite flag. *)
Definition entry_at (i : string) (d : Z) (t : string) (fav : bool) : Entry :=
  {| id := i; title := t; content := ""; date := d; updatedAt := d;
     mood := ""; tags := []; category := "Pessoal"; isFavorite := fav;
     isPrivate := false; images := []; audio := None; drawing := None;
     location := None |}.

(** Three entries saved in the order of the dates 100, 300, 200. *)
Definition sample_db : IDBDatabase :=
  save_all [(healthy, entry_at "a" 100 "Day 1" false);
            (healthy, entry_at "b" 300 "Day 2" false);
            (healthy, entry_at "c" 200 "Day 3" false)] no_database.

(** An import: one record for the id ["b"] of [sample_db], one new id. *)
Definition two_records : list json :=
  [JObj [("id", JStr "b"); ("date", JNum 5)];
   JObj [("id", JStr "n"); ("date", JNum 7)]].

(** ** More vocabulary: what a call may write *)

(** The collections a call can write to. *)
Definition writes (c : call) : list string :=
  match c with
  | SaveEntry _ | DeleteEntry _ | ImportData _ => [STORE_ENTRIES]
  | SaveSettings _ => [STORE_SETTINGS]
  | GetAllEntries | GetSettings | ExportData => []
  end.

(** The records in the order in which [getAll] reads them. *)
Definition in_key_order (path : string) (rs : list json) : list json :=
  fold_right (insert_by_key path) [] rs.

(** The record has the number [d] as its [date]. *)
Definition has_date (d : Z) (v : json) : bool :=
  match date_of v with
  | Some x => Z.eqb x d
  | None => false
  end.

(** The engine fails the commit of the transaction, and nothing else. *)
Definition commit_error : Engine :=
  {| open_fails := false; request_fails := fun _ => false; commit_fails := true |}.

(** The engine cannot open the database. *)
Definition open_error : Engine :=
  {| open_fails := true; request_fails := fun _ => false; commit_fails := false |}.

(** Settings of the scenarios: the lock is on, with a PIN. *)
Definition locked_settings : AppSettings :=
  {| theme := dark; securityEnabled := true; pin := Some "1234";
     biometricsEnabled := false; dailyReminder := false;
     reminderTime := "20:00"; viewMode := grid_view |}.

(** ** Strings of the user interface *)

(** The white space that [String.prototype.trim] removes, among the
    8-bit code units: tab, line feed, vertical tab, form feed, carriage
    return, space and no-break space. *)
Definition is_space (c : ascii) : bool :=
  let n := N_of_ascii c in
  ((9 <=? n)%N && (n <=? 13)%N) || (n =? 32)%N || (n =? 160)%N.

Fixpoint drop_spaces (l : list ascii) : list ascii :=
  match l with
  | c :: rest => if is_space c then drop_spaces rest else l
  | [] => []
  end.

(** [s.trim()]. *)
Definition trim (s : string) : string :=
  string_of_list_ascii
    (rev (drop_spaces (rev (drop_spaces (list_ascii_of_string s))))).

(** [!s.trim()]: nothing but white space. *)
Definition blank (s : string) : bool :=
  forallb is_space (list_ascii_of_string s).

(** [s || fallback] on strings: the empty string is falsy. *)
Definition or_string (s fallback : string) : string :=
  if String.eqb s EmptyString then fallback else s.

(** [array.includes(x)] on an array of strings. *)
Definition includes (x : string) (l : list string) : bool :=
  existsb (String.eqb x) l.

(** ** components/EntryEditor.tsx *)

Module EntryEditor.

(** The default mood, the third emoji of [MOODS].  Its code units are
    outside the 8-bit fragment; the bytes of the constant stand for
    them, and nothing looks inside them but [trim], for which they are
    not white space either. *)
Definition neutral : string := "😐".

(** ['Sem titulo'], with its i acute (code unit 237). *)
Definition untitled : string := "Sem t" ++ String "237"%char "tulo".

(** The state variables of the component that [handleSave] and the tag
    and image handlers read and write. *)
Record State : Type := {
  title : string;
  content : string;
  mood : string;
  category : string;
  tags : list string;
  newTag : string;
  isFavorite : bool;
  isPrivate : bool;
  images : list string;
  audio : option string;
  drawing : option string
}.

(** The initial values of the [useState] calls, from the prop
    [initialEntry] ([None] when a new entry is created). *)
Definition initial_state (initialEntry : option Entry) : State :=
  match initialEntry with
  | Some (Build_Entry _ t c _ _ m tg cat fav prv img a dr _) =>
      {| title := or_string t EmptyString;
         content := or_string c EmptyString;
         mood := or_string m neutral;
         category := or_string cat "Pessoal";
         tags := tg;
         newTag := EmptyString;
         isFavorite := fav;
         isPrivate := prv;
         images := img;
         audio := a;
         drawing := dr |}
  | None =>
      {| title := EmptyString; content := EmptyString; mood := neutral;
         category := "Pessoal"; tags := []; newTag := EmptyString;
         isFavorite := false; isPrivate := false; images := [];
         audio := None; drawing := None |}
  end.

(** [handleSave]: [None] is the alert, after which [onSave] is not
    called; otherwise the entry handed to [onSave].  [uuid] is what
    [uuidv4()] returns, [now] and [now'] what the two calls of
    [Date.now()] return.  The object literal has no [location]. *)
Definition handleSave (initialEntry : option Entry) (uuid : string) (now now' : Z)
    (st : State) : option Entry :=
  if blank (title st) && blank (content st) then None
  else
    Some (Build_Entry
            (match initialEntry with
             | Some (Build_Entry i _ _ _ _ _ _ _ _ _ _ _ _ _) => or_string i uuid
             | None => uuid
             end)
            (or_string (title st) untitled)
            (content st)
            (match initialEntry with
             | Some (Build_Entry _ _ _ d _ _ _ _ _ _ _ _ _ _) =>
                 if Z.eqb d 0 then now else d
             | None => now
             end)
            now'
            (mood st) (tags st) (category st) (isFavorite st) (isPrivate st)
            (images st) (audio st) (drawing st) None).

(** [addTag], for the key event [key]. *)
Definition addTag (key : string) (st : State) : State :=
  if String.eqb key "Enter" && negb (blank (newTag st)) then
    {| title := title st; content := content st; mood := mood st;
       category := category st;
       tags := if includes (trim (newTag st)) (tags st) then tags st
               else tags st ++ [trim (newTag st)];
       newTag := EmptyString;
       isFavorite := isFavorite st; isPrivate := isPrivate st;
       images := images st; audio := audio st; drawing := drawing st |}
  else st.

(** The state setters [setTags] and [setNewTag]. *)
Definition setTags (value : list string) (st : State) : State :=
  {| title := title st; content := content st; mood := mood st;
     category := category st; tags := value; newTag := newTag st;
     isFavorite := isFavorite st; isPrivate := isPrivate st;
     images := images st; audio := audio st; drawing := drawing st |}.

Definition setNewTag (value : string) (st : State) : State :=
  {| title := title st; content := content st; mood := mood st;
     category := category st; tags := tags st; newTag := value;
     isFavorite := isFavorite st; isPrivate := isPrivate st;
     images := images st; audio := audio st; drawing := drawing st |}.

(** The button of a tag: [setTags(tags.filter(tag => tag !== t))]. *)
Definition removeTag (t : string) (st : State) : State :=
  {| title := title st; content := content st; mood := mood st;
     category := category st;
     tags := filter (fun tag => negb (String.eqb tag t)) (tags st);
     newTag := newTag st;
     isFavorite := isFavorite st; isPrivate := isPrivate st;
     images := images st; audio := audio st; drawing := drawing st |}.

End EntryEditor.

(** An entry as the editor makes them, with a location besides. *)
Definition written_entry : Entry :=
  {| id := "e1"; title := "Day 1"; content := "Dear diary"; date := 100;
     updatedAt := 100; mood := EntryEditor.neutral; tags := ["trip"];
     category := "Viagem"; isFavorite := true; isPrivate := false;
     images := []; audio := None; drawing := None;
     location := Some "Lisboa" |}.

(** The editor on [written_entry], with a tag typed but not entered. *)
Definition typing_a_tag : EntryEditor.State :=
  EntryEditor.setNewTag " sea " (EntryEditor.initial_state (Some written_entry)).

(** Tags as the editor keeps them: pairwise different, none empty. *)
Definition tags_ok (l : list string) : Prop :=
  NoDup l /\ Forall (fun t => t <> EmptyString) l.

(** ** App.tsx *)

(** [o === s] for a string [s]. *)
Definition is_the_string (o : option json) (s : string) : bool :=
  match o with
  | Some (JStr t) => String.eqb t s
  | _ => false
  end.

(** The own enumerable properties that a spread [{...v}] copies.  The
    index properties of an array or a string are named by the decimal
    index. *)
Fixpoint indexed (i : N) (l : list json) : list (string * json) :=
  match l with
  | [] => []
  | x :: rest => (JSON.print_N i, x) :: indexed (N.succ i) rest
  end.

Definition spread (v : option json) : list (string * json) :=
  match v with
  | Some (JObj members) => members
  | Some (JArr items) => indexed 0 items
  | Some (JStr s) => indexed 0 (characters s)
  | _ => []
  end.

(** [diaryService.saveSettings] on the run-time value it is called
    with; for a typed record it is [diaryService.saveSettings]. *)
Definition saveSettings_value (value : json)
  : Engine -> IDBDatabase -> settled unit * IDBDatabase :=
  diaryService.put_one STORE_SETTINGS
    (JObj [("key", JStr "appSettings"); ("value", value)]).

Module App.

(** The state variables of [App] that its handlers read and write, and
    [dark]: whether the class list of the document has ['dark']. *)
Record State : Type := {
  entries : list json;
  settings : option json;
  isLoading : bool;
  toast : option (string * string);
  view : string;
  editingEntry : option json;
  isLocked : bool;
  pinInput : string;
  lockError : string;
  shakeLock : bool;
  dark : bool
}.

(** The initial values of the [useState] calls. *)
Definition initial (dark0 : bool) : State :=
  {| entries := []; settings := None; isLoading := true; toast := None;
     view := "home"; editingEntry := None; isLocked := true;
     pinInput := EmptyString; lockError := EmptyString; shakeLock := false;
     dark := dark0 |}.

Definition showToast (msg type : string) (st : State) : State :=
  {| entries := entries st; settings := settings st; isLoading := isLoading st;
     toast := Some (msg, type); view := view st;
     editingEntry := editingEntry st; isLocked := isLocked st;
     pinInput := pinInput st; lockError := lockError st;
     shakeLock := shakeLock st; dark := dark st |}.

Definition setIsLoading (b : bool) (st : State) : State :=
  {| entries := entries st; settings := settings st; isLoading := b;
     toast := toast st; view := view st;
     editingEntry := editingEntry st; isLocked := isLocked st;
     pinInput := pinInput st; lockError := lockError st;
     shakeLock := shakeLock st; dark := dark st |}.

(** The effect [init] of the first render: [engE] is the engine during
    [getAllEntries], [engS] during [getSettings].  The request for the
    permission to notify and the reminder check set no state. *)
Definition init (engE engS : Engine) (st : State) (db : IDBDatabase)
  : State * IDBDatabase :=
  match diaryService.getAllEntries engE db with
  | (Resolved loadedEntries, db) =>
      match diaryService.getSettings engS db with
      | (Resolved loadedSettings, db) =>
          (setIsLoading false
             {| entries := loadedEntries;
                settings := Some loadedSettings;
                isLoading := isLoading st; toast := toast st; view := view st;
                editingEntry := editingEntry st;
                isLocked :=
                  if negb (truthy (get_prop loadedSettings "securityEnabled"))
                  then false else isLocked st;
                pinInput := pinInput st; lockError := lockError st;
                shakeLock := shakeLock st;
                dark := is_the_string (get_prop loadedSettings "theme") "dark" |},
           db)
      | (Rejected _, db) =>
          (setIsLoading false (showToast "Erro ao carregar dados" "error" st), db)
      | (_, db) => (st, db)
      end
  | (Rejected _, db) =>
      (setIsLoading false (showToast "Erro ao carregar dados" "error" st), db)
  | (_, db) => (st, db)
  end.

(** The [onChange] of the PIN field. *)
Definition setPinInput (value : string) (st : State) : State :=
  {| entries := entries st; settings := settings st; isLoading := isLoading st;
     toast := toast st; view := view st;
     editingEntry := editingEntry st; isLocked := isLocked st;
     pinInput := value; lockError := lockError st;
     shakeLock := shakeLock st; dark := dark st |}.

(** [handleUnlock]; the timer that stops the shaking is left out. *)
Definition handleUnlock (st : State) : State :=
  if is_the_string
       (match settings st with Some s => get_prop s "pin" | None => None end)
       (pinInput st)
  then
    {| entries := entries st; settings := settings st; isLoading := isLoading st;
       toast := toast st; view := view st; editingEntry := editingEntry st;
       isLocked := false; pinInput := EmptyString; lockError := EmptyString;
       shakeLock := shakeLock st; dark := dark st |}
  else
    {| entries := entries st; settings := settings st; isLoading := isLoading st;
       toast := toast st; view := view st; editingEntry := editingEntry st;
       isLocked := isLocked st; pinInput := EmptyString;
       lockError := "PIN Incorreto"; shakeLock := true; dark := dark st |}.

(** [handleSaveEntry]: a rejection of either call leaves the handler
    before any state is set. *)
Definition handleSaveEntry (entry : Entry) (engS engL : Engine)
    (st : State) (db : IDBDatabase) : State * IDBDatabase :=
  match diaryService.saveEntry entry engS db with
  | (Resolved _, db) =>
      match diaryService.getAllEntries engL db with
      | (Resolved updatedEntries, db) =>
          (showToast "Entrada salva com sucesso!" "success"
             {| entries := updatedEntries; settings := settings st;
                isLoading := isLoading st; toast := toast st; view := "home";
                editingEntry := None; isLocked := isLocked st;
                pinInput := pinInput st; lockError := lockError st;
                shakeLock := shakeLock st; dark := dark st |}, db)
      | (_, db) => (st, db)
      end
  | (_, db) => (st, db)
  end.

(** [handleDeleteEntry]; [confirmed] is the answer to [window.confirm].
    The list is filtered in memory, not read again. *)
Definition handleDeleteEntry (confirmed : bool) (id : string) (eng : Engine)
    (st : State) (db : IDBDatabase) : State * IDBDatabase :=
  if confirmed then
    match diaryService.deleteEntry id eng db with
    | (Resolved _, db) =>
        (showToast "Entrada removida" "info"
           {| entries :=
                filter (fun e => negb (is_the_string (get_prop e "id") id))
                       (entries st);
              settings := settings st; isLoading := isLoading st;
              toast := toast st;
              view := if String.eqb (view st) "editor" then "home" else view st;
              editingEntry :=
                if String.eqb (view st) "editor" then None else editingEntry st;
              isLocked := isLocked st; pinInput := pinInput st;
              lockError := lockError st; shakeLock := shakeLock st;
              dark := dark st |}, db)
    | (_, db) => (st, db)
    end
  else (st, db).

(** [updateSettings(partial)]: the merged object is set as state, then
    saved. *)
Definition updateSettings (partial : json) (eng : Engine)
    (st : State) (db : IDBDatabase) : State * IDBDatabase :=
  if truthy (settings st) then
    let updated :=
      JObj (JSON.define_all (spread (Some partial))
              (JSON.define_all (spread (settings st)) [])) in
    ({| entries := entries st; settings := Some updated;
        isLoading := isLoading st; toast := toast st; view := view st;
        editingEntry := editingEntry st; isLocked := isLocked st;
        pinInput := pinInput st; lockError := lockError st;
        shakeLock := shakeLock st; dark := dark st |},
     snd (saveSettings_value updated eng db))
  else (st, db).

(** [toggleTheme]: the save is not awaited. *)
Definition toggleTheme (eng : Engine) (st : State) (db : IDBDatabase)
  : State * IDBDatabase :=
  let newTheme :=
    if is_the_string
         (match settings st with Some s => get_prop s "theme" | None => None end)
         "light"
    then "dark" else "light" in
  let newSettings :=
    JObj (JSON.define_all [("theme", JStr newTheme)]
            (JSON.define_all (spread (settings st)) [])) in
  ({| entries := entries st; settings := Some newSettings;
      isLoading := isLoading st; toast := toast st; view := view st;
      editingEntry := editingEntry st; isLocked := isLocked st;
      pinInput := pinInput st; lockError := lockError st;
      shakeLock := shakeLock st; dark := negb (dark st) |},
   snd (saveSettings_value newSettings eng db)).

(** ['Arquivo invalido'], with its a acute (code unit 225). *)
Definition invalid_file : string := "Arquivo inv" ++ String "225"%char "lido".

(** The [onload] handler of [handleImport], on the text of the chosen
    file: [engI] is the engine during [importData], [engL] during the
    read that follows.  Whatever is thrown gives the same toast; a
    promise that never settles leaves the state as it is.  Nothing is
    known of the state after an [Unmodelled] import: it is left as it
    is here, and no property is stated of it. *)

Definition handleImport (text : string) (engI engL : Engine)
    (st : State) (db : IDBDatabase) : State * IDBDatabase :=
  match diaryService.importData text engI db with
  | (Resolved _, db) =>
      match diaryService.getAllEntries engL db with
      | (Resolved loaded, db) =>
          (showToast "Backup restaurado!" "success"
             {| entries := loaded; settings := settings st;
                isLoading := isLoading st; toast := toast st; view := view st;
                editingEntry := editingEntry st; isLocked := isLocked st;
                pinInput := pinInput st; lockError := lockError st;
                shakeLock := shakeLock st; dark := dark st |}, db)
      | (Rejected _, db) => (showToast invalid_file "error" st, db)
      | (_, db) => (st, db)
      end
  | (Rejected _, db) => (showToast invalid_file "error" st, db)
  | (_, db) => (st, db)
  end.

End App.

(** What [getAllEntries] resolves with when the read succeeds: the
    entry collection in key order, sorted by date, newest first. *)
Definition listing (db : IDBDatabase) : list json :=
  sort by_date_descending (in_key_order "id" (collection STORE_ENTRIES db)).

(** The state of [App] after the [init] of a start, in a document that
    has not the class ['dark'] yet. *)
Definition started (engE engS : Engine) (db : IDBDatabase) : App.State :=
  fst (App.init engE engS (App.initial false) db).

(** The database of the scenarios after the lock was set up. *)
Definition locked_db : IDBDatabase :=
  after (SaveSettings locked_settings) healthy sample_db.

(** [x] may come before [y] in key order. *)
Definition key_before (path : string) (x y : json) : Prop :=
  exists kx ky,
    key_of path x = Some kx /\ key_of path y = Some ky
    /\ key_compare kx ky <> Gt.

(** [settings?.name] on the settings that [App] holds. *)
Definition setting (name : string) (st : App.State) : option json :=
  match App.settings st with
  | Some s => get_prop s name
  | None => None
  end.

(** ** components/StatsView.tsx: the mood statistics *)

(** An entry of the table [MOODS] of types.ts. *)
Record MoodDef : Type := {
  emoji : string;
  label : string;
  value : Z
}.

(** The names on which an object literal behaves as a plain table: not
    an array index (JavaScript lists those first, in numeric order) and
    not a property that every object inherits. *)
Definition inherited_names : list string :=
  ["constructor"; "__proto__"; "hasOwnProperty"; "isPrototypeOf";
   "propertyIsEnumerable"; "toLocaleString"; "toString"; "valueOf";
   "__defineGetter__"; "__defineSetter__"; "__lookupGetter__";
   "__lookupSetter__"].

Definition is_index (s : string) : bool :=
  match NilEmpty.uint_of_string s with
  | Some d => String.eqb (JSON.print_N (N.of_uint d)) s
  | None => false
  end.

Definition plain_name (s : string) : bool :=
  negb (is_index s) && negb (includes s inherited_names).

Module StatsView.

(** [x || 0] on a count or [undefined]. *)
Definition or_zero (x : option json) : Z :=
  match x with
  | Some (JNum z) => z
  | _ => 0
  end.

(** The [reduce] over the entries: [acc[entry.mood] = (acc[entry.mood]
    || 0) + 1], from the empty object.  This is the table of JavaScript
    when the moods are plain names: then [acc[name]] reads an own
    property or [undefined], and the members are in the order of
    [Object.entries]. *)
Definition moodCounts (entries : list Entry) : list (string * json) :=
  fold_left
    (fun acc entry =>
       set_prop (mood entry) (JNum (or_zero (lookup (mood entry) acc) + 1)) acc)
    entries [].

(** [(a, b) => b.value - a.value]. *)
Definition by_value_descending (a b : json) : Z :=
  match get_prop b "value", get_prop a "value" with
  | Some (JNum vb), Some (JNum va) => vb - va
  | _, _ => 0
  end.

Definition moodData (MOODS : list MoodDef) (entries : list Entry) : list json :=
  sort by_value_descending
    (map (fun kv : string * json =>
            let (emoji0, count) := kv in
            let moodDef := find (fun m => String.eqb (emoji m) emoji0) MOODS in
            JObj [("name",
                   JStr (match moodDef with
                         | Some m => or_string (label m) emoji0
                         | None => emoji0
                         end));
                  ("value", count);
                  ("emoji", JStr emoji0)])
         (moodCounts entries)).

(** The card "Humor Top": [moodData.length > 0 ? moodData[0].emoji : '-']. *)
Definition top_mood (MOODS : list MoodDef) (entries : list Entry) : string :=
  match moodData MOODS entries with
  | first :: _ =>
      match get_prop first "emoji" with
      | Some (JStr e) => e
      | _ => EmptyString
      end
  | [] => "-"
  end.

End StatsView.

(** How many of the entries have the mood [m]. *)
Definition with_mood (m : string) (entries : list Entry) : Z :=
  Z.of_nat (List.length (filter (fun e => String.eqb (mood e) m) entries)).

(** The sum of the counts of a table. *)
Fixpoint total (counts : list (string * json)) : Z :=
  match counts with
  | [] => 0
  | (_, x) :: rest => StatsView.or_zero (Some x) + total rest
  end.

(** Entries of the scenarios with moods. *)
Definition moody (i m : string) : Entry :=
  {| id := i; title := "t"; content := ""; date := 1; updatedAt := 1;
     mood := m; tags := []; category := "Pessoal"; isFavorite := false;
     isPrivate := false; images := []; audio := None; drawing := None;
     location := None |}.

(** The [value] of a datum of the chart, when it is a number. *)
Definition value_of (v : json) : option Z :=
  match get_prop v "value" with
  | Some (JNum z) => Some z
  | _ => None
  end.

(** [a] may come before [b] in a list sorted by value, greatest first. *)
Definition not_fewer (a b : json) : Prop :=
  exists x y, value_of a = Some x /\ value_of b = Some y /\ (y <= x)%Z.

(** * Properties *)

Import diaryService.

(** ** JSON text on examples *)

Example parse_array_of_records :
  JSON.parse (dq "[{'id':'a','date':100}, {'id':'b','tags':['x','y'],'n':-12}]")
  = JSON.Parsed
      (JArr [JObj [("id", JStr "a"); ("date", JNum 100)];
             JObj [("id", JStr "b"); ("tags", JArr [JStr "x"; JStr "y"]);
                   ("n", JNum (-12))]]).
Proof. vm_compute. reflexivity. Qed.

Example parse_not_json : JSON.parse "not json" = JSON.SyntaxError.
Proof. reflexivity. Qed.

Example parse_empty_object : JSON.parse "{}" = JSON.Parsed (JObj []).
Proof. reflexivity. Qed.

Example parse_repeated_name :
  JSON.parse (dq "{'a':1,'b':2,'a':3}")
  = JSON.Parsed (JObj [("a", JNum 3); ("b", JNum 2)]).
Proof. vm_compute. reflexivity. Qed.

Example parse_escapes :
  JSON.parse (dq "'aA\n\\'")
  = JSON.Parsed
      (JStr (String "a" (String "A" (String "010"
               (String JSON.backslash EmptyString))))).
Proof. vm_compute. reflexivity. Qed.

Example parse_refuses :
  JSON.parse "[1,]" = JSON.SyntaxError /\ JSON.parse "01" = JSON.SyntaxError
  /\ JSON.parse "[1 2]" = JSON.SyntaxError /\ JSON.parse "-" = JSON.SyntaxError
  /\ JSON.parse "" = JSON.SyntaxError /\ JSON.parse "[1] x" = JSON.SyntaxError.
Proof. vm_compute. repeat split. Qed.

(** JSON that the fragment has no value for: a fraction, an exponent,
    a code unit above 00ff. *)
Example parse_outside_fragment :
  JSON.parse "1.5" = JSON.Unsupported
  /\ JSON.parse (dq "[{'id':'a','date':1e3}]") = JSON.Unsupported
  /\ JSON.parse (dq "'\ud83d\ude10'") = JSON.Unsupported.
Proof. vm_compute. repeat split. Qed.

Example parse_skips_whitespace :
  JSON.parse " [ 1 , 2 ] " = JSON.Parsed (JArr [JNum 1; JNum 2]).
Proof. vm_compute. reflexivity. Qed.

Example stringify_values :
  JSON.stringify
    (JArr [JObj [("id", JStr "a"); ("date", JNum 100)];
           JNull; JBool true; JNum (-5); JArr []])
  = dq "[{'id':'a','date':100},null,true,-5,[]]".
Proof. vm_compute. reflexivity. Qed.

(** ** Facts about JSON text *)

Module JSONFacts.
Import JSON.



(** *** String literals *)




(** *** Numbers *)







(** *** Values *)




Lemma elements_tail_delimited (l : list json) (rest : string) :
  delimited (elements_tail l ++ rest)%string.
Proof. destruct l; cbn; auto. Qed.

Lemma members_tail_delimited (l : list (string * json)) (rest : string) :
  delimited (members_tail l ++ rest)%string.
Proof. destruct l as [|[k x] l]; cbn; auto. Qed.


















End JSONFacts.

(** ** Facts about keys and object stores *)

Lemma key_eqb_eq (a b : key) : key_eqb a b = true <-> a = b.
Proof.
  revert b. induction a as [x | x | xs IH] using key_nested_ind;
    intros [y | y | ys]; cbn [key_eqb];
    try (split; [discriminate | congruence]).
  - rewrite Z.eqb_eq. split; congruence.
  - rewrite String.eqb_eq. split; congruence.
  - revert ys. induction IH as [|x xs Hx Hxs IHxs]; intros [|y ys];
      try (split; [discriminate | congruence]).
    + split; reflexivity.
    + rewrite andb_true_iff, Hx, IHxs. split.
      * intros [-> E]. congruence.
      * intros E. injection E as -> ->. auto.
Qed.

Lemma key_eqb_refl (k : key) : key_eqb k k = true.
Proof. now apply key_eqb_eq. Qed.

Lemma key_eqb_neq (a b : key) : key_eqb a b = false <-> a <> b.
Proof.
  rewrite <- key_eqb_eq. destruct (key_eqb a b); split; congruence.
Qed.

Lemma has_key_iff (path : string) (k : key) (v : json) :
  has_key path k v = true <-> key_of path v = Some k.
Proof.
  unfold has_key. destruct (key_of path v) as [k'|].
  - rewrite key_eqb_eq. split; congruence.
  - split; discriminate.
Qed.

Lemma has_key_other (path : string) (k k' : key) (v : json) :
  key_of path v = Some k -> k <> k' -> has_key path k' v = false.
Proof.
  intros Hv Hk. unfold has_key. rewrite Hv. now apply key_eqb_neq.
Qed.

Section upsert.
Variables (path : string) (k : key) (v : json).
Hypothesis Hv : key_of path v = Some k.

Lemma find_upsert_same (l : list json) :
  find (has_key path k) (upsert path k v l) = Some v.
Proof.
  assert (Hk : has_key path k v = true) by now apply has_key_iff.
  induction l as [|w l IH]; cbn; [now rewrite Hk|].
  destruct (has_key path k w) eqn:E; cbn; [now rewrite Hk|].
  now rewrite E.
Qed.

Lemma find_upsert_other (k' : key) (l : list json) :
  k <> k' ->
  find (has_key path k') (upsert path k v l) = find (has_key path k') l.
Proof.
  intros Hk.
  assert (Hv' : has_key path k' v = false) by now apply has_key_other with k.
  induction l as [|w l IH]; cbn; [now rewrite Hv'|].
  destruct (has_key path k w) eqn:E; cbn.
  - apply has_key_iff in E.
    now rewrite Hv', (has_key_other path k k' w E Hk).
  - now rewrite IH.
Qed.

(** The keys after an upsert: unchanged when [k] was there, [k] added
    last when it was not. *)
Lemma keys_upsert (l : list json) :
  map (key_of path) (upsert path k v l)
  = if existsb (has_key path k) l
    then map (key_of path) l
    else map (key_of path) l ++ [Some k].
Proof.
  induction l as [|w l IH]; cbn; [now rewrite Hv|].
  destruct (has_key path k w) eqn:E; cbn.
  - apply has_key_iff in E. congruence.
  - rewrite IH. now destruct (existsb (has_key path k) l).
Qed.


Lemma filter_upsert (l : list json) :
  NoDup (map (key_of path) l) ->
  filter (has_key path k) (upsert path k v l) = [v].
Proof.
  assert (Hk : has_key path k v = true) by now apply has_key_iff.
  induction l as [|w l IH]; cbn; [now rewrite Hk|].
  intros Hnd. inversion Hnd as [|? ? Hnotin Hnd']; subst.
  destruct (has_key path k w) eqn:E; cbn.
  - rewrite Hk. f_equal.
    apply has_key_iff in E. rewrite E in Hnotin.
    clear -Hnotin. induction l as [|u l IH]; cbn; [reflexivity|].
    destruct (has_key path k u) eqn:Eu.
    + apply has_key_iff in Eu. exfalso. apply Hnotin. left. exact Eu.
    + apply IH. intros H. apply Hnotin. now right.
  - rewrite E. now apply IH.
Qed.
End upsert.

Lemma existsb_has_key (path : string) (k : key) (l : list json) :
  existsb (has_key path k) l = true <-> In (Some k) (map (key_of path) l).
Proof.
  rewrite existsb_exists, in_map_iff. split.
  - intros (w & Hin & Hw). exists w. split; [now apply has_key_iff | exact Hin].
  - intros (w & Hw & Hin). exists w. split; [exact Hin | now apply has_key_iff].
Qed.

Lemma NoDup_keys_upsert (path : string) (k : key) (v : json) (l : list json) :
  key_of path v = Some k ->
  NoDup (map (key_of path) l) ->
  NoDup (map (key_of path) (upsert path k v l)).
Proof.
  intros Hv Hnd. rewrite keys_upsert by exact Hv.
  destruct (existsb (has_key path k) l) eqn:E; [exact Hnd|].
  apply NoDup_app; [exact Hnd | repeat constructor; intros [] |].
  intros x Hin [<- | []].
  apply existsb_has_key in Hin. congruence.
Qed.

Lemma In_upsert (path : string) (k : key) (v : json) (l : list json) (w : json) :
  In w (upsert path k v l) -> w = v \/ In w l.
Proof.
  induction l as [|u l IH]; cbn; [intuition|].
  destruct (has_key path k u); cbn; intuition.
Qed.

(** ** Facts about [getAll] and [sort] *)

Lemma insert_by_key_perm (path : string) (v : json) (l : list json) :
  Permutation (insert_by_key path v l) (v :: l).
Proof.
  induction l as [|w l IH]; cbn; [reflexivity|].
  destruct (key_of path v), (key_of path w); try reflexivity.
  destruct (key_compare k k0); try reflexivity.
  rewrite IH. apply perm_swap.
Qed.

Lemma store_getAll_perm (s : ObjectStore) :
  Permutation (store_getAll s) (records s).
Proof.
  unfold store_getAll. induction (records s) as [|v l IH]; cbn; [reflexivity|].
  rewrite insert_by_key_perm. now constructor.
Qed.

Lemma sort_insert_perm (comparefn : json -> json -> Z) (a : json) (l : list json) :
  Permutation (sort_insert comparefn a l) (a :: l).
Proof.
  induction l as [|b l IH]; cbn; [reflexivity|].
  destruct (0 <? comparefn a b)%Z; [|reflexivity].
  rewrite IH. apply perm_swap.
Qed.

Lemma sort_perm (comparefn : json -> json -> Z) (l : list json) :
  Permutation (sort comparefn l) l.
Proof.
  unfold sort. induction l as [|a l IH]; cbn; [reflexivity|].
  rewrite sort_insert_perm. now constructor.
Qed.

Lemma by_date_descending_dates (a b : json) (x y : Z) :
  date_of a = Some x -> date_of b = Some y -> by_date_descending a b = (y - x)%Z.
Proof.
  unfold date_of, by_date_descending. intros Ha Hb.
  destruct (get_prop b "date") as [[]|]; try discriminate.
  destruct (get_prop a "date") as [[]|]; try discriminate.
  congruence.
Qed.

Lemma sort_insert_sorted (a : json) (l : list json) :
  dated a -> Forall dated l ->
  StronglySorted not_older l ->
  StronglySorted not_older (sort_insert by_date_descending a l).
Proof.
  intros [x Ha] Hl Hs. induction Hs as [|b l Hs IH Hb]; cbn.
  - repeat constructor.
  - inversion Hl as [|? ? [y Hy] Hl']; subst.
    rewrite (by_date_descending_dates a b x y Ha Hy).
    destruct (0 <? y - x)%Z eqn:E.
    + apply Z.ltb_lt in E. constructor; [now apply IH|].
      eapply Permutation_Forall; [symmetry; apply sort_insert_perm|].
      constructor; [|exact Hb]. exists y, x. repeat split; auto. lia.
    + apply Z.ltb_ge in E. constructor; [now constructor|].
      constructor; [exists x, y; repeat split; auto; lia|].
      rewrite Forall_forall in *. intros c Hc.
      destruct (Hb c Hc) as (y' & z & Hy' & Hz & Hle).
      exists x, z. repeat split; auto. rewrite Hy in Hy'. injection Hy' as <-. lia.
Qed.

Lemma sort_sorted (l : list json) :
  Forall dated l -> StronglySorted not_older (sort by_date_descending l).
Proof.
  unfold sort. induction 1 as [|a l Ha Hl IH]; cbn; [constructor|].
  apply sort_insert_sorted; auto.
  eapply Permutation_Forall; [symmetry; apply sort_perm | exact Hl].
Qed.

(** ** Facts about the database *)

Lemma find_store_app (name n : string) (s : ObjectStore) (l : list (string * ObjectStore)) :
  find_store name (l ++ [(n, s)])
  = match find_store name l with
    | Some x => Some x
    | None => if String.eqb n name then Some s else None
    end.
Proof.
  induction l as [|[m x] l IH]; cbn; [reflexivity|].
  now destruct (String.eqb m name).
Qed.

Lemma find_store_replace (name n : string) (s : ObjectStore) (l : list (string * ObjectStore)) :
  find_store name (replace_store n s l)
  = if String.eqb n name
    then match find_store name l with Some _ => Some s | None => None end
    else find_store name l.
Proof.
  induction l as [|[m x] l IH]; cbn; [now destruct (String.eqb n name)|].
  destruct (String.eqb m n) eqn:Emn; cbn.
  - apply String.eqb_eq in Emn. subst m.
    now destruct (String.eqb n name).
  - rewrite IH. destruct (String.eqb m name) eqn:Em; [|reflexivity].
    destruct (String.eqb n name) eqn:En; [|reflexivity].
    apply String.eqb_eq in Em, En. subst. now rewrite String.eqb_refl in Emn.
Qed.

Lemma objectStore_commit (name n : string) (s : ObjectStore) (db : IDBDatabase) :
  objectStore name (commit n s db)
  = if String.eqb n name
    then match objectStore name db with Some _ => Some s | None => None end
    else objectStore name db.
Proof. apply find_store_replace. Qed.

Lemma collection_commit_same (name : string) (s s0 : ObjectStore) (db : IDBDatabase) :
  objectStore name db = Some s0 ->
  collection name (commit name s db) = records s.
Proof.
  intros H. unfold collection. rewrite objectStore_commit, String.eqb_refl, H.
  reflexivity.
Qed.

Lemma collection_commit_other (name n : string) (s : ObjectStore) (db : IDBDatabase) :
  n <> name -> collection name (commit n s db) = collection name db.
Proof.
  intros H. unfold collection. rewrite objectStore_commit.
  apply String.eqb_neq in H. now rewrite H.
Qed.

Lemma objectStore_create (name n path : string) (db : IDBDatabase) :
  objectStore name (createObjectStore n path db)
  = match objectStore name db with
    | Some x => Some x
    | None => if String.eqb n name then Some (empty_store path) else None
    end.
Proof. apply find_store_app. Qed.

(** The stores after the upgrade: those that were there, and the two
    of the schema when they were missing. *)
Lemma objectStore_onupgradeneeded (name : string) (db : IDBDatabase) :
  objectStore name (onupgradeneeded db)
  = match objectStore name db with
    | Some x => Some x
    | None =>
        if String.eqb STORE_ENTRIES name then Some (empty_store "id")
        else if String.eqb STORE_SETTINGS name then Some (empty_store "key")
        else None
    end.
Proof.
  unfold onupgradeneeded, contains.
  destruct (objectStore STORE_ENTRIES db) as [se|] eqn:E1; cbn [negb].
  - destruct (objectStore STORE_SETTINGS db) as [ss|] eqn:E2; cbn [negb].
    + destruct (objectStore name db) eqn:E; [reflexivity|].
      destruct (String.eqb_spec STORE_ENTRIES name) as [<-|]; [congruence|].
      destruct (String.eqb_spec STORE_SETTINGS name) as [<-|]; congruence.
    + rewrite objectStore_create.
      destruct (objectStore name db) eqn:E; [reflexivity|].
      destruct (String.eqb_spec STORE_ENTRIES name) as [<-|]; [congruence|].
      reflexivity.
  - rewrite (objectStore_create STORE_SETTINGS).
    change (String.eqb STORE_ENTRIES STORE_SETTINGS) with false.
    destruct (objectStore STORE_SETTINGS db) as [ss|] eqn:E2; cbn [negb].
    + rewrite objectStore_create.
      destruct (objectStore name db) eqn:E; [reflexivity|].
      destruct (String.eqb_spec STORE_ENTRIES name) as [<-|]; [reflexivity|].
      destruct (String.eqb_spec STORE_SETTINGS name) as [<-|]; congruence.
    + rewrite !objectStore_create.
      destruct (objectStore name db) eqn:E; [reflexivity|].
      destruct (String.eqb_spec STORE_ENTRIES name) as [<-|]; reflexivity.
Qed.

(** What a successful [openDB] hands to the caller. *)
Lemma openDB_success (eng : Engine) (db db1 : IDBDatabase) :
  openDB eng db = (inl tt, db1) ->
  (version db <= 1)%N /\ version db1 = 1%N
  /\ forall name,
       objectStore name db1
       = if (version db =? 0)%N then objectStore name (onupgradeneeded db)
         else objectStore name db.
Proof.
  unfold openDB, DB_VERSION.
  destruct (open_fails eng); [discriminate|].
  destruct (1 <? version db)%N eqn:E1; [discriminate|].
  apply N.ltb_ge in E1.
  destruct (version db <? 1)%N eqn:E2; intros [= <-].
  - apply N.ltb_lt in E2. assert (E : version db = 0%N) by lia.
    rewrite E. split; [lia|]. split; [reflexivity|]. intros; reflexivity.
  - apply N.ltb_ge in E2. assert (E : version db = 1%N) by lia.
    rewrite E. split; [lia|]. split; [reflexivity|]. intros; reflexivity.
Qed.

Lemma openDB_failure (eng : Engine) (db db1 : IDBDatabase) (e : error) :
  openDB eng db = (inr e, db1) -> db1 = db.
Proof.
  unfold openDB.
  destruct (open_fails eng); [congruence|].
  destruct (DB_VERSION <? version db)%N; [congruence|].
  destruct (version db <? DB_VERSION)%N; discriminate.
Qed.

(** Opening never changes what a collection holds. *)
Lemma openDB_collection (name : string) (eng : Engine) (db : IDBDatabase) :
  collection name (snd (openDB eng db)) = collection name db.
Proof.
  destruct (openDB eng db) as [[[]|e] db1] eqn:E; cbn [snd].
  - apply openDB_success in E as (_ & _ & H). unfold collection. rewrite H.
    destruct (version db =? 0)%N; [|reflexivity].
    rewrite objectStore_onupgradeneeded.
    destruct (objectStore name db); [reflexivity|].
    destruct (String.eqb STORE_ENTRIES name); [reflexivity|].
    now destruct (String.eqb STORE_SETTINGS name).
  - now rewrite (openDB_failure _ _ _ _ E).
Qed.

(** ** The invariant of the database *)

Lemma store_ok_empty (path : string) : store_ok (empty_store path).
Proof. split; constructor. Qed.

Lemma db_ok_no_database : db_ok no_database.
Proof.
  split; [cbn; lia|]. repeat split; discriminate.
Qed.

(** On a database in a reachable state, an open that the engine does
    not fail succeeds, and hands over both stores. *)
Lemma openDB_ok (eng : Engine) (db : IDBDatabase) :
  db_ok db -> open_fails eng = false ->
  exists db1 se ss,
    openDB eng db = (inl tt, db1) /\ db_ok db1
    /\ objectStore STORE_ENTRIES db1 = Some se
    /\ keyPath se = "id" /\ store_ok se
    /\ records se = collection STORE_ENTRIES db
    /\ objectStore STORE_SETTINGS db1 = Some ss
    /\ keyPath ss = "key" /\ store_ok ss
    /\ records ss = collection STORE_SETTINGS db.
Proof.
  intros (Hv & Hs & He & Hk) Hopen.
  destruct (openDB eng db) as [[[]|e] db1] eqn:E.
  2:{ exfalso. revert E. unfold openDB, DB_VERSION. rewrite Hopen.
      destruct (1 <? version db)%N eqn:E1; [apply N.ltb_lt in E1; lia|].
      destruct (version db <? 1)%N; discriminate. }
  pose proof (openDB_collection STORE_ENTRIES eng db) as Ce.
  pose proof (openDB_collection STORE_SETTINGS eng db) as Cs.
  rewrite E in Ce, Cs. cbn [snd] in Ce, Cs.
  apply openDB_success in E as (_ & Hv1 & Hst).
  assert (Hse : exists se, objectStore STORE_ENTRIES db1 = Some se
                           /\ keyPath se = "id" /\ store_ok se).
  { rewrite Hst. destruct (version db =? 0)%N eqn:E0.
    - rewrite objectStore_onupgradeneeded.
      destruct (objectStore STORE_ENTRIES db) as [se|] eqn:E.
      + exists se. split; [reflexivity | now apply He].
      + exists (empty_store "id"). repeat split; constructor.
    - apply N.eqb_neq in E0. assert (Ev : version db = 1%N) by lia.
      destruct (Hs Ev) as [Hc _]. unfold contains in Hc.
      destruct (objectStore STORE_ENTRIES db) as [se|] eqn:E; [|discriminate].
      exists se. split; [reflexivity | now apply He]. }
  assert (Hss : exists ss, objectStore STORE_SETTINGS db1 = Some ss
                           /\ keyPath ss = "key" /\ store_ok ss).
  { rewrite Hst. destruct (version db =? 0)%N eqn:E0.
    - rewrite objectStore_onupgradeneeded.
      destruct (objectStore STORE_SETTINGS db) as [ss|] eqn:E.
      + exists ss. split; [reflexivity | now apply Hk].
      + exists (empty_store "key"). repeat split; constructor.
    - apply N.eqb_neq in E0. assert (Ev : version db = 1%N) by lia.
      destruct (Hs Ev) as [_ Hc]. unfold contains in Hc.
      destruct (objectStore STORE_SETTINGS db) as [ss|] eqn:E; [|discriminate].
      exists ss. split; [reflexivity | now apply Hk]. }
  destruct Hse as (se & Ese & Hpe & Hoe), Hss as (ss & Ess & Hps & Hos).
  exists db1, se, ss. split; [reflexivity|]. split.
  { split; [lia|]. split; [|split].
    - intros _. unfold contains. now rewrite Ese, Ess.
    - intros s Hs'. rewrite Ese in Hs'. injection Hs' as <-. auto.
    - intros s Hs'. rewrite Ess in Hs'. injection Hs' as <-. auto. }
  unfold collection in Ce, Cs. rewrite Ese in Ce. rewrite Ess in Cs.
  repeat split; auto; apply Hoe || apply Hos.
Qed.

(** Committing a store that satisfies the invariant keeps the invariant. *)
Lemma db_ok_commit (name : string) (s s0 : ObjectStore) (db : IDBDatabase) :
  db_ok db -> objectStore name db = Some s0 ->
  keyPath s = keyPath s0 -> store_ok s ->
  db_ok (commit name s db).
Proof.
  intros (Hv & Hs & He & Hk) H0 Hp Hok.
  split; [exact Hv|]. split; [|split].
  - intros Ev. destruct (Hs Ev) as [Hc1 Hc2]. unfold contains in *.
    rewrite !objectStore_commit.
    destruct (String.eqb name STORE_ENTRIES), (String.eqb name STORE_SETTINGS);
      destruct (objectStore STORE_ENTRIES db), (objectStore STORE_SETTINGS db);
      try discriminate; auto.
  - intros s1. rewrite objectStore_commit.
    destruct (String.eqb_spec name STORE_ENTRIES) as [->|]; [|apply He].
    rewrite H0. intros [= <-]. rewrite Hp. split; [apply (He s0 H0) | exact Hok].
  - intros s1. rewrite objectStore_commit.
    destruct (String.eqb_spec name STORE_SETTINGS) as [->|]; [|apply Hk].
    rewrite H0. intros [= <-]. rewrite Hp. split; [apply (Hk s0 H0) | exact Hok].
Qed.

Lemma store_ok_put (v : json) (s : ObjectStore) :
  store_ok s -> well_formed v = true -> store_ok (store_put v s).
Proof.
  intros [Hall Hnd] Hwf. unfold store_put.
  destruct (key_of (keyPath s) v) as [k|] eqn:Ek; [|now split].
  split; cbn [keyPath records].
  - rewrite Forall_forall in *. intros w Hw.
    apply In_upsert in Hw as [-> | Hw]; [|now apply Hall].
    split; [now exists k | exact Hwf].
  - now apply NoDup_keys_upsert.
Qed.

Lemma keyPath_store_put (v : json) (s : ObjectStore) :
  keyPath (store_put v s) = keyPath s.
Proof. unfold store_put. now destruct (key_of (keyPath s) v). Qed.

Lemma works_healthy : works healthy.
Proof. repeat split. Qed.

Lemma some_request_fails_works (eng : Engine) (n : nat) :
  (forall i, request_fails eng i = false) -> some_request_fails eng n = false.
Proof.
  intros H. unfold some_request_fails.
  induction (seq 0 n) as [|i l IH]; cbn; [reflexivity|]. now rewrite H, IH.
Qed.

(** ** [saveEntry] *)

Lemma forallb_well_formed_strings (l : list string) :
  forallb well_formed (map JStr l) = true.
Proof. induction l; cbn; auto. Qed.

Lemma well_formed_entry (e : Entry) : well_formed (entry_to_json e) = true.
Proof.
  destruct e as [i t c d u m tg cat fav prv img [a|] [dr|] [lo|]];
    cbn; rewrite !forallb_well_formed_strings; reflexivity.
Qed.

Lemma key_of_entry (e : Entry) : key_of "id" (entry_to_json e) = Some (KStr (id e)).
Proof. reflexivity. Qed.

Lemma date_of_entry (e : Entry) : date_of (entry_to_json e) = Some (date e).
Proof. reflexivity. Qed.

Lemma openDB_open_fails (eng : Engine) (db : IDBDatabase) :
  open_fails eng = true -> openDB eng db = (inr StorageError, db).
Proof. intros H. unfold openDB. now rewrite H. Qed.

(** Every [saveEntry], whatever the engine does, keeps the invariant. *)
Lemma saveEntry_ok (e : Entry) (eng : Engine) (db : IDBDatabase) :
  db_ok db -> db_ok (snd (saveEntry e eng db)).
Proof.
  intros Hok. unfold saveEntry, put_one.
  destruct (open_fails eng) eqn:Hopen.
  { now rewrite openDB_open_fails. }
  destruct (openDB_ok eng db Hok Hopen)
    as (db1 & se & ss & E & Hok1 & Ese & Hp & Hse & _).
  rewrite E, Ese, Hp, key_of_entry.
  destruct (request_fails eng 0); [exact Hok1|]. cbn [snd].
  destruct (run_transaction eng [entry_to_json e] se) as [s'|] eqn:Er;
    [|exact Hok1].
  unfold run_transaction in Er.
  destruct (_ || _); [discriminate|]. injection Er as <-. cbn [fold_left].
  apply (db_ok_commit _ _ se); auto.
  - apply keyPath_store_put.
  - apply store_ok_put; [exact Hse | apply well_formed_entry].
Qed.

(** A [saveEntry] on which nothing fails is an upsert by [id]. *)
Lemma saveEntry_works (e : Entry) (eng : Engine) (db : IDBDatabase) :
  db_ok db -> works eng ->
  fst (saveEntry e eng db) = Resolved tt
  /\ collection STORE_ENTRIES (snd (saveEntry e eng db))
     = upsert "id" (KStr (id e)) (entry_to_json e) (collection STORE_ENTRIES db).
Proof.
  intros Hok (Hopen & Hreq & Hcommit). unfold saveEntry, put_one.
  destruct (openDB_ok eng db Hok Hopen)
    as (db1 & se & ss & E & Hok1 & Ese & Hp & Hse & Hrec & _).
  rewrite E, Ese, Hp, key_of_entry, Hreq. unfold run_transaction.
  rewrite some_request_fails_works, Hcommit by exact Hreq.
  cbn [orb fold_left fst snd]. split; [reflexivity|].
  rewrite (collection_commit_same _ _ se) by exact Ese.
  unfold store_put. rewrite Hp, key_of_entry. cbn [records]. now rewrite Hrec.
Qed.

Lemma save_all_ok (calls : list (Engine * Entry)) (db : IDBDatabase) :
  db_ok db -> db_ok (save_all calls db).
Proof.
  revert db. induction calls as [|[eng e] calls IH]; intros db Hok; cbn;
    [exact Hok|].
  apply IH. now apply saveEntry_ok.
Qed.

Lemma db_ok_entries_unique (db : IDBDatabase) :
  db_ok db -> NoDup (map (key_of "id") (collection STORE_ENTRIES db)).
Proof.
  intros (_ & _ & He & _). unfold collection.
  destruct (objectStore STORE_ENTRIES db) as [se|]; [|constructor].
  destruct (He se eq_refl) as (Hp & _ & Hnd). now rewrite Hp in Hnd.
Qed.

(** C6.  After any sequence of [saveEntry] calls no two records of the
    collection have the same [id]; and a [saveEntry] on which nothing
    fails, for an [id] that was saved before with another content,
    leaves exactly one record under that [id]: the second content. *)
Theorem C6_saveEntry_upsert_by_id (db : IDBDatabase) :
  db_ok db ->
  (forall calls,
      NoDup (map (key_of "id") (collection STORE_ENTRIES (save_all calls db))))
  /\ (forall e1 e2 eng1 eng2,
         id e1 = id e2 -> works eng2 ->
         let db1 := snd (saveEntry e1 eng1 db) in
         let db2 := snd (saveEntry e2 eng2 db1) in
         filter (has_key "id" (KStr (id e2))) (collection STORE_ENTRIES db2)
         = [entry_to_json e2]).
Proof.
  intros Hok. split.
  - intros calls. apply db_ok_entries_unique. now apply save_all_ok.
  - intros e1 e2 eng1 eng2 _ Hworks. cbv zeta.
    assert (Hok1 : db_ok (snd (saveEntry e1 eng1 db))) by now apply saveEntry_ok.
    destruct (saveEntry_works e2 eng2 _ Hok1 Hworks) as [_ ->].
    apply filter_upsert; [apply key_of_entry | now apply db_ok_entries_unique].
Qed.

Lemma C6_saveEntry_upsert_by_id_witness :
  NoDup (map (key_of "id")
           (collection STORE_ENTRIES
              (save_all [(healthy, entry_at "a" 100 "Day 1" false);
                         (healthy, entry_at "a" 100 "Day 1, edited" true)]
                        no_database)))
  /\ filter (has_key "id" (KStr "a"))
       (collection STORE_ENTRIES
          (snd (saveEntry (entry_at "a" 100 "Day 1, edited" true) healthy
                  (snd (saveEntry (entry_at "a" 100 "Day 1" false) healthy
                          no_database)))))
     = [entry_to_json (entry_at "a" 100 "Day 1, edited" true)].
Proof.
  destruct (C6_saveEntry_upsert_by_id no_database db_ok_no_database)
    as [Hunique Hsecond].
  split.
  - apply Hunique.
  - apply (Hsecond (entry_at "a" 100 "Day 1" false)
                   (entry_at "a" 100 "Day 1, edited" true) healthy healthy);
      [reflexivity | exact works_healthy].
Defined.

(** ** The sample database *)

Lemma db_ok_sample : db_ok sample_db.
Proof. apply save_all_ok, db_ok_no_database. Qed.

Lemma dated_sample : Forall dated (collection STORE_ENTRIES sample_db).
Proof. repeat constructor; eexists; reflexivity. Qed.

Example saveEntry_scenario :
  let db1 := snd (saveEntry (entry_at "a" 100 "Day 1" false) healthy no_database) in
  let db2 := snd (saveEntry (entry_at "b" 200 "Day 2" false) healthy db1) in
  match fst (getAllEntries healthy db2) with
  | Resolved l => map (fun v => get_prop v "id") l = [Some (JStr "b"); Some (JStr "a")]
  | _ => False
  end.
Proof. reflexivity. Qed.

(** ** [getSettings] *)

(** What [getSettings] does once the database is open. *)
Lemma getSettings_open (eng : Engine) (db : IDBDatabase) :
  db_ok db -> open_fails eng = false ->
  exists db1 ss,
    (keyPath ss = "key" /\ records ss = collection STORE_SETTINGS db)
    /\ collection STORE_SETTINGS db1 = collection STORE_SETTINGS db
    /\ getSettings eng db
       = (Resolved
            (if request_fails eng 0 then JObj []
             else match store_get (KStr "appSettings") ss with
                  | Some r =>
                      match get_prop r "value" with
                      | Some v => if truthy (Some v) then v else defaultSettings
                      | None => defaultSettings
                      end
                  | None => defaultSettings
                  end), db1).
Proof.
  intros Hok Hopen.
  destruct (openDB_ok eng db Hok Hopen)
    as (db1 & se & ss & E & _ & _ & _ & _ & _ & Ess & Hp & _ & Hrec).
  exists db1, ss. split; [now split|]. split.
  { unfold collection at 1. now rewrite Ess. }
  unfold getSettings. rewrite E, Ess.
  destruct (request_fails eng 0); [reflexivity|].
  destruct (store_get (KStr "appSettings") ss) as [r|]; [|reflexivity].
  destruct (get_prop r "value"); reflexivity.
Qed.

(** [getSettings] never writes. *)
Lemma getSettings_reads_only (name : string) (eng : Engine) (db : IDBDatabase) :
  collection name (snd (getSettings eng db)) = collection name db.
Proof.
  unfold getSettings.
  pose proof (openDB_collection name eng db) as H.
  destruct (openDB eng db) as [[[]|e] db1]; cbn [snd] in *; [|exact H].
  destruct (objectStore STORE_SETTINGS db1); [|exact H].
  destruct (request_fails eng 0); exact H.
Qed.

(** With a failing read, [getSettings] never resolves with the default. *)
Lemma getSettings_read_error_not_default (eng : Engine) (db : IDBDatabase) :
  request_fails eng 0 = true ->
  fst (getSettings eng db) <> Resolved defaultSettings.
Proof.
  intros Hfail. unfold getSettings.
  destruct (openDB eng db) as [[[]|e] db1]; cbn [fst]; [|discriminate].
  destruct (objectStore STORE_SETTINGS db1); [|discriminate].
  rewrite Hfail. cbn [fst]. discriminate.
Qed.

(** C1.  When the read of the settings record fails at the engine,
    [getSettings] does not resolve with the fixed default record: it
    resolves with the empty object, which is not the default and has
    none of its fields. *)
Theorem C1_getSettings_read_error (eng : Engine) (db : IDBDatabase) :
  db_ok db -> open_fails eng = false -> request_fails eng 0 = true ->
  fst (getSettings eng db) = Resolved (JObj [])
  /\ JObj [] <> defaultSettings
  /\ get_prop (JObj []) "theme" = None.
Proof.
  intros Hok Hopen Hfail.
  destruct (getSettings_open eng db Hok Hopen) as (db1 & ss & _ & _ & ->).
  rewrite Hfail. repeat split. discriminate.
Qed.

Lemma C1_getSettings_read_error_witness :
  fst (getSettings read_error no_database) = Resolved (JObj [])
  /\ JObj [] <> defaultSettings
  /\ get_prop (JObj []) "theme" = None.
Proof.
  apply (C1_getSettings_read_error read_error no_database);
    [exact db_ok_no_database | reflexivity | reflexivity].
Defined.

(** C8.  On a database with no settings record, a [getSettings] whose
    open and read succeed resolves with exactly the fixed default record,
    and the settings collection is still empty afterwards. *)
Theorem C8_getSettings_default_not_written (eng : Engine) (db : IDBDatabase) :
  db_ok db -> collection STORE_SETTINGS db = [] ->
  open_fails eng = false -> request_fails eng 0 = false ->
  fst (getSettings eng db) = Resolved defaultSettings
  /\ defaultSettings
     = settings_to_json
         {| theme := light; securityEnabled := false; pin := None;
            biometricsEnabled := false; dailyReminder := false;
            reminderTime := "20:00"; viewMode := list_view |}
  /\ collection STORE_SETTINGS (snd (getSettings eng db)) = [].
Proof.
  intros Hok Hempty Hopen Hread.
  destruct (getSettings_open eng db Hok Hopen)
    as (db1 & ss & (_ & Hrec) & Hcol & E).
  rewrite E, Hread. cbn [fst snd]. rewrite Hcol, Hempty.
  unfold store_get. rewrite Hrec, Hempty. cbn [find]. repeat split.
Qed.

Lemma C8_getSettings_default_not_written_witness :
  fst (getSettings healthy no_database) = Resolved defaultSettings
  /\ defaultSettings
     = settings_to_json
         {| theme := light; securityEnabled := false; pin := None;
            biometricsEnabled := false; dailyReminder := false;
            reminderTime := "20:00"; viewMode := list_view |}
  /\ collection STORE_SETTINGS (snd (getSettings healthy no_database)) = [].
Proof.
  apply (C8_getSettings_default_not_written healthy no_database);
    [exact db_ok_no_database | reflexivity | reflexivity | reflexivity].
Defined.




(** ** [getAllEntries] *)

Lemma getAllEntries_open (eng : Engine) (db : IDBDatabase) :
  db_ok db -> open_fails eng = false -> request_fails eng 0 = false ->
  exists db1 se,
    keyPath se = "id" /\ records se = collection STORE_ENTRIES db
    /\ getAllEntries eng db
       = (Resolved (sort by_date_descending (store_getAll se)), db1).
Proof.
  intros Hok Hopen Hread.
  destruct (openDB_ok eng db Hok Hopen)
    as (db1 & se & ss & E & _ & Ese & Hp & _ & Hrec & _).
  exists db1, se. repeat split; auto.
  unfold getAllEntries. now rewrite E, Ese, Hread.
Qed.

(** C7, as stated, fails: not every stored collection comes back
    sorted.  [importData] stores a record without [date]; the comparator
    gives NaN against it, which [sort] reads as equal, and the entry of
    date 100 stays before the entry of date 300. *)
Lemma C7_counterexample :
  let text := dq "[{'id':'a','date':100},{'id':'b'},{'id':'c','date':300}]" in
  let db := snd (importData text healthy no_database) in
  fst (importData text healthy no_database) = Resolved tt
  /\ fst (getAllEntries healthy db)
     = Resolved [JObj [("id", JStr "a"); ("date", JNum 100)];
                 JObj [("id", JStr "b")];
                 JObj [("id", JStr "c"); ("date", JNum 300)]]
  /\ ~ (exists l, fst (getAllEntries healthy db) = Resolved l
                  /\ StronglySorted not_older l).
Proof.
  vm_compute. split; [reflexivity|]. split; [reflexivity|].
  intros (l & [= <-] & Hs).
  inversion Hs as [|? ? _ Hall]; subst.
  inversion Hall as [|? ? (x & y & Hx & Hy & _) _]; subst.
  discriminate Hy.
Qed.

(** C7, amended.  When every stored record has a number as its [date]
    and the open and the read succeed, [getAllEntries] resolves with
    the stored entries, each exactly once, sorted by [date] with the
    most recent first; an empty collection gives the empty list. *)
Theorem C7_getAllEntries_sorted_by_date_descending
    (eng : Engine) (db : IDBDatabase) :
  db_ok db -> Forall dated (collection STORE_ENTRIES db) ->
  open_fails eng = false -> request_fails eng 0 = false ->
  exists l,
    fst (getAllEntries eng db) = Resolved l
    /\ StronglySorted not_older l
    /\ Permutation l (collection STORE_ENTRIES db)
    /\ (collection STORE_ENTRIES db = [] -> l = []).
Proof.
  intros Hok Hdated Hopen Hread.
  destruct (getAllEntries_open eng db Hok Hopen Hread)
    as (db1 & se & _ & Hrec & E).
  assert (Hperm : Permutation (sort by_date_descending (store_getAll se))
                              (collection STORE_ENTRIES db)).
  { rewrite sort_perm, store_getAll_perm. now rewrite Hrec. }
  eexists. rewrite E. split; [reflexivity|]. split; [|split].
  - apply sort_sorted. eapply Permutation_Forall; [|exact Hdated].
    rewrite store_getAll_perm. now rewrite Hrec.
  - exact Hperm.
  - intros Hempty. rewrite Hempty in Hperm.
    now apply Permutation_nil, Permutation_sym.
Qed.

Lemma C7_getAllEntries_sorted_by_date_descending_witness :
  exists l,
    fst (getAllEntries healthy sample_db) = Resolved l
    /\ StronglySorted not_older l
    /\ Permutation l (collection STORE_ENTRIES sample_db)
    /\ (collection STORE_ENTRIES sample_db = [] -> l = []).
Proof.
  apply (C7_getAllEntries_sorted_by_date_descending healthy sample_db);
    [exact db_ok_sample | exact dated_sample | reflexivity | reflexivity].
Defined.

Example getAllEntries_100_300_200 :
  match fst (getAllEntries healthy sample_db) with
  | Resolved l => map date_of l = [Some 300; Some 200; Some 100]%Z
  | _ => False
  end.
Proof. reflexivity. Qed.

(** ** [importData] *)

Lemma fold_store_put (items : list json) (s : ObjectStore) :
  fold_left (fun st v => store_put v st) items s
  = {| keyPath := keyPath s;
       records := fold_left (put_record (keyPath s)) items (records s) |}.
Proof.
  revert s. induction items as [|x items IH]; intros s; cbn [fold_left].
  - now destruct s.
  - rewrite IH, keyPath_store_put. f_equal. f_equal.
    unfold store_put, put_record. now destruct (key_of (keyPath s) x).
Qed.

Lemma put_each_keyed (path : string) (items : list json) :
  Forall (keyed path) items -> put_each path items = (items, false).
Proof.
  induction 1 as [|x items [k Hk] _ IH]; cbn; [reflexivity|].
  now rewrite Hk, IH.
Qed.

Lemma put_each_not_thrown (path : string) (items placed : list json) :
  put_each path items = (placed, false) ->
  placed = items /\ Forall (keyed path) items.
Proof.
  revert placed. induction items as [|x items IH]; intros placed; cbn.
  - intros [= <-]. split; constructor.
  - destruct (key_of path x) as [k|] eqn:Ek; [|discriminate].
    destruct (put_each path items) as [p t]. intros [= <- ->].
    destruct (IH p eq_refl) as [-> H]. split; [reflexivity|].
    constructor; [now exists k | exact H].
Qed.

Lemma put_each_unkeyed (path : string) (items : list json) :
  Exists (fun v => key_of path v = None) items ->
  snd (put_each path items) = true.
Proof.
  induction 1 as [x items Hx | x items _ IH]; cbn.
  - now rewrite Hx.
  - destruct (key_of path x); [|reflexivity].
    now destruct (put_each path items).
Qed.

Lemma find_app_first {A : Type} (p : A -> bool) (l1 l2 : list A) :
  find p (l1 ++ l2)
  = match find p l1 with Some x => Some x | None => find p l2 end.
Proof.
  induction l1 as [|x l1 IH]; cbn; [reflexivity|]. now destruct (p x).
Qed.

(** After the requests of a sequence have run, the record under a key
    is the last record of the sequence with that key, and the record
    that was there when the sequence has none. *)
Lemma find_fold_put (path : string) (k : key) (items l : list json) :
  Forall (keyed path) items ->
  find (has_key path k) (fold_left (put_record path) items l)
  = match find (has_key path k) (rev items) with
    | Some v => Some v
    | None => find (has_key path k) l
    end.
Proof.
  intros H. revert l. induction H as [|x items [kx Hx] _ IH]; intros l;
    cbn [fold_left rev find]; [reflexivity|].
  rewrite IH, find_app_first. destruct (find (has_key path k) (rev items));
    [reflexivity|]. cbn [find]. unfold put_record. rewrite Hx.
  destruct (has_key path k x) eqn:E.
  - apply has_key_iff in E. assert (kx = k) by congruence. subst kx.
    now apply find_upsert_same.
  - apply find_upsert_other; [exact Hx|]. intros ->.
    apply has_key_iff in Hx. congruence.
Qed.


Lemma store_ok_fold_put (items : list json) (s : ObjectStore) :
  store_ok s -> Forall (fun v => well_formed v = true) items ->
  store_ok (fold_left (fun st v => store_put v st) items s).
Proof.
  intros Hs H. revert s Hs. induction H as [|x items Hx _ IH]; intros s Hs;
    cbn [fold_left]; [exact Hs|].
  apply IH. now apply store_ok_put.
Qed.

(** [importData] on a decoded array whose records all have a key,
    whatever the engine does after the open. *)
Lemma importData_keyed (text : string) (items : list json)
    (eng : Engine) (db : IDBDatabase) :
  db_ok db -> JSON.parse text = JSON.Parsed (JArr items) ->
  Forall (keyed "id") items -> open_fails eng = false ->
  exists db1 se,
    db_ok db1 /\ objectStore STORE_ENTRIES db1 = Some se
    /\ keyPath se = "id" /\ store_ok se
    /\ records se = collection STORE_ENTRIES db
    /\ importData text eng db
       = if some_request_fails eng (List.length items)
         then (Rejected StorageError, db1)
         else if commit_fails eng then (Pending, db1)
         else (Resolved tt,
               commit STORE_ENTRIES
                 (fold_left (fun st v => store_put v st) items se) db1).
Proof.
  intros Hok Hparse Hkeyed Hopen.
  destruct (openDB_ok eng db Hok Hopen)
    as (db1 & se & ss & E & Hok1 & Ese & Hp & Hse & Hrec & _).
  exists db1, se. do 5 (split; [assumption|]).
  unfold importData. rewrite Hparse, E, Ese. cbn [iterate].
  rewrite Hp, (put_each_keyed _ _ Hkeyed). unfold run_transaction.
  destruct (some_request_fails eng (List.length items)); [reflexivity|].
  now destruct (commit_fails eng).
Qed.

Lemma is_strings_map (l : list string) :
  forallb (fun x => is_string (Some x)) (map JStr l) = true.
Proof. induction l; cbn; auto. Qed.

Lemma is_entry_entry (e : Entry) : is_entry (entry_to_json e) = true.
Proof.
  destruct e as [i t c d u m tg cat fav prv img [a|] [dr|] [lo|]];
    unfold is_entry, entry_to_json; cbn -[forallb map];
    rewrite !is_strings_map; reflexivity.
Qed.

(** C2, as stated, fails: a text that decodes to an array of records
    that are not entry-shaped is imported without any error. *)
Lemma C2_counterexample :
  let text := dq "[{'id':'a'}]" in
  decodes_to_entries text = false
  /\ importData text healthy no_database
     = (Resolved tt,
        {| version := 1;
           objectStores :=
             [(STORE_ENTRIES,
               {| keyPath := "id"; records := [JObj [("id", JStr "a")]] |});
              (STORE_SETTINGS, {| keyPath := "key"; records := [] |})] |})
  /\ collection STORE_ENTRIES (snd (importData text healthy no_database))
     <> collection STORE_ENTRIES no_database.
Proof. vm_compute. repeat split. discriminate. Qed.

(** C2, amended.  A text on which [JSON.parse] throws a SyntaxError,
    or that decodes to a value that cannot be iterated (null, a
    boolean, a number, an object), makes [importData] fail with
    [InvalidFormat] and leaves the entry collection as it was.  A text
    that is JSON outside the fragment ([JSON.Unsupported]: a number with
    a fraction or an exponent, an escape above 00ff) is not such a text:
    the code may import it. *)
Theorem C2_import_rejects_malformed_text
    (text : string) (eng : Engine) (db : IDBDatabase) :
  JSON.parse text = JSON.SyntaxError
  \/ (exists v, JSON.parse text = JSON.Parsed v /\ iterate v = None) ->
  fst (importData text eng db) = Rejected InvalidFormat
  /\ collection STORE_ENTRIES (snd (importData text eng db))
     = collection STORE_ENTRIES db.
Proof.
  intros [Hparse | (v & Hparse & Hiter)]; unfold importData; rewrite Hparse.
  - split; reflexivity.
  - pose proof (openDB_collection STORE_ENTRIES eng db) as H.
    destruct (openDB eng db) as [[[]|e] db1]; cbn [snd] in H; [|now split].
    destruct (objectStore STORE_ENTRIES db1); [|now split].
    rewrite Hiter. now split.
Qed.

Lemma C2_import_rejects_malformed_text_witness :
  (fst (importData "not json" healthy sample_db) = Rejected InvalidFormat
   /\ collection STORE_ENTRIES (snd (importData "not json" healthy sample_db))
      = collection STORE_ENTRIES sample_db)
  /\ (fst (importData "{}" healthy sample_db) = Rejected InvalidFormat
      /\ collection STORE_ENTRIES (snd (importData "{}" healthy sample_db))
         = collection STORE_ENTRIES sample_db).
Proof.
  split.
  - apply (C2_import_rejects_malformed_text "not json" healthy sample_db).
    left. reflexivity.
  - apply (C2_import_rejects_malformed_text "{}" healthy sample_db).
    right. exists (JObj []). split; reflexivity.
Defined.

(** C3, as stated, fails: a record with every required field except
    [date] is imported without any error. *)
Lemma C3_counterexample :
  let record :=
    JObj [("id", JStr "a"); ("title", JStr "t"); ("content", JStr "c");
          ("updatedAt", JNum 1); ("mood", JStr "m"); ("tags", JArr []);
          ("category", JStr "Pessoal"); ("isFavorite", JBool false);
          ("isPrivate", JBool false); ("images", JArr [])] in
  let text := JSON.stringify (JArr [record]) in
  JSON.parse text = JSON.Parsed (JArr [record])
  /\ get_prop record "date" = None
  /\ fst (importData text healthy no_database) = Resolved tt
  /\ collection STORE_ENTRIES (snd (importData text healthy no_database))
     = [record].
Proof. vm_compute. repeat split. Qed.

(** C3, amended.  A decoded sequence with a record that has no [id]
    makes [importData] fail with [InvalidFormat].  A sequence whose
    records all have a string [id] is imported when nothing fails at
    the engine, whatever other field a record lacks ([date], [audio],
    [drawing], [location]): every record is put. *)
Theorem C3_import_requires_only_id
    (text : string) (items : list json) (eng : Engine) (db : IDBDatabase) :
  db_ok db -> JSON.parse text = JSON.Parsed (JArr items) ->
  (Exists (fun v => get_prop v "id" = None) items ->
   fst (importData text eng db) = Rejected InvalidFormat)
  /\ (Forall (fun v => exists s, get_prop v "id" = Some (JStr s)) items ->
      works eng ->
      fst (importData text eng db) = Resolved tt
      /\ collection STORE_ENTRIES (snd (importData text eng db))
         = fold_left (put_record "id") items (collection STORE_ENTRIES db)).
Proof.
  intros Hok Hparse. split.
  - intros Hmissing. unfold importData. rewrite Hparse.
    destruct (open_fails eng) eqn:Hopen; [now rewrite openDB_open_fails|].
    destruct (openDB_ok eng db Hok Hopen)
      as (db1 & se & ss & E & _ & Ese & Hp & _).
    rewrite E, Ese, Hp. cbn [iterate].
    assert (Hthrown : snd (put_each "id" items) = true).
    { apply put_each_unkeyed. eapply Exists_impl; [|exact Hmissing].
      intros v Hv. unfold key_of. now rewrite Hv. }
    destruct (put_each "id" items) as [placed thrown]. cbn [snd] in Hthrown.
    now rewrite Hthrown.
  - intros Hids (Hopen & Hreq & Hcommit).
    assert (Hkeyed : Forall (keyed "id") items).
    { eapply Forall_impl; [|exact Hids]. intros v [s Hs].
      exists (KStr s). unfold key_of. now rewrite Hs. }
    destruct (importData_keyed text items eng db Hok Hparse Hkeyed Hopen)
      as (db1 & se & _ & Ese & Hp & _ & Hrec & ->).
    rewrite some_request_fails_works, Hcommit by exact Hreq. cbn [fst snd].
    split; [reflexivity|].
    rewrite (collection_commit_same _ _ se) by exact Ese.
    rewrite fold_store_put. cbn [records]. now rewrite Hp, Hrec.
Qed.

Lemma C3_import_requires_only_id_witness :
  fst (importData (dq "[{'id':'z','date':1},{'date':2}]") healthy sample_db)
  = Rejected InvalidFormat
  /\ (fst (importData (dq "[{'id':'z'}]") healthy sample_db) = Resolved tt
      /\ collection STORE_ENTRIES
           (snd (importData (dq "[{'id':'z'}]") healthy sample_db))
         = fold_left (put_record "id") [JObj [("id", JStr "z")]]
             (collection STORE_ENTRIES sample_db)).
Proof.
  split.
  - apply (C3_import_requires_only_id
             (dq "[{'id':'z','date':1},{'date':2}]")
             [JObj [("id", JStr "z"); ("date", JNum 1)]; JObj [("date", JNum 2)]]
             healthy sample_db db_ok_sample); [reflexivity|].
    right. left. reflexivity.
  - apply (C3_import_requires_only_id
             (dq "[{'id':'z'}]") [JObj [("id", JStr "z")]]
             healthy sample_db db_ok_sample); [reflexivity | | exact works_healthy].
    repeat constructor. eexists. reflexivity.
Defined.

(** A record without a key after one with a key: [InvalidFormat] is
    reported, and the first record is committed all the same. *)
Example importData_partial :
  importData (dq "[{'id':'z','date':1},{'date':2}]") healthy no_database
  = (Rejected InvalidFormat,
     {| version := 1;
        objectStores :=
          [(STORE_ENTRIES,
            {| keyPath := "id";
               records := [JObj [("id", JStr "z"); ("date", JNum 1)]] |});
           (STORE_SETTINGS, {| keyPath := "key"; records := [] |})] |}).
Proof. vm_compute. reflexivity. Qed.

(** What holds of the single transaction: a decoded sequence of
    records that all have a key is applied as a whole exactly when
    nothing fails in the engine, and otherwise the promise does not
    resolve and the collection is what it was. *)
Lemma importData_keyed_all_or_nothing
    (text : string) (items : list json) (eng : Engine) (db : IDBDatabase) :
  db_ok db -> JSON.parse text = JSON.Parsed (JArr items) ->
  Forall (keyed "id") items ->
  (open_fails eng || some_request_fails eng (List.length items)
   || commit_fails eng = false ->
   fst (importData text eng db) = Resolved tt
   /\ collection STORE_ENTRIES (snd (importData text eng db))
      = fold_left (put_record "id") items (collection STORE_ENTRIES db))
  /\ (open_fails eng || some_request_fails eng (List.length items)
      || commit_fails eng = true ->
      fst (importData text eng db) <> Resolved tt
      /\ collection STORE_ENTRIES (snd (importData text eng db))
         = collection STORE_ENTRIES db).
Proof.
  intros Hok Hparse Hkeyed.
  destruct (open_fails eng) eqn:Hopen.
  { split; [discriminate|]. intros _. unfold importData.
    rewrite Hparse, openDB_open_fails by exact Hopen.
    split; [discriminate | reflexivity]. }
  destruct (importData_keyed text items eng db Hok Hparse Hkeyed Hopen)
    as (db1 & se & _ & Ese & Hp & _ & Hrec & ->).
  assert (Hsame : collection STORE_ENTRIES db1 = collection STORE_ENTRIES db).
  { unfold collection at 1. now rewrite Ese. }
  cbn [orb].
  destruct (some_request_fails eng (List.length items));
    [split; [discriminate | intros _; split; [discriminate | exact Hsame]]|].
  destruct (commit_fails eng);
    [split; [discriminate | intros _; split; [discriminate | exact Hsame]]|].
  split; [intros _ | discriminate]. split; [reflexivity|]. cbn [snd].
  rewrite (collection_commit_same _ _ se) by exact Ese.
  rewrite fold_store_put. cbn [records]. now rewrite Hp, Hrec.
Qed.

Lemma parse_two_records :
  JSON.parse (JSON.stringify (JArr two_records)) = JSON.Parsed (JArr two_records).
Proof. vm_compute. reflexivity. Qed.

Lemma keyed_two_records : Forall (keyed "id") two_records.
Proof. repeat constructor; eexists; reflexivity. Qed.

Lemma put_each_stops (path : string) (good rest : list json) (bad : json) :
  Forall (keyed path) good -> key_of path bad = None ->
  put_each path (good ++ bad :: rest) = (good, true).
Proof.
  intros Hgood Hbad. induction Hgood as [|x good [k Hk] _ IH]; cbn.
  - now rewrite Hbad.
  - now rewrite Hk, IH.
Qed.

(** C4.  The import is not all or nothing.  When a decoded sequence has
    a record without a valid [id] after records that have one, [put]
    throws on that record, the [catch] reports [InvalidFormat] and
    aborts nothing, and the transaction commits the requests placed
    before: the records that precede the record without [id] are
    stored, the records that follow it are not, and the caller is told
    that the import failed. *)
Theorem C4_import_partial_commit
    (text : string) (good rest : list json) (bad : json)
    (eng : Engine) (db : IDBDatabase) :
  db_ok db -> works eng ->
  JSON.parse text = JSON.Parsed (JArr (good ++ bad :: rest)) ->
  Forall (keyed "id") good -> key_of "id" bad = None ->
  fst (importData text eng db) = Rejected InvalidFormat
  /\ collection STORE_ENTRIES (snd (importData text eng db))
     = fold_left (put_record "id") good (collection STORE_ENTRIES db)
  /\ forall k,
       entry_get k (snd (importData text eng db))
       = match find (has_key "id" k) (rev good) with
         | Some v => Some v
         | None => entry_get k db
         end.
Proof.
  intros Hok (Hopen & Hreq & Hcommit) Hparse Hgood Hbad.
  assert (E : fst (importData text eng db) = Rejected InvalidFormat
              /\ collection STORE_ENTRIES (snd (importData text eng db))
                 = fold_left (put_record "id") good
                     (collection STORE_ENTRIES db)).
  { unfold importData. rewrite Hparse.
    destruct (openDB_ok eng db Hok Hopen)
      as (db1 & se & ss & E & _ & Ese & Hp & _ & Hrec & _).
    rewrite E, Ese, Hp. cbn [iterate].
    rewrite (put_each_stops "id" good rest bad Hgood Hbad).
    unfold run_transaction.
    rewrite some_request_fails_works, Hcommit by exact Hreq.
    cbn [orb fst snd]. split; [reflexivity|].
    rewrite (collection_commit_same _ _ se) by exact Ese.
    rewrite fold_store_put. cbn [records]. now rewrite Hp, Hrec. }
  destruct E as [Hres Hcol]. split; [exact Hres|]. split; [exact Hcol|].
  intros k. unfold entry_get. rewrite Hcol. now apply find_fold_put.
Qed.

Lemma C4_import_partial_commit_witness :
  let text := dq "[{'id':'z','date':1},{'date':2},{'id':'y','date':3}]" in
  fst (importData text healthy sample_db) = Rejected InvalidFormat
  /\ entry_get (KStr "z") (snd (importData text healthy sample_db))
     = Some (JObj [("id", JStr "z"); ("date", JNum 1)])
  /\ entry_get (KStr "y") (snd (importData text healthy sample_db)) = None.
Proof.
  destruct (C4_import_partial_commit
              (dq "[{'id':'z','date':1},{'date':2},{'id':'y','date':3}]")
              [JObj [("id", JStr "z"); ("date", JNum 1)]]
              [JObj [("id", JStr "y"); ("date", JNum 3)]]
              (JObj [("date", JNum 2)]) healthy sample_db)
    as (Hres & _ & Hget).
  - exact db_ok_sample.
  - exact works_healthy.
  - vm_compute. reflexivity.
  - repeat constructor. now exists (KStr "z").
  - reflexivity.
  - split; [exact Hres|]. split.
    + exact (Hget (KStr "z")).
    + exact (Hget (KStr "y")).
Defined.

(** C9.  After a successful [importData] of a decoded sequence, the
    record under an [id] that occurs in the sequence is the (last)
    imported record with that [id], and the record under any other
    [id] is the one that was there; an [id] that had a record still has
    one: nothing is deleted. *)
Theorem C9_import_overwrites_and_keeps
    (text : string) (items : list json) (eng : Engine) (db db' : IDBDatabase) :
  db_ok db -> JSON.parse text = JSON.Parsed (JArr items) ->
  importData text eng db = (Resolved tt, db') ->
  forall k,
    entry_get k db'
    = match find (has_key "id" k) (rev items) with
      | Some v => Some v
      | None => entry_get k db
      end
    /\ match entry_get k db with
       | Some _ => exists v, entry_get k db' = Some v
       | None => True
       end.
Proof.
  intros Hok Hparse Himport k.
  assert (Hget : entry_get k db'
                 = match find (has_key "id" k) (rev items) with
                   | Some v => Some v
                   | None => entry_get k db
                   end).
  { destruct (open_fails eng) eqn:Hopen.
    { unfold importData in Himport.
      rewrite Hparse, openDB_open_fails in Himport by exact Hopen. discriminate. }
    assert (Hkeyed : Forall (keyed "id") items).
    { revert Himport. unfold importData. rewrite Hparse.
      destruct (openDB_ok eng db Hok Hopen)
        as (db1 & se & ss & E & _ & Ese & Hp & _).
      rewrite E, Ese, Hp. cbn [iterate].
      destruct (put_each "id" items) as [placed thrown] eqn:Ep.
      destruct thrown; [discriminate|]. intros _.
      now apply put_each_not_thrown in Ep. }
    destruct (importData_keyed text items eng db Hok Hparse Hkeyed Hopen)
      as (db1 & se & _ & Ese & Hp & _ & Hrec & E).
    rewrite E in Himport.
    destruct (some_request_fails eng (List.length items)); [discriminate|].
    destruct (commit_fails eng); [discriminate|].
    injection Himport as <-. unfold entry_get.
    rewrite (collection_commit_same _ _ se) by exact Ese.
    rewrite fold_store_put. cbn [records]. rewrite Hp, Hrec.
    now apply find_fold_put. }
  split; [exact Hget|].
  destruct (entry_get k db) as [old|] eqn:Eold; [|exact I].
  rewrite Hget. destruct (find (has_key "id" k) (rev items)); eexists; reflexivity.
Qed.

Lemma C9_import_overwrites_and_keeps_witness :
  entry_get (KStr "b")
    (snd (importData (JSON.stringify (JArr two_records)) healthy sample_db))
  = match find (has_key "id" (KStr "b")) (rev two_records) with
    | Some v => Some v
    | None => entry_get (KStr "b") sample_db
    end
  /\ match entry_get (KStr "b") sample_db with
     | Some _ =>
         exists v,
           entry_get (KStr "b")
             (snd (importData (JSON.stringify (JArr two_records)) healthy sample_db))
           = Some v
     | None => True
     end.
Proof.
  apply (C9_import_overwrites_and_keeps
           (JSON.stringify (JArr two_records)) two_records healthy sample_db);
    [exact db_ok_sample | exact parse_two_records | reflexivity].
Defined.



Example importData_not_json :
  importData "not json" healthy sample_db = (Rejected InvalidFormat, sample_db).
Proof. reflexivity. Qed.

Module ParsedValues.
Import JSON.

Lemma keys_set_prop (k : string) (v : json) (m : list (string * json)) :
  map fst (set_prop k v m)
  = if existsb (String.eqb k) (map fst m) then map fst m else map fst m ++ [k].
Proof.
  induction m as [|[k' w] m IH]; cbn; [reflexivity|].
  rewrite (String.eqb_sym k k'). destruct (String.eqb k' k); cbn; [reflexivity|].
  rewrite IH. now destruct (existsb (String.eqb k) (map fst m)).
Qed.

Lemma distinct_snoc (l : list string) (k : string) :
  distinct l = true -> existsb (String.eqb k) l = false ->
  distinct (l ++ [k]) = true.
Proof.
  induction l as [|a l IH]; cbn; [reflexivity|].
  intros Hd Hk. apply andb_true_iff in Hd as [Ha Hd].
  apply orb_false_iff in Hk as [Hka Hk].
  rewrite existsb_app, IH by assumption. cbn.
  apply negb_true_iff in Ha. rewrite Ha, String.eqb_sym, Hka. reflexivity.
Qed.

Lemma distinct_set_prop (k : string) (v : json) (m : list (string * json)) :
  distinct (map fst m) = true -> distinct (map fst (set_prop k v m)) = true.
Proof.
  intros H. rewrite keys_set_prop.
  destruct (existsb (String.eqb k) (map fst m)) eqn:E; [exact H|].
  now apply distinct_snoc.
Qed.

Lemma members_ok_set_prop (k : string) (v : json) (m : list (string * json)) :
  well_formed v = true -> members_ok m = true ->
  members_ok (set_prop k v m) = true.
Proof.
  intros Hv. unfold members_ok.
  induction m as [|[k' w] m IH]; cbn; [now rewrite Hv|].
  intros H. apply andb_true_iff in H as [Hw Hm].
  destruct (String.eqb k' k); cbn; [now rewrite Hv, Hm | now rewrite Hw, IH].
Qed.

Lemma well_formed_define_all (raw acc : list (string * json)) :
  members_ok raw = true ->
  distinct (map fst acc) = true -> members_ok acc = true ->
  well_formed (JObj (define_all raw acc)) = true.
Proof.
  revert acc. induction raw as [|[k v] raw IH]; intros acc Hraw Hd Hacc.
  - cbn [define_all well_formed]. fold (members_ok acc). now rewrite Hd, Hacc.
  - cbn [define_all]. unfold members_ok in Hraw. cbn [forallb] in Hraw.
    apply andb_true_iff in Hraw as [Hv Hraw].
    apply IH; [exact Hraw | now apply distinct_set_prop
               | now apply members_ok_set_prop].
Qed.

Lemma parse_number_is_number (s : string) (v : json) (r : string) :
  parse_number s = Parsed (v, r) -> exists z, v = JNum z.
Proof.
  unfold parse_number. destruct s as [|c s]; [discriminate|].
  destruct (Ascii.eqb c "-").
  - destruct (parse_nat s) as [[n r']| |]; try discriminate.
    intros [= <- _]. now eexists.
  - destruct (parse_nat (String c s)) as [[n r']| |]; try discriminate.
    intros [= <- _]. now eexists.
Qed.

Lemma expect_value (word : string) (w : json) (s : string) (v : json) (r : string) :
  expect word w s = Parsed (v, r) -> v = w.
Proof.
  unfold expect. destruct (strip_prefix word s); [|discriminate].
  now intros [= <- _].
Qed.

(** Whatever [parse_value] returns is a JavaScript value: the names of
    every object are pairwise different. *)
Lemma parsed_well_formed (fuel : nat) :
  (forall s v r, parse_value fuel s = Parsed (v, r) -> well_formed v = true)
  /\ (forall s vs r, parse_elements fuel s = Parsed (vs, r) ->
                     forallb well_formed vs = true)
  /\ (forall s kvs r, parse_members fuel s = Parsed (kvs, r) ->
                      members_ok kvs = true).
Proof.
  induction fuel as [|fuel (IHv & IHe & IHm)];
    [repeat split; intros; discriminate|].
  split; [|split].
  - intros s v r H. cbn [parse_value] in H.
    destruct (skip_ws s) as [|c rest]; [discriminate|].
    destruct (Ascii.eqb c "n"); [now rewrite (expect_value _ _ _ _ _ H)|].
    destruct (Ascii.eqb c "t"); [now rewrite (expect_value _ _ _ _ _ H)|].
    destruct (Ascii.eqb c "f"); [now rewrite (expect_value _ _ _ _ _ H)|].
    destruct (Ascii.eqb c dquote).
    { destruct (parse_chars rest) as [[str r']| |]; try discriminate.
      now injection H as <- _. }
    destruct (Ascii.eqb c "[").
    { destruct (skip_ws rest) as [|c' r']; [discriminate|].
      destruct (Ascii.eqb c' "]"); [now injection H as <- _|].
      destruct (parse_elements fuel rest) as [[items r'']| |] eqn:E; try discriminate.
      injection H as <- _. cbn [well_formed]. now apply (IHe _ _ _ E). }
    destruct (Ascii.eqb c "{").
    { destruct (skip_ws rest) as [|c' r']; [discriminate|].
      destruct (Ascii.eqb c' "}"); [now injection H as <- _|].
      destruct (parse_members fuel rest) as [[raw r'']| |] eqn:E; try discriminate.
      injection H as <- _.
      apply well_formed_define_all; [now apply (IHm _ _ _ E) | reflexivity..]. }
    apply parse_number_is_number in H as [z ->]. reflexivity.
  - intros s vs r H. cbn [parse_elements] in H.
    destruct (parse_value fuel s) as [[v r1]| |] eqn:Ev; try discriminate.
    destruct (skip_ws r1) as [|c r2]; [discriminate|].
    destruct (Ascii.eqb c ",").
    + destruct (parse_elements fuel r2) as [[vs' r3]| |] eqn:Ee; try discriminate.
      injection H as <- _. cbn [forallb].
      now rewrite (IHv _ _ _ Ev), (IHe _ _ _ Ee).
    + destruct (Ascii.eqb c "]"); [|discriminate].
      injection H as <- _. cbn [forallb]. now rewrite (IHv _ _ _ Ev).
  - intros s kvs r H. cbn [parse_members] in H.
    destruct (skip_ws s) as [|c rest]; [discriminate|].
    destruct (Ascii.eqb c dquote); [|discriminate].
    destruct (parse_chars rest) as [[k r1]| |]; try discriminate.
    destruct (skip_ws r1) as [|c1 r2]; [discriminate|].
    destruct (Ascii.eqb c1 ":"); [|discriminate].
    destruct (parse_value fuel r2) as [[v r3]| |] eqn:Ev; try discriminate.
    destruct (skip_ws r3) as [|c2 r4]; [discriminate|].
    destruct (Ascii.eqb c2 ",").
    + destruct (parse_members fuel r4) as [[kvs' r5]| |] eqn:Em; try discriminate.
      injection H as <- _. unfold members_ok in *. cbn [forallb].
      now rewrite (IHv _ _ _ Ev), (IHm _ _ _ Em).
    + destruct (Ascii.eqb c2 "}"); [|discriminate].
      injection H as <- _. unfold members_ok. cbn [forallb].
      now rewrite (IHv _ _ _ Ev).
Qed.

Lemma parse_well_formed (text : string) (v : json) :
  parse text = Parsed v -> well_formed v = true.
Proof.
  unfold parse.
  destruct (parse_value (S (String.length text)) text) as [[w r]| |] eqn:E;
    try discriminate.
  destruct (skip_ws r); [|discriminate]. intros [= <-].
  now apply (proj1 (parsed_well_formed _) _ _ _ E).
Qed.

End ParsedValues.

(** ** Every call keeps the invariant *)

Lemma openDB_keeps_ok (eng : Engine) (db : IDBDatabase) :
  db_ok db -> db_ok (snd (openDB eng db)).
Proof.
  intros Hok. destruct (open_fails eng) eqn:Hopen.
  - now rewrite openDB_open_fails.
  - destruct (openDB_ok eng db Hok Hopen) as (db1 & se & ss & -> & Hok1 & _).
    exact Hok1.
Qed.

Lemma run_transaction_ok (eng : Engine) (placed : list json) (s s' : ObjectStore) :
  store_ok s -> Forall (fun v => well_formed v = true) placed ->
  run_transaction eng placed s = Some s' ->
  keyPath s' = keyPath s /\ store_ok s'.
Proof.
  intros Hs Hwf. unfold run_transaction.
  destruct (_ || _); [discriminate|]. intros [= <-]. split.
  - now rewrite fold_store_put.
  - now apply store_ok_fold_put.
Qed.

Lemma store_of_db_ok (name : string) (s : ObjectStore) (db : IDBDatabase) :
  db_ok db -> name = STORE_ENTRIES \/ name = STORE_SETTINGS ->
  objectStore name db = Some s -> store_ok s.
Proof.
  intros (_ & _ & He & Hk) [-> | ->] Hs; [now apply He | now apply Hk].
Qed.

Lemma put_one_ok (name : string) (v : json) (eng : Engine) (db : IDBDatabase) :
  db_ok db -> name = STORE_ENTRIES \/ name = STORE_SETTINGS ->
  well_formed v = true ->
  db_ok (snd (put_one name v eng db)).
Proof.
  intros Hok Hname Hwf. unfold put_one.
  pose proof (openDB_keeps_ok eng db Hok) as Hok1.
  destruct (openDB eng db) as [[[]|e] db1]; cbn [snd] in *; [|exact Hok1].
  destruct (objectStore name db1) as [store|] eqn:Es; [|exact Hok1].
  destruct (key_of (keyPath store) v); [|exact Hok1].
  destruct (request_fails eng 0); [exact Hok1|]. cbn [snd].
  destruct (run_transaction eng [v] store) as [s'|] eqn:Er; [|exact Hok1].
  pose proof (store_of_db_ok name store db1 Hok1 Hname Es) as Hstore.
  destruct (run_transaction_ok eng [v] store s' Hstore) as [Hp Hs']; auto.
  now apply (db_ok_commit _ _ store).
Qed.

Lemma well_formed_settings (s : AppSettings) :
  well_formed (JObj [("key", JStr "appSettings"); ("value", settings_to_json s)])
  = true.
Proof. destruct s as [[] ? [p|] ? ? ? []]; reflexivity. Qed.

(** Removing records keeps the remaining keys pairwise different. *)
Lemma unique_keys_filter (path : string) (keep : json -> bool) (rs : list json) :
  NoDup (map (key_of path) rs) ->
  NoDup (map (key_of path) (filter keep rs)).
Proof.
  intros Hnd. induction rs as [|r rs IH]; cbn; [constructor|].
  cbn in Hnd. apply NoDup_cons_iff in Hnd as [Hr Hrs].
  destruct (keep r); cbn; [|now apply IH].
  apply NoDup_cons; [|now apply IH].
  rewrite in_map_iff in *. intros (w & Hw & Hin).
  apply Hr. exists w. split; [exact Hw|].
  now apply filter_In in Hin.
Qed.

Lemma store_ok_delete (k : key) (s : ObjectStore) :
  store_ok s -> store_ok (store_delete k s).
Proof.
  intros [Hall Hnd]. split; cbn [store_delete keyPath records].
  - rewrite Forall_forall in *. intros v Hv.
    apply filter_In in Hv as [Hv _]. now apply Hall.
  - now apply unique_keys_filter.
Qed.

Lemma deleteEntry_ok (i : string) (eng : Engine) (db : IDBDatabase) :
  db_ok db -> db_ok (snd (deleteEntry i eng db)).
Proof.
  intros Hok. unfold deleteEntry.
  pose proof (openDB_keeps_ok eng db Hok) as Hok1.
  destruct (openDB eng db) as [[[]|e] db1]; cbn [snd] in *; [|exact Hok1].
  destruct (objectStore STORE_ENTRIES db1) as [store|] eqn:Es; [|exact Hok1].
  destruct (request_fails eng 0); [exact Hok1|]. cbn [snd].
  destruct (commit_fails eng); [exact Hok1|].
  apply (db_ok_commit _ _ store); auto.
  apply store_ok_delete. apply (store_of_db_ok STORE_ENTRIES _ db1); auto.
Qed.

Lemma getAllEntries_ok (eng : Engine) (db : IDBDatabase) :
  db_ok db -> db_ok (snd (getAllEntries eng db)).
Proof.
  intros Hok. unfold getAllEntries.
  pose proof (openDB_keeps_ok eng db Hok) as Hok1.
  destruct (openDB eng db) as [[[]|e] db1]; cbn [snd] in *; [|exact Hok1].
  destruct (objectStore STORE_ENTRIES db1); [|exact Hok1].
  now destruct (request_fails eng 0).
Qed.

Lemma getSettings_ok (eng : Engine) (db : IDBDatabase) :
  db_ok db -> db_ok (snd (getSettings eng db)).
Proof.
  intros Hok. unfold getSettings.
  pose proof (openDB_keeps_ok eng db Hok) as Hok1.
  destruct (openDB eng db) as [[[]|e] db1]; cbn [snd] in *; [|exact Hok1].
  destruct (objectStore STORE_SETTINGS db1); [|exact Hok1].
  now destruct (request_fails eng 0).
Qed.

Lemma exportData_ok (eng : Engine) (db : IDBDatabase) :
  db_ok db -> db_ok (snd (exportData eng db)).
Proof.
  intros Hok. unfold exportData.
  pose proof (getAllEntries_ok eng db Hok) as H.
  now destruct (getAllEntries eng db) as [[l|e| |] db1].
Qed.

Lemma well_formed_characters (s : string) :
  Forall (fun v => well_formed v = true) (characters s).
Proof. induction s; cbn; constructor; auto. Qed.

Lemma put_each_placed (path : string) (items : list json) (P : json -> Prop) :
  Forall P items -> Forall P (fst (put_each path items)).
Proof.
  induction 1 as [|x items Hx _ IH]; cbn; [constructor|].
  destruct (key_of path x); [|constructor].
  destruct (put_each path items). cbn [fst] in *. now constructor.
Qed.

Lemma importData_ok (text : string) (eng : Engine) (db : IDBDatabase) :
  db_ok db -> db_ok (snd (importData text eng db)).
Proof.
  intros Hok. unfold importData.
  pose proof (openDB_keeps_ok eng db Hok) as Hok1.
  destruct (JSON.parse text) as [v| |] eqn:Hparse; [|exact Hok|];
    (destruct (openDB eng db) as [[[]|e] db1]; cbn [snd] in *; [|exact Hok1]);
    (destruct (objectStore STORE_ENTRIES db1) as [store|] eqn:Es;
     [|exact Hok1]); [|exact Hok1].
  apply ParsedValues.parse_well_formed in Hparse.
  destruct (iterate v) as [items|] eqn:Hiter; [|exact Hok1].
  assert (Hitems : Forall (fun x => well_formed x = true) items).
  { destruct v; try discriminate Hiter; injection Hiter as <-.
    - apply well_formed_characters.
    - cbn [well_formed] in Hparse. rewrite forallb_forall in Hparse.
      now apply Forall_forall. }
  pose proof (put_each_placed (keyPath store) items _ Hitems) as Hplaced.
  destruct (put_each (keyPath store) items) as [placed thrown].
  cbn [fst] in Hplaced.
  assert (Hdb' : db_ok match run_transaction eng placed store with
                       | Some store' => commit STORE_ENTRIES store' db1
                       | None => db1
                       end).
  { destruct (run_transaction eng placed store) as [s'|] eqn:Er; [|exact Hok1].
    pose proof (store_of_db_ok STORE_ENTRIES store db1 Hok1 (or_introl eq_refl) Es)
      as Hstore.
    destruct (run_transaction_ok eng placed store s' Hstore Hplaced Er).
    now apply (db_ok_commit _ _ store). }
  destruct thrown; [exact Hdb'|].
  destruct (some_request_fails eng (List.length placed)); [exact Hdb'|].
  now destruct (commit_fails eng).
Qed.

(** Every database that the service can reach satisfies the invariant. *)
Theorem db_ok_reachable (calls : list (call * Engine)) :
  db_ok (after_all calls no_database).
Proof.
  unfold after_all. generalize db_ok_no_database. generalize no_database.
  induction calls as [|[c eng] calls IH]; intros db Hok; cbn [fold_left];
    [exact Hok|].
  apply IH. destruct c; cbn [after fst snd].
  - now apply getAllEntries_ok.
  - apply put_one_ok; [exact Hok | now left | apply well_formed_entry].
  - now apply deleteEntry_ok.
  - now apply getSettings_ok.
  - apply put_one_ok; [exact Hok | now right | apply well_formed_settings].
  - now apply exportData_ok.
  - now apply importData_ok.
Qed.

(** * Further properties of the persistence layer *)

(** ** What each call may change *)

Lemma put_one_writes_one (name other : string) (v : json)
    (eng : Engine) (db : IDBDatabase) :
  other <> name ->
  collection other (snd (put_one name v eng db)) = collection other db.
Proof.
  intros Hother. unfold put_one.
  pose proof (openDB_collection other eng db) as H.
  destruct (openDB eng db) as [[[]|e] db1]; cbn [snd] in *; [|exact H].
  destruct (objectStore name db1) as [store|]; [|exact H].
  destruct (key_of (keyPath store) v); [|exact H].
  destruct (request_fails eng 0); [exact H|]. cbn [snd].
  destruct (run_transaction eng [v] store); [|exact H].
  rewrite collection_commit_other; auto.
Qed.

Lemma getAllEntries_reads_only (name : string) (eng : Engine) (db : IDBDatabase) :
  collection name (snd (getAllEntries eng db)) = collection name db.
Proof.
  unfold getAllEntries.
  pose proof (openDB_collection name eng db) as H.
  destruct (openDB eng db) as [[[]|e] db1]; cbn [snd] in *; [|exact H].
  destruct (objectStore STORE_ENTRIES db1); [|exact H].
  destruct (request_fails eng 0); exact H.
Qed.

Lemma exportData_reads_only (name : string) (eng : Engine) (db : IDBDatabase) :
  collection name (snd (exportData eng db)) = collection name db.
Proof.
  unfold exportData. pose proof (getAllEntries_reads_only name eng db) as H.
  now destruct (getAllEntries eng db) as [[l|e| |] db1].
Qed.

Lemma deleteEntry_writes_entries (other i : string) (eng : Engine) (db : IDBDatabase) :
  other <> STORE_ENTRIES ->
  collection other (snd (deleteEntry i eng db)) = collection other db.
Proof.
  intros Hother. unfold deleteEntry.
  pose proof (openDB_collection other eng db) as H.
  destruct (openDB eng db) as [[[]|e] db1]; cbn [snd] in *; [|exact H].
  destruct (objectStore STORE_ENTRIES db1); [|exact H].
  destruct (request_fails eng 0); [exact H|]. cbn [snd].
  destruct (commit_fails eng); [exact H|].
  rewrite collection_commit_other; auto.
Qed.

Lemma importData_writes_entries (other text : string) (eng : Engine) (db : IDBDatabase) :
  other <> STORE_ENTRIES ->
  collection other (snd (importData text eng db)) = collection other db.
Proof.
  intros Hother. unfold importData.
  pose proof (openDB_collection other eng db) as H.
  destruct (JSON.parse text) as [v| |]; [|reflexivity|];
    (destruct (openDB eng db) as [[[]|e] db1]; cbn [snd] in *; [|exact H]);
    (destruct (objectStore STORE_ENTRIES db1) as [store|]; [|exact H]);
    [|exact H].
  destruct (iterate v) as [items|]; [|exact H].
  destruct (put_each (keyPath store) items) as [placed thrown].
  assert (H' : collection other
                 match run_transaction eng placed store with
                 | Some store' => commit STORE_ENTRIES store' db1
                 | None => db1
                 end = collection other db).
  { destruct (run_transaction eng placed store); [|exact H].
    rewrite collection_commit_other; auto. }
  destruct thrown; [exact H'|].
  destruct (some_request_fails eng (List.length placed)); [exact H'|].
  now destruct (commit_fails eng).
Qed.

(** X1.  A call changes no collection but the one it writes to: the
    reads change nothing, the entry operations leave the settings alone,
    and [saveSettings] leaves the entries alone, whatever the engine does
    and whatever state the database is in. *)
Theorem calls_write_only_their_collection
    (c : call) (eng : Engine) (db : IDBDatabase) (name : string) :
  ~ In name (writes c) ->
  collection name (after c eng db) = collection name db.
Proof.
  intros Hname. destruct c; cbn [after writes] in *.
  - apply getAllEntries_reads_only.
  - apply put_one_writes_one. intros ->. apply Hname. now left.
  - apply deleteEntry_writes_entries. intros ->. apply Hname. now left.
  - apply getSettings_reads_only.
  - apply put_one_writes_one. intros ->. apply Hname. now left.
  - apply exportData_reads_only.
  - apply importData_writes_entries. intros ->. apply Hname. now left.
Qed.

Lemma calls_write_only_their_collection_witness :
  collection STORE_SETTINGS
    (after (ImportData (JSON.stringify (JArr two_records))) healthy sample_db)
  = collection STORE_SETTINGS sample_db.
Proof.
  apply (calls_write_only_their_collection
           (ImportData (JSON.stringify (JArr two_records))) healthy sample_db).
  cbn. intros [H | []]. discriminate H.
Defined.

(** ** Save, look up, delete *)

(** X2.  An entry that was saved without a failure is the record under
    its [id], field for field, and the record under every other key is
    the one that was there. *)
Theorem saveEntry_then_get (e : Entry) (eng : Engine) (db : IDBDatabase) :
  db_ok db -> works eng ->
  entry_get (KStr (id e)) (snd (saveEntry e eng db)) = Some (entry_to_json e)
  /\ forall k, k <> KStr (id e) ->
               entry_get k (snd (saveEntry e eng db)) = entry_get k db.
Proof.
  intros Hok Hworks. unfold entry_get.
  destruct (saveEntry_works e eng db Hok Hworks) as [_ ->]. split.
  - apply find_upsert_same, key_of_entry.
  - intros k Hk. apply find_upsert_other; [apply key_of_entry | congruence].
Qed.

Lemma saveEntry_then_get_witness :
  entry_get (KStr "b")
    (snd (saveEntry (entry_at "b" 300 "Edited" true) healthy sample_db))
  = Some (entry_to_json (entry_at "b" 300 "Edited" true))
  /\ entry_get (KStr "a")
       (snd (saveEntry (entry_at "b" 300 "Edited" true) healthy sample_db))
     = entry_get (KStr "a") sample_db.
Proof.
  destruct (saveEntry_then_get (entry_at "b" 300 "Edited" true) healthy sample_db
              db_ok_sample works_healthy) as [Hsame Hother].
  split; [exact Hsame | apply Hother; discriminate].
Defined.

(** A [deleteEntry] on which nothing fails removes the records under
    the key. *)
Lemma deleteEntry_works (i : string) (eng : Engine) (db : IDBDatabase) :
  db_ok db -> works eng ->
  fst (deleteEntry i eng db) = Resolved tt
  /\ collection STORE_ENTRIES (snd (deleteEntry i eng db))
     = filter (fun v => negb (has_key "id" (KStr i) v))
         (collection STORE_ENTRIES db).
Proof.
  intros Hok (Hopen & Hreq & Hcommit). unfold deleteEntry.
  destruct (openDB_ok eng db Hok Hopen)
    as (db1 & se & ss & E & _ & Ese & Hp & _ & Hrec & _).
  rewrite E, Ese, Hreq, Hcommit. cbn [fst snd]. split; [reflexivity|].
  rewrite (collection_commit_same _ _ se) by exact Ese.
  cbn [store_delete records]. now rewrite Hp, Hrec.
Qed.

Lemma find_filter_other (path : string) (k k' : key) (l : list json) :
  k <> k' ->
  find (has_key path k') (filter (fun v => negb (has_key path k v)) l)
  = find (has_key path k') l.
Proof.
  intros Hk. induction l as [|w l IH]; cbn; [reflexivity|].
  destruct (has_key path k w) eqn:E; cbn.
  - apply has_key_iff in E. now rewrite (has_key_other path k k' w E Hk).
  - now rewrite IH.
Qed.

Lemma find_filter_same (path : string) (k : key) (l : list json) :
  find (has_key path k) (filter (fun v => negb (has_key path k v)) l) = None.
Proof.
  induction l as [|w l IH]; cbn; [reflexivity|].
  destruct (has_key path k w) eqn:E; cbn; [exact IH|]. now rewrite E.
Qed.

Lemma filter_absent (path : string) (k : key) (l : list json) :
  find (has_key path k) l = None ->
  filter (fun v => negb (has_key path k v)) l = l.
Proof.
  induction l as [|w l IH]; cbn; [reflexivity|].
  destruct (has_key path k w); cbn; [discriminate|].
  intros H. now rewrite IH.
Qed.

(** X3.  A [deleteEntry] on which nothing fails resolves; afterwards
    there is no record under the [id], the record under every other key
    is the one that was there, and when the [id] had no record the
    collection is exactly what it was. *)
Theorem deleteEntry_removes_only_that_id
    (i : string) (eng : Engine) (db : IDBDatabase) :
  db_ok db -> works eng ->
  fst (deleteEntry i eng db) = Resolved tt
  /\ entry_get (KStr i) (snd (deleteEntry i eng db)) = None
  /\ (forall k, k <> KStr i ->
                entry_get k (snd (deleteEntry i eng db)) = entry_get k db)
  /\ (entry_get (KStr i) db = None ->
      collection STORE_ENTRIES (snd (deleteEntry i eng db))
      = collection STORE_ENTRIES db).
Proof.
  intros Hok Hworks.
  destruct (deleteEntry_works i eng db Hok Hworks) as [Hres Hcol].
  split; [exact Hres|]. unfold entry_get. rewrite Hcol. split; [|split].
  - apply find_filter_same.
  - intros k Hk. apply find_filter_other. congruence.
  - apply filter_absent.
Qed.

Lemma deleteEntry_removes_only_that_id_witness :
  fst (deleteEntry "b" healthy sample_db) = Resolved tt
  /\ entry_get (KStr "b") (snd (deleteEntry "b" healthy sample_db)) = None
  /\ entry_get (KStr "a") (snd (deleteEntry "b" healthy sample_db))
     = entry_get (KStr "a") sample_db
  /\ collection STORE_ENTRIES (snd (deleteEntry "zz" healthy sample_db))
     = collection STORE_ENTRIES sample_db.
Proof.
  destruct (deleteEntry_removes_only_that_id "b" healthy sample_db
              db_ok_sample works_healthy) as (Hres & Hgone & Hkept & _).
  destruct (deleteEntry_removes_only_that_id "zz" healthy sample_db
              db_ok_sample works_healthy) as (_ & _ & _ & Hnoop).
  split; [exact Hres|]. split; [exact Hgone|].
  split; [apply Hkept; discriminate | apply Hnoop; reflexivity].
Defined.

(** ** Settings *)

Lemma saveSettings_works (s : AppSettings) (eng : Engine) (db : IDBDatabase) :
  db_ok db -> works eng ->
  fst (saveSettings s eng db) = Resolved tt
  /\ collection STORE_SETTINGS (snd (saveSettings s eng db))
     = upsert "key" (KStr "appSettings")
         (JObj [("key", JStr "appSettings"); ("value", settings_to_json s)])
         (collection STORE_SETTINGS db).
Proof.
  intros Hok (Hopen & Hreq & Hcommit). unfold saveSettings, put_one.
  destruct (openDB_ok eng db Hok Hopen)
    as (db1 & se & ss & E & _ & _ & _ & _ & _ & Ess & Hp & _ & Hrec).
  rewrite E, Ess, Hp.
  change (key_of "key" (JObj [("key", JStr "appSettings");
                              ("value", settings_to_json s)]))
    with (Some (KStr "appSettings")).
  rewrite Hreq. unfold run_transaction.
  rewrite some_request_fails_works, Hcommit by exact Hreq.
  cbn [orb fold_left fst snd]. split; [reflexivity|].
  rewrite (collection_commit_same _ _ ss) by exact Ess.
  unfold store_put. rewrite Hp.
  change (key_of "key" (JObj [("key", JStr "appSettings");
                              ("value", settings_to_json s)]))
    with (Some (KStr "appSettings")).
  cbn [records]. now rewrite Hrec.
Qed.

Lemma stored_settings_after_save (s : AppSettings) (eng : Engine) (db : IDBDatabase) :
  db_ok db -> works eng ->
  stored_settings (snd (saveSettings s eng db)) = Some (settings_to_json s).
Proof.
  intros Hok Hworks. unfold stored_settings.
  destruct (saveSettings_works s eng db Hok Hworks) as [_ ->].
  rewrite find_upsert_same by reflexivity. reflexivity.
Qed.

(** What [getSettings] resolves with once the database is open. *)
Lemma getSettings_value (eng : Engine) (db : IDBDatabase) :
  db_ok db -> open_fails eng = false ->
  fst (getSettings eng db)
  = Resolved (if request_fails eng 0 then JObj []
              else match stored_settings db with
                   | Some stored => stored
                   | None => defaultSettings
                   end).
Proof.
  intros Hok Hopen.
  destruct (getSettings_open eng db Hok Hopen)
    as (db1 & ss & (Hp & Hrec) & _ & ->). cbn [fst]. f_equal.
  destruct (request_fails eng 0); [reflexivity|].
  unfold stored_settings, store_get. rewrite Hp, Hrec.
  destruct (find _ _) as [r|]; [|reflexivity].
  destruct (get_prop r "value") as [v|]; [|reflexivity].
  now destruct (truthy (Some v)).
Qed.

(** X4.  Settings that were saved without a failure are what the next
    [getSettings] resolves with, whatever was stored before: the record
    is replaced as a whole. *)
Theorem saveSettings_then_getSettings
    (s : AppSettings) (eng eng' : Engine) (db : IDBDatabase) :
  db_ok db -> works eng ->
  open_fails eng' = false -> request_fails eng' 0 = false ->
  fst (getSettings eng' (snd (saveSettings s eng db)))
  = Resolved (settings_to_json s).
Proof.
  intros Hok Hworks Hopen Hread.
  assert (Hok' : db_ok (snd (saveSettings s eng db))).
  { apply put_one_ok; [exact Hok | now right | apply well_formed_settings]. }
  rewrite (getSettings_value eng' _ Hok' Hopen), Hread.
  now rewrite stored_settings_after_save.
Qed.

Lemma saveSettings_then_getSettings_witness :
  fst (getSettings healthy (snd (saveSettings locked_settings healthy sample_db)))
  = Resolved (settings_to_json locked_settings).
Proof.
  apply (saveSettings_then_getSettings locked_settings healthy healthy sample_db);
    [exact db_ok_sample | exact works_healthy | reflexivity | reflexivity].
Defined.

(** What a [put] on its own transaction leaves in its store: what was
    there, or that with the value upserted. *)
Lemma put_one_collection (name : string) (v : json) (eng : Engine) (db : IDBDatabase) :
  collection name (snd (put_one name v eng db)) = collection name db
  \/ exists store k,
       objectStore name (snd (openDB eng db)) = Some store
       /\ key_of (keyPath store) v = Some k
       /\ collection name (snd (put_one name v eng db))
          = upsert (keyPath store) k v (collection name db).
Proof.
  unfold put_one.
  pose proof (openDB_collection name eng db) as H.
  destruct (openDB eng db) as [[[]|e] db1]; cbn [snd] in *; [|now left].
  destruct (objectStore name db1) as [store|] eqn:Es; [|now left].
  destruct (key_of (keyPath store) v) as [k|] eqn:Ek; [|now left].
  destruct (request_fails eng 0); [now left|]. cbn [snd].
  unfold run_transaction.
  destruct (_ || _); [now left|]. right. exists store, k.
  split; [reflexivity|]. split; [exact Ek|].
  rewrite (collection_commit_same _ _ store) by exact Es.
  cbn [fold_left]. unfold store_put. rewrite Ek. cbn [records].
  unfold collection in H. now rewrite Es in H; rewrite H.
Qed.

Lemma same_key_at_most_one (path : string) (k : key) (l : list json) :
  Forall (fun v => key_of path v = Some k) l ->
  NoDup (map (key_of path) l) -> List.length l <= 1.
Proof.
  intros Hall Hnd. destruct l as [|a [|b l]]; cbn; try lia.
  exfalso. inversion Hall as [|? ? Ha Hall']; subst.
  inversion Hall' as [|? ? Hb _]; subst.
  cbn in Hnd. apply NoDup_cons_iff in Hnd as [Hnotin _].
  apply Hnotin. left. congruence.
Qed.

(** The settings store only ever holds records under ["appSettings"]. *)
Lemma settings_key_kept (c : call) (eng : Engine) (db : IDBDatabase) :
  db_ok db ->
  Forall (fun v => key_of "key" v = Some (KStr "appSettings"))
    (collection STORE_SETTINGS db) ->
  Forall (fun v => key_of "key" v = Some (KStr "appSettings"))
    (collection STORE_SETTINGS (after c eng db)).
Proof.
  intros Hok Hall.
  destruct c as [| entry | i | | s | | text];
    try (rewrite calls_write_only_their_collection;
         [exact Hall | cbn; intuition discriminate]).
  cbn [after]. unfold saveSettings.
  destruct (put_one_collection STORE_SETTINGS
              (JObj [("key", JStr "appSettings"); ("value", settings_to_json s)])
              eng db) as [-> | (store & k & Es & Ek & ->)]; [exact Hall|].
  assert (Hp : keyPath store = "key").
  { pose proof (openDB_keeps_ok eng db Hok) as (_ & _ & _ & Hk).
    now apply Hk. }
  rewrite Hp in *. rewrite Forall_forall in *. intros w Hw.
  apply In_upsert in Hw as [-> | Hw]; [reflexivity | now apply Hall].
Qed.

Lemma db_ok_after (c : call) (eng : Engine) (db : IDBDatabase) :
  db_ok db -> db_ok (after c eng db).
Proof.
  intros Hok. destruct c; cbn [after].
  - now apply getAllEntries_ok.
  - apply put_one_ok; [exact Hok | now left | apply well_formed_entry].
  - now apply deleteEntry_ok.
  - now apply getSettings_ok.
  - apply put_one_ok; [exact Hok | now right | apply well_formed_settings].
  - now apply exportData_ok.
  - now apply importData_ok.
Qed.

(** X5.  However the service is called and whatever the engine does,
    the settings collection holds at most one record, and that record
    is under the key ["appSettings"]. *)
Theorem settings_is_a_singleton (calls : list (call * Engine)) :
  List.length (collection STORE_SETTINGS (after_all calls no_database)) <= 1
  /\ Forall (fun v => key_of "key" v = Some (KStr "appSettings"))
       (collection STORE_SETTINGS (after_all calls no_database)).
Proof.
  assert (H : forall db,
             db_ok db ->
             Forall (fun v => key_of "key" v = Some (KStr "appSettings"))
               (collection STORE_SETTINGS db) ->
             db_ok (after_all calls db)
             /\ Forall (fun v => key_of "key" v = Some (KStr "appSettings"))
                  (collection STORE_SETTINGS (after_all calls db))).
  { unfold after_all.
    induction calls as [|[c eng] calls IH]; intros db Hok Hall; cbn [fold_left];
      [now split|].
    apply IH; [now apply db_ok_after | now apply settings_key_kept]. }
  destruct (H no_database db_ok_no_database (Forall_nil _)) as [Hok Hall].
  split; [|exact Hall].
  apply (same_key_at_most_one "key" (KStr "appSettings")); [exact Hall|].
  destruct Hok as (_ & _ & _ & Hk). unfold collection.
  destruct (objectStore STORE_SETTINGS (after_all calls no_database)) as [ss|];
    [|constructor].
  destruct (Hk ss eq_refl) as (Hp & _ & Hnd). now rewrite Hp in Hnd.
Qed.

(** X6.  However the service is called and whatever the engine does,
    no two records of the entry collection have the same [id], and every
    record has one. *)
Theorem entries_always_keyed_and_unique (calls : list (call * Engine)) :
  NoDup (map (key_of "id") (collection STORE_ENTRIES (after_all calls no_database)))
  /\ Forall (keyed "id") (collection STORE_ENTRIES (after_all calls no_database)).
Proof.
  pose proof (db_ok_reachable calls) as Hok.
  split; [now apply db_ok_entries_unique|].
  destruct Hok as (_ & _ & He & _). unfold collection.
  destruct (objectStore STORE_ENTRIES (after_all calls no_database)) as [se|];
    [|constructor].
  destruct (He se eq_refl) as (Hp & Hall & _). rewrite Hp in Hall.
  eapply Forall_impl; [|exact Hall]. now intros v [H _].
Qed.

(** ** Opening the database *)

(** X7.  A successful [openDB] keeps every record of every collection;
    the database it hands over opens again without any change (the
    upgrade runs once); and a database that was never opened gets both
    stores of the schema. *)
Theorem openDB_upgrades_once (eng : Engine) (db db1 : IDBDatabase) :
  openDB eng db = (inl tt, db1) ->
  (forall eng', open_fails eng' = false -> openDB eng' db1 = (inl tt, db1))
  /\ (forall name, collection name db1 = collection name db)
  /\ (version db = 0%N ->
      contains STORE_ENTRIES db1 = true /\ contains STORE_SETTINGS db1 = true).
Proof.
  intros E. split; [|split].
  - intros eng' Hopen. apply openDB_success in E as (_ & Hv & _).
    unfold openDB. rewrite Hopen, Hv. reflexivity.
  - intros name. pose proof (openDB_collection name eng db) as H.
    now rewrite E in H.
  - intros Hv0. apply openDB_success in E as (_ & _ & Hst).
    unfold contains. rewrite !Hst, Hv0. cbn [N.eqb].
    rewrite !objectStore_onupgradeneeded.
    destruct (objectStore STORE_ENTRIES db), (objectStore STORE_SETTINGS db);
      split; reflexivity.
Qed.

Lemma openDB_upgrades_once_witness :
  openDB healthy (snd (openDB healthy no_database))
  = (inl tt, snd (openDB healthy no_database))
  /\ collection STORE_ENTRIES (snd (openDB healthy no_database))
     = collection STORE_ENTRIES no_database
  /\ contains STORE_ENTRIES (snd (openDB healthy no_database)) = true
  /\ contains STORE_SETTINGS (snd (openDB healthy no_database)) = true.
Proof.
  destruct (openDB_upgrades_once healthy no_database
              (snd (openDB healthy no_database)) eq_refl)
    as (Hagain & Hkept & Hstores).
  split; [apply Hagain; reflexivity|]. split; [apply Hkept|].
  apply Hstores. reflexivity.
Defined.

(** ** Failures *)

Lemma put_one_rejected (name : string) (v : json) (eng : Engine)
    (db : IDBDatabase) (e : error) (other : string) :
  fst (put_one name v eng db) = Rejected e ->
  collection other (snd (put_one name v eng db)) = collection other db.
Proof.
  unfold put_one.
  pose proof (openDB_collection other eng db) as H.
  destruct (openDB eng db) as [[[]|e'] db1]; cbn [snd] in *; [|intros _; exact H].
  destruct (objectStore name db1) as [store|]; [|intros _; exact H].
  destruct (key_of (keyPath store) v); [|intros _; exact H].
  destruct (request_fails eng 0); [intros _; exact H | discriminate].
Qed.

(** X8.  A [saveEntry], [saveSettings] or [deleteEntry] that rejects
    has written nothing: every collection is what it was. *)
Theorem rejected_write_changes_nothing (eng : Engine) (db : IDBDatabase) (name : string) :
  (forall entry e, fst (saveEntry entry eng db) = Rejected e ->
     collection name (snd (saveEntry entry eng db)) = collection name db)
  /\ (forall settings e, fst (saveSettings settings eng db) = Rejected e ->
        collection name (snd (saveSettings settings eng db)) = collection name db)
  /\ (forall i e, fst (deleteEntry i eng db) = Rejected e ->
        collection name (snd (deleteEntry i eng db)) = collection name db).
Proof.
  split; [|split].
  - intros entry e. apply put_one_rejected.
  - intros settings e. apply put_one_rejected.
  - intros i e. unfold deleteEntry.
    pose proof (openDB_collection name eng db) as H.
    destruct (openDB eng db) as [[[]|e'] db1]; cbn [snd] in *; [|intros _; exact H].
    destruct (objectStore STORE_ENTRIES db1); [|intros _; exact H].
    destruct (request_fails eng 0); [intros _; exact H | discriminate].
Qed.

Lemma rejected_write_changes_nothing_witness :
  collection STORE_ENTRIES
    (snd (saveEntry (entry_at "b" 300 "Edited" true) read_error sample_db))
  = collection STORE_ENTRIES sample_db
  /\ collection STORE_SETTINGS (snd (saveSettings locked_settings read_error sample_db))
     = collection STORE_SETTINGS sample_db
  /\ collection STORE_ENTRIES (snd (deleteEntry "b" read_error sample_db))
     = collection STORE_ENTRIES sample_db.
Proof.
  split; [|split].
  - apply (proj1 (rejected_write_changes_nothing read_error sample_db STORE_ENTRIES)
             (entry_at "b" 300 "Edited" true) StorageError). reflexivity.
  - apply (proj1 (proj2 (rejected_write_changes_nothing read_error sample_db
                           STORE_SETTINGS)) locked_settings StorageError).
    reflexivity.
  - apply (proj2 (proj2 (rejected_write_changes_nothing read_error sample_db
                           STORE_ENTRIES)) "b" StorageError). reflexivity.
Defined.

(** X9.  [saveEntry] resolves on the success of its request, before the
    transaction commits: when the commit then fails, the promise has
    resolved and nothing was written. *)
Theorem saveEntry_resolves_before_commit
    (entry : Entry) (eng : Engine) (db : IDBDatabase) (name : string) :
  db_ok db -> open_fails eng = false -> request_fails eng 0 = false ->
  commit_fails eng = true ->
  fst (saveEntry entry eng db) = Resolved tt
  /\ collection name (snd (saveEntry entry eng db)) = collection name db.
Proof.
  intros Hok Hopen Hreq Hcommit. unfold saveEntry, put_one.
  pose proof (openDB_collection name eng db) as H.
  destruct (openDB_ok eng db Hok Hopen)
    as (db1 & se & ss & E & _ & Ese & Hp & _).
  rewrite E in *. cbn [snd] in H.
  rewrite Ese, Hp, key_of_entry, Hreq. unfold run_transaction.
  rewrite Hcommit, orb_true_r. split; [reflexivity | exact H].
Qed.

Lemma saveEntry_resolves_before_commit_witness :
  fst (saveEntry (entry_at "n" 400 "Day 4" false) commit_error sample_db)
  = Resolved tt
  /\ collection STORE_ENTRIES
       (snd (saveEntry (entry_at "n" 400 "Day 4" false) commit_error sample_db))
     = collection STORE_ENTRIES sample_db.
Proof.
  apply (saveEntry_resolves_before_commit
           (entry_at "n" 400 "Day 4" false) commit_error sample_db STORE_ENTRIES);
    [exact db_ok_sample | reflexivity | reflexivity | reflexivity].
Defined.

(** X10.  When the database cannot be opened, every call leaves it as
    it was; [importData] reports [InvalidFormat] for a text that parses,
    and every other call rejects with the engine's error, [getSettings]
    included. *)
Theorem open_failure_is_reported (eng : Engine) (db : IDBDatabase) :
  open_fails eng = true ->
  getAllEntries eng db = (Rejected StorageError, db)
  /\ getSettings eng db = (Rejected StorageError, db)
  /\ exportData eng db = (Rejected StorageError, db)
  /\ (forall entry, saveEntry entry eng db = (Rejected StorageError, db))
  /\ (forall settings, saveSettings settings eng db = (Rejected StorageError, db))
  /\ (forall i, deleteEntry i eng db = (Rejected StorageError, db))
  /\ (forall text, importData text eng db = (Rejected InvalidFormat, db)).
Proof.
  intros Hopen.
  unfold exportData, getAllEntries, getSettings, saveEntry, saveSettings,
    put_one, deleteEntry, importData.
  rewrite (openDB_open_fails eng db Hopen). repeat split.
  intros text. now destruct (JSON.parse text).
Qed.

Lemma open_failure_is_reported_witness :
  getAllEntries open_error sample_db = (Rejected StorageError, sample_db)
  /\ getSettings open_error sample_db = (Rejected StorageError, sample_db)
  /\ exportData open_error sample_db = (Rejected StorageError, sample_db)
  /\ saveEntry (entry_at "n" 400 "Day 4" false) open_error sample_db
     = (Rejected StorageError, sample_db)
  /\ saveSettings locked_settings open_error sample_db
     = (Rejected StorageError, sample_db)
  /\ deleteEntry "b" open_error sample_db = (Rejected StorageError, sample_db)
  /\ importData "[]" open_error sample_db = (Rejected InvalidFormat, sample_db).
Proof.
  destruct (open_failure_is_reported open_error sample_db eq_refl)
    as (H1 & H2 & H3 & H4 & H5 & H6 & H7).
  repeat split; auto.
Defined.

(** ** Export and import *)



(** An [importData] of keyed records on which nothing fails. *)
Lemma importData_works (text : string) (items : list json)
    (eng : Engine) (db : IDBDatabase) :
  db_ok db -> JSON.parse text = JSON.Parsed (JArr items) ->
  Forall (keyed "id") items -> works eng ->
  fst (importData text eng db) = Resolved tt
  /\ collection STORE_ENTRIES (snd (importData text eng db))
     = fold_left (put_record "id") items (collection STORE_ENTRIES db).
Proof.
  intros Hok Hparse Hkeyed (Hopen & Hreq & Hcommit).
  destruct (importData_keyed text items eng db Hok Hparse Hkeyed Hopen)
    as (db1 & se & _ & Ese & Hp & _ & Hrec & ->).
  rewrite some_request_fails_works, Hcommit by exact Hreq. cbn [fst snd].
  split; [reflexivity|].
  rewrite (collection_commit_same _ _ se) by exact Ese.
  rewrite fold_store_put. cbn [records]. now rewrite Hp, Hrec.
Qed.

(** Two lists of keyed records with the same keys in the same order,
    pairwise different, and the same record under every key, are equal. *)
Lemma records_equal_by_keys (path : string) (l1 l2 : list json) :
  map (key_of path) l1 = map (key_of path) l2 ->
  NoDup (map (key_of path) l1) ->
  Forall (keyed path) l1 ->
  (forall k, find (has_key path k) l1 = find (has_key path k) l2) ->
  l1 = l2.
Proof.
  revert l2. induction l1 as [|a l1 IH]; intros [|b l2] Hkeys Hnd Hall Hfind;
    try discriminate; [reflexivity|].
  cbn [map] in Hkeys, Hnd. injection Hkeys as Hab Hkeys.
  apply NoDup_cons_iff in Hnd as [Ha Hnd].
  inversion Hall as [|? ? [k Hk] Hall']; subst.
  assert (Hka : has_key path k a = true) by now apply has_key_iff.
  assert (Hkb : has_key path k b = true) by (apply has_key_iff; congruence).
  pose proof (Hfind k) as Hk'. cbn [find] in Hk'. rewrite Hka, Hkb in Hk'.
  injection Hk' as <-. f_equal.
  apply IH; auto. intros k'. pose proof (Hfind k') as H. cbn [find] in H.
  destruct (has_key path k' a) eqn:E; [|exact H].
  apply has_key_iff in E. assert (k' = k) by congruence. subst k'.
  assert (Hnone : forall l, ~ In (Some k) (map (key_of path) l) ->
                            find (has_key path k) l = None).
  { intros l Hl. destruct (find (has_key path k) l) as [w|] eqn:Ef; [|reflexivity].
    apply find_some in Ef as [Hin Hw]. exfalso. apply Hl.
    apply in_map_iff. exists w. split; [now apply has_key_iff | exact Hin]. }
  rewrite !Hnone; [reflexivity | rewrite <- Hkeys |]; now rewrite <- Hk.
Qed.

Lemma keys_fold_put_present (path : string) (items l : list json) :
  Forall (fun x => exists k, key_of path x = Some k
                             /\ In (Some k) (map (key_of path) l)) items ->
  map (key_of path) (fold_left (put_record path) items l) = map (key_of path) l.
Proof.
  intros H. revert l H. induction items as [|x items IH]; intros l H;
    cbn [fold_left]; [reflexivity|].
  inversion H as [|? ? (k & Hk & Hin) H']; subst.
  assert (Hsame : map (key_of path) (put_record path l x) = map (key_of path) l).
  { unfold put_record. rewrite Hk, keys_upsert by exact Hk.
    apply existsb_has_key in Hin. now rewrite Hin. }
  rewrite IH; [exact Hsame|].
  eapply Forall_impl; [|exact H']. intros y (ky & Hy & Hiny).
  exists ky. now rewrite Hsame.
Qed.

Lemma keys_fold_put_contains (path : string) (items l : list json) (x : json) (k : key) :
  Forall (keyed path) items -> In x items -> key_of path x = Some k ->
  In (Some k) (map (key_of path) (fold_left (put_record path) items l)).
Proof.
  intros Hkeyed Hin Hk.
  pose proof (find_fold_put path k items l Hkeyed) as Hfind.
  destruct (find (has_key path k) (rev items)) as [v|] eqn:Erev.
  - apply find_some in Hfind as [Hv Hkv].
    apply in_map_iff. exists v. split; [now apply has_key_iff | exact Hv].
  - exfalso. pose proof (find_none _ _ Erev x) as Hnone.
    rewrite <- in_rev in Hnone. specialize (Hnone Hin).
    apply has_key_iff in Hk. congruence.
Qed.

Lemma fold_put_keeps_ok (path : string) (items l : list json) :
  Forall (keyed path) items -> Forall (keyed path) l ->
  NoDup (map (key_of path) l) ->
  Forall (keyed path) (fold_left (put_record path) items l)
  /\ NoDup (map (key_of path) (fold_left (put_record path) items l)).
Proof.
  intros Hitems. revert l.
  induction Hitems as [|x items [k Hk] _ IH]; intros l Hl Hnd; cbn [fold_left];
    [now split|].
  apply IH; unfold put_record; rewrite Hk.
  - rewrite Forall_forall in *. intros w Hw.
    apply In_upsert in Hw as [-> | Hw]; [now exists k | now apply Hl].
  - now apply NoDup_keys_upsert.
Qed.

(** Importing the same records a second time changes nothing. *)
Lemma fold_put_twice (path : string) (items l : list json) :
  Forall (keyed path) items -> Forall (keyed path) l ->
  NoDup (map (key_of path) l) ->
  fold_left (put_record path) items (fold_left (put_record path) items l)
  = fold_left (put_record path) items l.
Proof.
  intros Hitems Hl Hnd.
  destruct (fold_put_keeps_ok path items l Hitems Hl Hnd) as [Hall1 Hnd1].
  remember (fold_left (put_record path) items l) as l1 eqn:El1.
  assert (Hkeys : map (key_of path) (fold_left (put_record path) items l1)
                  = map (key_of path) l1).
  { apply keys_fold_put_present. rewrite Forall_forall. intros x Hx.
    rewrite Forall_forall in Hitems. destruct (Hitems x Hx) as [k Hk].
    exists k. split; [exact Hk|]. rewrite El1.
    apply (keys_fold_put_contains path items l x k); auto.
    now apply Forall_forall. }
  destruct (fold_put_keeps_ok path items l1 Hitems Hall1 Hnd1) as [Hall2 Hnd2].
  apply (records_equal_by_keys path); auto.
  intros k. rewrite find_fold_put by exact Hitems.
  destruct (find (has_key path k) (rev items)) as [v|] eqn:Ev; [|reflexivity].
  rewrite El1, find_fold_put by exact Hitems. now rewrite Ev.
Qed.

(** X12.  Restoring the same backup twice is the same as restoring it
    once: a second [importData] of a text that was imported without a
    failure leaves the entry collection exactly as the first one did. *)
Theorem importData_twice (text : string) (items : list json)
    (eng eng' : Engine) (db : IDBDatabase) :
  db_ok db -> JSON.parse text = JSON.Parsed (JArr items) ->
  Forall (keyed "id") items -> works eng -> works eng' ->
  fst (importData text eng' (snd (importData text eng db))) = Resolved tt
  /\ collection STORE_ENTRIES
       (snd (importData text eng' (snd (importData text eng db))))
     = collection STORE_ENTRIES (snd (importData text eng db)).
Proof.
  intros Hok Hparse Hkeyed Hworks Hworks'.
  assert (Hok1 : db_ok (snd (importData text eng db))) by now apply importData_ok.
  destruct (importData_works text items eng' _ Hok1 Hparse Hkeyed Hworks')
    as [-> ->]. split; [reflexivity|].
  destruct (importData_works text items eng db Hok Hparse Hkeyed Hworks)
    as [_ ->].
  apply fold_put_twice; [exact Hkeyed | |now apply db_ok_entries_unique].
  destruct Hok as (_ & _ & He & _). unfold collection.
  destruct (objectStore STORE_ENTRIES db) as [se|]; [|constructor].
  destruct (He se eq_refl) as (Hp & Hall & _). rewrite Hp in Hall.
  eapply Forall_impl; [|exact Hall]. now intros v [H _].
Qed.

Lemma importData_twice_witness :
  fst (importData (JSON.stringify (JArr two_records)) healthy
         (snd (importData (JSON.stringify (JArr two_records)) healthy sample_db)))
  = Resolved tt
  /\ collection STORE_ENTRIES
       (snd (importData (JSON.stringify (JArr two_records)) healthy
               (snd (importData (JSON.stringify (JArr two_records)) healthy sample_db))))
     = collection STORE_ENTRIES
         (snd (importData (JSON.stringify (JArr two_records)) healthy sample_db)).
Proof.
  apply (importData_twice _ two_records healthy healthy sample_db);
    [exact db_ok_sample | exact parse_two_records | exact keyed_two_records
    | exact works_healthy | exact works_healthy].
Defined.

(** ** Ties in [getAllEntries] *)

Lemma filter_date_sort_insert (d : Z) (a : json) (l : list json) :
  dated a -> Forall dated l ->
  filter (has_date d) (sort_insert by_date_descending a l)
  = if has_date d a then a :: filter (has_date d) l else filter (has_date d) l.
Proof.
  intros [x Ha] Hl. induction Hl as [|b l [y Hb] _ IH]; cbn [sort_insert filter].
  - now destruct (has_date d a).
  - rewrite (by_date_descending_dates a b x y Ha Hb).
    destruct (0 <? y - x)%Z eqn:E; cbn [filter]; [|reflexivity].
    apply Z.ltb_lt in E. rewrite IH. unfold has_date. rewrite Ha, Hb.
    destruct (Z.eqb_spec x d) as [->|Hx]; [|reflexivity].
    destruct (Z.eqb_spec y d) as [->|Hy]; [lia | reflexivity].
Qed.

Lemma filter_date_sort (d : Z) (l : list json) :
  Forall dated l ->
  filter (has_date d) (sort by_date_descending l) = filter (has_date d) l.
Proof.
  unfold sort. induction 1 as [|a l Ha Hl IH]; cbn [fold_right filter];
    [reflexivity|].
  rewrite filter_date_sort_insert, IH; [reflexivity | exact Ha|].
  eapply Permutation_Forall; [symmetry; apply sort_perm | exact Hl].
Qed.

(** X13.  The sort of [getAllEntries] is stable: the entries that have
    the same [date] come in the order in which the store reads them,
    which is the order of their keys. *)
Theorem getAllEntries_keeps_ties_in_key_order
    (eng : Engine) (db : IDBDatabase) :
  db_ok db -> Forall dated (collection STORE_ENTRIES db) ->
  open_fails eng = false -> request_fails eng 0 = false ->
  exists l,
    fst (getAllEntries eng db) = Resolved l
    /\ forall d,
         filter (has_date d) l
         = filter (has_date d) (in_key_order "id" (collection STORE_ENTRIES db)).
Proof.
  intros Hok Hdated Hopen Hread.
  destruct (getAllEntries_open eng db Hok Hopen Hread)
    as (db1 & se & Hp & Hrec & E).
  eexists. rewrite E. split; [reflexivity|]. intros d.
  unfold store_getAll, in_key_order. rewrite Hp, Hrec.
  apply filter_date_sort.
  eapply Permutation_Forall; [|exact Hdated].
  symmetry. pose proof (store_getAll_perm {| keyPath := "id";
    records := collection STORE_ENTRIES db |}) as H. exact H.
Qed.

Lemma getAllEntries_keeps_ties_in_key_order_witness :
  exists l,
    fst (getAllEntries healthy sample_db) = Resolved l
    /\ forall d,
         filter (has_date d) l
         = filter (has_date d) (in_key_order "id" (collection STORE_ENTRIES sample_db)).
Proof.
  apply (getAllEntries_keeps_ties_in_key_order healthy sample_db);
    [exact db_ok_sample | exact dated_sample | reflexivity | reflexivity].
Defined.

(** * The entry editor *)

Lemma or_string_nonempty (s fallback : string) :
  fallback <> EmptyString -> or_string s fallback <> EmptyString.
Proof.
  intros Hf. unfold or_string.
  destruct (String.eqb_spec s EmptyString); assumption.
Qed.

Lemma or_string_same (s fallback : string) :
  s <> EmptyString -> or_string s fallback = s.
Proof.
  intros Hs. unfold or_string.
  destruct (String.eqb_spec s EmptyString); [contradiction | reflexivity].
Qed.

(** X14.  [handleSave] refuses to save exactly when the title and the
    content are both blank.  Otherwise, whatever was edited, the entry
    it hands over has a title that is not empty, the time of the save as
    [updatedAt], and the [id] and the [date] of the entry being edited
    when that entry has them (a non-empty [id], a [date] other than 0). *)
Theorem handleSave_validates_and_keeps_identity
    (initialEntry : option Entry) (uuid : string) (now now' : Z)
    (st : EntryEditor.State) :
  (EntryEditor.handleSave initialEntry uuid now now' st = None
   <-> blank (EntryEditor.title st) = true /\ blank (EntryEditor.content st) = true)
  /\ forall e,
       EntryEditor.handleSave initialEntry uuid now now' st = Some e ->
       title e <> EmptyString /\ updatedAt e = now'
       /\ forall e0, initialEntry = Some e0 ->
                     (id e0 <> EmptyString -> id e = id e0)
                     /\ (date e0 <> 0%Z -> date e = date e0).
Proof.
  unfold EntryEditor.handleSave. split.
  - destruct (blank (EntryEditor.title st)), (blank (EntryEditor.content st));
      cbn [andb]; split; intros H; try discriminate; auto; destruct H; discriminate.
  - intros e.
    destruct (blank (EntryEditor.title st) && blank (EntryEditor.content st));
      [discriminate|].
    intros [= <-]. cbn [title updatedAt id date].
    split; [apply or_string_nonempty; discriminate|]. split; [reflexivity|].
    intros e0 ->. destruct e0 as [i t c d u m tg cat fav prv img a dr lo].
    cbn [id date]. split.
    + intros Hi. now apply or_string_same.
    + intros Hd. apply Z.eqb_neq in Hd. now rewrite Hd.
Qed.

(** X15.  Opening the editor on an entry and saving without any edit
    hands over the same entry, field for field, but for [updatedAt],
    which is the time of the save, and [location], which the editor
    drops.  The entry has what the editor puts in itself: an [id], a
    [date], a title, a mood and a category that are not empty, and a
    title or a content that is not blank. *)
Theorem edit_without_change (e0 : Entry) (uuid : string) (now now' : Z) :
  id e0 <> EmptyString -> date e0 <> 0%Z -> title e0 <> EmptyString ->
  blank (title e0) && blank (content e0) = false ->
  mood e0 <> EmptyString -> category e0 <> EmptyString ->
  EntryEditor.handleSave (Some e0) uuid now now'
    (EntryEditor.initial_state (Some e0))
  = Some {| id := id e0; title := title e0; content := content e0;
            date := date e0; updatedAt := now'; mood := mood e0;
            tags := tags e0; category := category e0;
            isFavorite := isFavorite e0; isPrivate := isPrivate e0;
            images := images e0; audio := audio e0; drawing := drawing e0;
            location := None |}.
Proof.
  destruct e0 as [i t c d u m tg cat fav prv img a dr lo].
  cbn [id date title mood category content tags isFavorite isPrivate images
       audio drawing].
  intros Hi Hd Ht Hb Hm Hcat.
  unfold EntryEditor.handleSave, EntryEditor.initial_state.
  cbn [EntryEditor.title EntryEditor.content EntryEditor.mood EntryEditor.tags
       EntryEditor.category EntryEditor.isFavorite EntryEditor.isPrivate
       EntryEditor.images EntryEditor.audio EntryEditor.drawing].
  assert (Hc : or_string c EmptyString = c).
  { unfold or_string. now destruct (String.eqb_spec c EmptyString). }
  rewrite (or_string_same t EmptyString Ht), Hc, Hb.
  rewrite (or_string_same i uuid Hi), (or_string_same t _ Ht),
    (or_string_same m _ Hm), (or_string_same cat _ Hcat).
  apply Z.eqb_neq in Hd. now rewrite Hd.
Qed.

Lemma edit_without_change_witness :
  EntryEditor.handleSave (Some written_entry) "fresh" 500 501
    (EntryEditor.initial_state (Some written_entry))
  = Some {| id := id written_entry; title := title written_entry;
            content := content written_entry; date := date written_entry;
            updatedAt := 501; mood := mood written_entry;
            tags := tags written_entry; category := category written_entry;
            isFavorite := isFavorite written_entry;
            isPrivate := isPrivate written_entry;
            images := images written_entry; audio := audio written_entry;
            drawing := drawing written_entry; location := None |}.
Proof.
  apply (edit_without_change written_entry "fresh" 500 501);
    (discriminate || reflexivity).
Defined.

Lemma drop_spaces_snoc (l : list ascii) (c : ascii) :
  is_space c = false -> drop_spaces (l ++ [c]) <> [].
Proof.
  intros Hc. induction l as [|a l IH]; cbn; [now rewrite Hc|].
  destruct (is_space a); [exact IH | discriminate].
Qed.

Lemma drop_spaces_not_blank (l : list ascii) :
  forallb is_space l = false ->
  exists c rest, drop_spaces l = c :: rest /\ is_space c = false.
Proof.
  induction l as [|a l IH]; cbn; [discriminate|].
  destruct (is_space a) eqn:E; cbn; [exact IH|].
  intros _. now exists a, l.
Qed.

(** Trimming a string that is not blank leaves something. *)
Lemma trim_not_blank (s : string) :
  blank s = false -> trim s <> EmptyString.
Proof.
  unfold blank, trim. intros H.
  destruct (drop_spaces_not_blank _ H) as (c & rest & -> & Hc).
  cbn [rev].
  pose proof (drop_spaces_snoc (rev rest) c Hc) as Hne.
  destruct (drop_spaces (rev rest ++ [c])) as [|x l] eqn:E; [contradiction|].
  cbn [rev]. intros Hs.
  apply (f_equal list_ascii_of_string) in Hs.
  rewrite list_ascii_of_string_of_list_ascii in Hs. cbn in Hs.
  destruct (rev l); discriminate.
Qed.

Lemma keep_other_tags (t : string) (l : list string) :
  ~ In t l -> filter (fun tag => negb (String.eqb tag t)) l = l.
Proof.
  induction l as [|x l IH]; cbn; [reflexivity|]. intros H.
  destruct (String.eqb x t) eqn:E.
  - apply String.eqb_eq in E. exfalso. apply H. now left.
  - cbn. rewrite IH; [reflexivity|]. intros Hin. apply H. now right.
Qed.

Lemma addTag_acts (key : string) (st : EntryEditor.State) :
  String.eqb key "Enter" && negb (blank (EntryEditor.newTag st)) = true
  <-> key = "Enter" /\ blank (EntryEditor.newTag st) = false.
Proof.
  rewrite andb_true_iff, String.eqb_eq, negb_true_iff. reflexivity.
Qed.

(** X16.  The tag handlers, on tags that are pairwise different and not
    empty.  [addTag] does something only for the key Enter with a text
    that is not blank: then the trimmed text is a tag afterwards, added
    last if it was none, and the input is cleared.  The tags after
    [addTag] are the tags before and, in that case, the trimmed text;
    they are still pairwise different and not empty, and nothing else
    of the state changes.  The button of the tag [t] removes [t] and
    keeps the other tags in their order. *)
Theorem tag_handlers_keep_tags_distinct (key t : string) (st : EntryEditor.State) :
  tags_ok (EntryEditor.tags st) ->
  tags_ok (EntryEditor.tags (EntryEditor.addTag key st))
  /\ (forall u,
        In u (EntryEditor.tags (EntryEditor.addTag key st))
        <-> In u (EntryEditor.tags st)
            \/ (key = "Enter" /\ blank (EntryEditor.newTag st) = false
                /\ u = trim (EntryEditor.newTag st)))
  /\ (exists added,
        EntryEditor.tags (EntryEditor.addTag key st)
        = EntryEditor.tags st ++ added)
  /\ (key = "Enter" -> blank (EntryEditor.newTag st) = false ->
      EntryEditor.newTag (EntryEditor.addTag key st) = EmptyString)
  /\ (key <> "Enter" \/ blank (EntryEditor.newTag st) = true ->
      EntryEditor.addTag key st = st)
  /\ EntryEditor.setNewTag (EntryEditor.newTag st)
       (EntryEditor.setTags (EntryEditor.tags st) (EntryEditor.addTag key st))
     = st
  /\ tags_ok (EntryEditor.tags (EntryEditor.removeTag t st))
  /\ (forall u,
        In u (EntryEditor.tags (EntryEditor.removeTag t st))
        <-> In u (EntryEditor.tags st) /\ u <> t)
  /\ (forall before after,
        EntryEditor.tags st = before ++ t :: after ->
        EntryEditor.tags (EntryEditor.removeTag t st) = before ++ after)
  /\ EntryEditor.setTags (EntryEditor.tags st) (EntryEditor.removeTag t st) = st.
Proof.
  intros [Hnd Hne].
  split; [|split; [|split; [|split; [|split; [|split; [|split; [|split;
    [|split]]]]]]]].
  - unfold EntryEditor.addTag.
    destruct (String.eqb key "Enter" && negb (blank (EntryEditor.newTag st)))
      eqn:E; [|now split].
    cbn [EntryEditor.tags]. apply (addTag_acts key st) in E as [_ Hb].
    destruct (includes (trim (EntryEditor.newTag st)) (EntryEditor.tags st))
      eqn:Ei; [now split|]. split.
    + apply NoDup_app; [exact Hnd | repeat constructor; intros [] |].
      intros x Hx [Heq | []]. unfold includes in Ei.
      assert (existsb (String.eqb x) (EntryEditor.tags st) = true);
        [|congruence].
      apply existsb_exists. exists x. split; [exact Hx | apply String.eqb_refl].
    + apply Forall_app. split; [exact Hne|].
      constructor; [now apply trim_not_blank | constructor].
  - intros u. unfold EntryEditor.addTag.
    destruct (String.eqb key "Enter" && negb (blank (EntryEditor.newTag st)))
      eqn:E.
    + apply (addTag_acts key st) in E as [Hkey Hb]. cbn [EntryEditor.tags].
      destruct (includes (trim (EntryEditor.newTag st)) (EntryEditor.tags st))
        eqn:Ei.
      * split; [now left|]. intros [Hin | (_ & _ & ->)]; [exact Hin|].
        unfold includes in Ei. apply existsb_exists in Ei as (x & Hx & Ex).
        apply String.eqb_eq in Ex. now subst x.
      * rewrite in_app_iff. cbn [In]. split.
        -- intros [Hin | [<- | []]]; [now left | now right].
        -- intros [Hin | (_ & _ & ->)]; [now left | right; now left].
    + split; [now left|]. intros [Hin | (Hkey & Hb & _)]; [exact Hin|].
      assert (true = false); [|discriminate].
      rewrite <- E. symmetry. now apply (addTag_acts key st).
  - unfold EntryEditor.addTag.
    destruct (String.eqb key "Enter" && negb (blank (EntryEditor.newTag st)));
      [|exists []; now rewrite List.app_nil_r].
    cbn [EntryEditor.tags].
    destruct (includes (trim (EntryEditor.newTag st)) (EntryEditor.tags st));
      [exists []; now rewrite List.app_nil_r | now eexists].
  - intros Hkey Hb. unfold EntryEditor.addTag.
    now rewrite (proj2 (addTag_acts key st) (conj Hkey Hb)).
  - intros Hnot. unfold EntryEditor.addTag.
    destruct (String.eqb key "Enter" && negb (blank (EntryEditor.newTag st)))
      eqn:E; [|reflexivity].
    apply (addTag_acts key st) in E as [Hkey Hb]. destruct Hnot; congruence.
  - unfold EntryEditor.addTag.
    destruct (String.eqb key "Enter" && negb (blank (EntryEditor.newTag st)));
      now destruct st.
  - cbn [EntryEditor.removeTag EntryEditor.tags]. split.
    + now apply NoDup_filter.
    + rewrite Forall_forall in *. intros x Hx.
      apply filter_In in Hx as [Hx _]. now apply Hne.
  - intros u. cbn [EntryEditor.removeTag EntryEditor.tags].
    rewrite filter_In, negb_true_iff, String.eqb_neq. reflexivity.
  - intros before after E. cbn [EntryEditor.removeTag EntryEditor.tags].
    rewrite E in Hnd |- *. apply NoDup_remove_2 in Hnd.
    rewrite filter_app. cbn [filter]. rewrite String.eqb_refl. cbn [negb].
    rewrite !keep_other_tags; [reflexivity | |];
      intros Hin; apply Hnd, in_or_app; [now right | now left].
  - now destruct st.
Qed.

Lemma tag_handlers_keep_tags_distinct_witness :
  EntryEditor.tags typing_a_tag = ["trip"]
  /\ In "sea" (EntryEditor.tags (EntryEditor.addTag "Enter" typing_a_tag))
  /\ tags_ok (EntryEditor.tags (EntryEditor.addTag "Enter" typing_a_tag))
  /\ EntryEditor.newTag (EntryEditor.addTag "Enter" typing_a_tag) = EmptyString
  /\ EntryEditor.tags (EntryEditor.removeTag "trip" typing_a_tag) = [].
Proof.
  destruct (tag_handlers_keep_tags_distinct "Enter" "trip" typing_a_tag)
    as (Hok & Hin & _ & Hcleared & _ & _ & _ & _ & Hremoved & _).
  - split; repeat constructor; cbn; intuition discriminate.
  - split; [reflexivity|]. split.
    + apply Hin. right. repeat split.
    + split; [exact Hok|]. split; [now apply Hcleared|].
      exact (Hremoved [] [] eq_refl).
Defined.

(** ** The application: App.tsx over the persistence layer *)

Lemma getAllEntries_listing (eng : Engine) (db : IDBDatabase) :
  db_ok db -> open_fails eng = false -> request_fails eng 0 = false ->
  fst (getAllEntries eng db) = Resolved (listing db)
  /\ listing (snd (getAllEntries eng db)) = listing db
  /\ db_ok (snd (getAllEntries eng db)).
Proof.
  intros Hok Ho Hr.
  destruct (getAllEntries_open eng db Hok Ho Hr) as (db1 & se & Hp & Hrec & E).
  split; [|split].
  - rewrite E. cbn [fst]. unfold listing, in_key_order, store_getAll.
    now rewrite Hp, Hrec.
  - unfold listing. now rewrite getAllEntries_reads_only.
  - now apply getAllEntries_ok.
Qed.

Lemma listing_perm (db : IDBDatabase) :
  Permutation (listing db) (collection STORE_ENTRIES db).
Proof.
  unfold listing. rewrite sort_perm. unfold in_key_order.
  induction (collection STORE_ENTRIES db) as [|v l IH]; cbn; [reflexivity|].
  rewrite insert_by_key_perm. now constructor.
Qed.

(** Of the records of a permuted list, the same ones pass a test. *)
Lemma filter_listing (test : json -> bool) (l1 l2 : list json) (v : json) :
  Permutation l1 l2 -> filter test l2 = [v] -> filter test l1 = [v].
Proof.
  intros Hp E.
  assert (Hf : Permutation (filter test l1) (filter test l2)).
  { clear E. induction Hp as [|x l l' Hp IH|x y l|l l' l'' H1 IH1 H2 IH2]; cbn.
    - reflexivity.
    - destruct (test x); [now constructor | exact IH].
    - destruct (test x), (test y); try reflexivity. apply perm_swap.
    - now transitivity (filter test l'). }
  rewrite E in Hf. now apply Permutation_length_1_inv, Permutation_sym.
Qed.

(** X17.  [handleSaveEntry] shows what is stored: when the save and the
    read that follows succeed, the list on screen is the listing of the
    database after the save, it holds the saved entry and no other
    record with its id, and the editor is left for the home view. *)
Theorem handleSaveEntry_shows_saved_entry
    (e : Entry) (engS engL : Engine) (st : App.State) (db : IDBDatabase) :
  db_ok db -> works engS ->
  open_fails engL = false -> request_fails engL 0 = false ->
  App.entries (fst (App.handleSaveEntry e engS engL st db))
  = listing (snd (App.handleSaveEntry e engS engL st db))
  /\ filter (has_key "id" (KStr (id e)))
       (App.entries (fst (App.handleSaveEntry e engS engL st db)))
     = [entry_to_json e]
  /\ App.view (fst (App.handleSaveEntry e engS engL st db)) = "home"
  /\ App.editingEntry (fst (App.handleSaveEntry e engS engL st db)) = None.
Proof.
  intros Hok Hw Ho Hr.
  destruct (saveEntry_works e engS db Hok Hw) as [Hres Hcol].
  pose proof (saveEntry_ok e engS db Hok) as Hok1.
  unfold App.handleSaveEntry.
  destruct (saveEntry e engS db) as [r db1]. cbn [fst snd] in *. subst r.
  destruct (getAllEntries_listing engL db1 Hok1 Ho Hr) as (Hl & Hsame & _).
  destruct (getAllEntries engL db1) as [r db2]. cbn [fst snd] in *. subst r.
  cbn [fst snd App.showToast App.entries App.view App.editingEntry].
  split; [now rewrite Hsame|]. split; [|now split].
  apply filter_listing with (collection STORE_ENTRIES db1);
    [apply listing_perm|].
  rewrite Hcol. apply filter_upsert; [apply key_of_entry|].
  now apply db_ok_entries_unique.
Qed.

Lemma handleSaveEntry_shows_saved_entry_witness :
  filter (has_key "id" (KStr "e1"))
    (App.entries
       (fst (App.handleSaveEntry written_entry healthy healthy
               (App.initial false) sample_db)))
  = [entry_to_json written_entry].
Proof.
  apply (handleSaveEntry_shows_saved_entry written_entry healthy healthy
           (App.initial false) sample_db).
  - exact db_ok_sample.
  - exact works_healthy.
  - reflexivity.
  - reflexivity.
Defined.

(** What [init] loads when the database opens and the entries can be
    read. *)
Lemma init_loaded (engE engS : Engine) (st : App.State) (db : IDBDatabase) :
  db_ok db -> open_fails engE = false -> request_fails engE 0 = false ->
  open_fails engS = false ->
  exists loaded,
    loaded = (if request_fails engS 0 then JObj []
              else match stored_settings db with
                   | Some stored => stored
                   | None => defaultSettings
                   end)
    /\ App.entries (fst (App.init engE engS st db)) = listing db
    /\ App.settings (fst (App.init engE engS st db)) = Some loaded
    /\ App.isLoading (fst (App.init engE engS st db)) = false
    /\ App.isLocked (fst (App.init engE engS st db))
       = (if truthy (get_prop loaded "securityEnabled") then App.isLocked st
          else false)
    /\ App.dark (fst (App.init engE engS st db))
       = is_the_string (get_prop loaded "theme") "dark"
    /\ App.pinInput (fst (App.init engE engS st db)) = App.pinInput st.
Proof.
  intros Hok HoE HrE HoS.
  destruct (getAllEntries_listing engE db Hok HoE HrE) as (Hl & _ & Hok1).
  pose proof (getAllEntries_reads_only STORE_SETTINGS engE db) as Hcol.
  unfold App.init.
  destruct (getAllEntries engE db) as [r db1]. cbn [fst snd] in Hl, Hok1, Hcol.
  subst r.
  pose proof (getSettings_value engS db1 Hok1 HoS) as Hs.
  assert (Hst : stored_settings db1 = stored_settings db)
    by (unfold stored_settings; now rewrite Hcol).
  rewrite Hst in Hs.
  destruct (getSettings engS db1) as [r db2]. cbn [fst] in Hs. subst r.
  eexists. split; [reflexivity|].
  cbn [fst App.setIsLoading App.entries App.settings App.isLoading
       App.isLocked App.dark App.pinInput].
  repeat (split; [reflexivity|]). split; [|now split].
  now destruct (truthy _).
Qed.

(** X18.  The lock of a start: when the stored settings have the lock
    enabled, the application starts locked, and [handleUnlock] opens it
    exactly when the text typed is the stored PIN.  With no PIN stored
    (the [pin] is [null] until one is typed in the settings) no text
    opens it. *)
Theorem unlock_needs_the_stored_pin
    (engE engS : Engine) (db : IDBDatabase) (stored : json) (typed : string) :
  db_ok db ->
  open_fails engE = false -> request_fails engE 0 = false ->
  open_fails engS = false -> request_fails engS 0 = false ->
  stored_settings db = Some stored ->
  truthy (get_prop stored "securityEnabled") = true ->
  App.isLocked (started engE engS db) = true
  /\ (App.isLocked
        (App.handleUnlock (App.setPinInput typed (started engE engS db)))
      = false
      <-> get_prop stored "pin" = Some (JStr typed))
  /\ App.pinInput
       (App.handleUnlock (App.setPinInput typed (started engE engS db)))
     = EmptyString.
Proof.
  intros Hok HoE HrE HoS HrS Hst Hsec. unfold started.
  destruct (init_loaded engE engS (App.initial false) db Hok HoE HrE HoS)
    as (loaded & El & _ & Hset & _ & Hlock & _).
  rewrite HrS, Hst in El. subst loaded. rewrite Hsec in Hlock.
  split; [exact Hlock|].
  unfold App.handleUnlock.
  cbn [App.setPinInput App.settings App.pinInput App.isLocked].
  rewrite Hset, Hlock. unfold is_the_string.
  destruct (get_prop stored "pin") as [[| | |p| |]|];
    cbn [App.isLocked App.pinInput];
    try (split; [split; [discriminate | discriminate] | reflexivity]).
  destruct (String.eqb p typed) eqn:E; cbn [App.isLocked App.pinInput].
  - apply String.eqb_eq in E. subst p. now split.
  - apply String.eqb_neq in E. split; [|reflexivity].
    split; [discriminate | congruence].
Qed.

Lemma unlock_needs_the_stored_pin_witness :
  App.isLocked (started healthy healthy locked_db) = true
  /\ (App.isLocked
        (App.handleUnlock (App.setPinInput "1234" (started healthy healthy locked_db)))
      = false
      <-> get_prop (settings_to_json locked_settings) "pin" = Some (JStr "1234")).
Proof.
  destruct (unlock_needs_the_stored_pin healthy healthy locked_db
              (settings_to_json locked_settings) "1234")
    as (Hlocked & Hopens & _).
  - apply db_ok_after. exact db_ok_sample.
  - reflexivity.
  - reflexivity.
  - reflexivity.
  - reflexivity.
  - vm_compute. reflexivity.
  - reflexivity.
  - split; [exact Hlocked | exact Hopens].
Defined.

(** X19.  A failed read of the settings skips the lock: [getSettings]
    then resolves with the empty object, whose [securityEnabled] is
    [undefined], so the application starts unlocked whatever settings
    are stored, and it holds the empty object as its settings. *)
Theorem failed_settings_read_skips_the_lock
    (engE engS : Engine) (st : App.State) (db : IDBDatabase) :
  db_ok db ->
  open_fails engE = false -> request_fails engE 0 = false ->
  open_fails engS = false -> request_fails engS 0 = true ->
  App.isLocked (fst (App.init engE engS st db)) = false
  /\ App.settings (fst (App.init engE engS st db)) = Some (JObj [])
  /\ App.entries (fst (App.init engE engS st db)) = listing db
  /\ App.toast (fst (App.init engE engS st db)) = App.toast st.
Proof.
  intros Hok HoE HrE HoS HrS.
  destruct (init_loaded engE engS st db Hok HoE HrE HoS)
    as (loaded & El & Hent & Hset & _ & Hlock & _).
  rewrite HrS in El. subst loaded. cbn in Hlock.
  split; [exact Hlock|]. split; [exact Hset|]. split; [exact Hent|].
  destruct (getAllEntries_listing engE db Hok HoE HrE) as (Hl & _ & Hok1).
  unfold App.init.
  destruct (getAllEntries engE db) as [r db1]. cbn [fst snd] in Hl, Hok1.
  subst r.
  pose proof (getSettings_value engS db1 Hok1 HoS) as Hs.
  destruct (getSettings engS db1) as [r db2]. cbn [fst] in Hs. subst r.
  reflexivity.
Qed.

Lemma failed_settings_read_skips_the_lock_witness :
  stored_settings locked_db = Some (settings_to_json locked_settings)
  /\ App.isLocked (fst (App.init healthy read_error (App.initial false) locked_db))
     = false.
Proof.
  split; [vm_compute; reflexivity|].
  apply (failed_settings_read_skips_the_lock healthy read_error
           (App.initial false) locked_db).
  - apply db_ok_after. exact db_ok_sample.
  - reflexivity.
  - reflexivity.
  - reflexivity.
  - reflexivity.
Defined.

(** *** The order of keys *)

Lemma string_compare_lt_trans (a b c : string) :
  String.compare a b = Lt -> String.compare b c = Lt -> String.compare a c = Lt.
Proof.
  revert b c. induction a as [|x a IH]; intros [|y b] [|z c]; cbn;
    try discriminate; try reflexivity.
  unfold Ascii.compare.
  destruct (N.compare_spec (N_of_ascii x) (N_of_ascii y)) as [Exy|Lxy|Gxy];
    try discriminate;
    destruct (N.compare_spec (N_of_ascii y) (N_of_ascii z)) as [Eyz|Lyz|Gyz];
    try discriminate; intros Hab Hbc.
  - rewrite Exy, Eyz, N.compare_refl. now apply IH with b.
  - rewrite Exy. now apply N.compare_lt_iff in Lyz as ->.
  - rewrite <- Eyz. now apply N.compare_lt_iff in Lxy as ->.
  - assert (H : (N_of_ascii x < N_of_ascii z)%N) by lia.
    now apply N.compare_lt_iff in H as ->.
Qed.

Lemma key_compare_antisym (a b : key) :
  key_compare b a = CompOpp (key_compare a b).
Proof.
  revert b. induction a as [x | x | xs IH] using key_nested_ind;
    intros [y | y | ys]; cbn [key_compare CompOpp]; try reflexivity.
  - apply Z.compare_antisym.
  - apply String.compare_antisym.
  - revert ys. induction IH as [|x xs Hx Hxs IHxs]; intros [|y ys];
      try reflexivity.
    rewrite Hx. destruct (key_compare x y); cbn [CompOpp]; auto.
Qed.

Lemma key_compare_eq (a b : key) : key_compare a b = Eq -> a = b.
Proof.
  revert b. induction a as [x | x | xs IH] using key_nested_ind;
    intros [y | y | ys]; cbn [key_compare]; try discriminate.
  - intros H. apply Z.compare_eq in H. congruence.
  - intros H. apply String.compare_eq_iff in H. congruence.
  - intros H. f_equal. revert ys H.
    induction IH as [|x xs Hx Hxs IHxs]; intros [|y ys]; try discriminate;
      [reflexivity|].
    destruct (key_compare x y) eqn:E; try discriminate.
    intros H. apply Hx in E. apply IHxs in H. congruence.
Qed.

Lemma key_compare_refl (a : key) : key_compare a a = Eq.
Proof.
  pose proof (key_compare_antisym a a) as H.
  destruct (key_compare a a); cbn in H; congruence.
Qed.

Lemma key_compare_lt_trans (a b c : key) :
  key_compare a b = Lt -> key_compare b c = Lt -> key_compare a c = Lt.
Proof.
  revert b c. induction a as [x | x | xs IH] using key_nested_ind;
    intros [y | y | ys] [z | z | zs]; cbn [key_compare];
    try discriminate; try reflexivity.
  - rewrite !Z.compare_lt_iff. lia.
  - apply string_compare_lt_trans.
  - revert ys zs. induction IH as [|x xs Hx Hxs IHxs];
      intros [|y ys] [|z zs]; try discriminate; try reflexivity.
    destruct (key_compare x y) eqn:Exy; try discriminate;
      destruct (key_compare y z) eqn:Eyz; try discriminate; intros Hab Hbc.
    + apply key_compare_eq in Exy, Eyz. subst y z.
      rewrite key_compare_refl. now apply IHxs with ys.
    + apply key_compare_eq in Exy. subst y. now rewrite Eyz.
    + apply key_compare_eq in Eyz. subst z. now rewrite Exy.
    + now rewrite (Hx y z Exy Eyz).
Qed.

Lemma key_compare_le_trans (a b c : key) :
  key_compare a b <> Gt -> key_compare b c <> Gt -> key_compare a c <> Gt.
Proof.
  intros Hab Hbc.
  destruct (key_compare a b) eqn:Eab; [| |congruence].
  - apply key_compare_eq in Eab. now subst b.
  - destruct (key_compare b c) eqn:Ebc; [| |congruence].
    + apply key_compare_eq in Ebc. subst c. now rewrite Eab.
    + now rewrite (key_compare_lt_trans a b c Eab Ebc).
Qed.

Lemma key_before_trans (path : string) (x y z : json) :
  key_before path x y -> key_before path y z -> key_before path x z.
Proof.
  intros (kx & ky & Hx & Hy & Hxy) (ky' & kz & Hy' & Hz & Hyz).
  rewrite Hy in Hy'. injection Hy' as <-.
  exists kx, kz. repeat split; auto. now apply key_compare_le_trans with ky.
Qed.

(** *** [getAll] reads in key order, and a filter keeps that order *)

Lemma insert_by_key_sorted (path : string) (a : json) (l : list json) :
  keyed path a -> Forall (keyed path) l ->
  StronglySorted (key_before path) l ->
  StronglySorted (key_before path) (insert_by_key path a l).
Proof.
  intros [ka Ha] Hl Hs. induction Hs as [|w l Hs IH Hw]; cbn.
  - repeat constructor.
  - inversion Hl as [|? ? [kw Hkw] Hl']; subst. rewrite Ha, Hkw.
    assert (Hfront : key_compare ka kw <> Gt ->
                     StronglySorted (key_before path) (a :: w :: l)).
    { intros Hle.
      assert (Haw : key_before path a w) by (exists ka, kw; auto).
      constructor; [now constructor|].
      constructor; [exact Haw|].
      rewrite Forall_forall in *. intros u Hu.
      apply key_before_trans with w; auto. }
    destruct (key_compare ka kw) eqn:E;
      try (apply Hfront; congruence).
    constructor; [now apply IH|].
    eapply Permutation_Forall; [symmetry; apply insert_by_key_perm|].
    constructor; [|exact Hw].
    exists kw, ka. repeat split; auto.
    rewrite (key_compare_antisym ka kw), E. discriminate.
Qed.

Lemma in_key_order_sorted (path : string) (l : list json) :
  Forall (keyed path) l -> StronglySorted (key_before path) (in_key_order path l).
Proof.
  unfold in_key_order. induction 1 as [|a l Ha Hl IH]; cbn; [constructor|].
  apply insert_by_key_sorted; auto.
  eapply Permutation_Forall; [|exact Hl].
  clear. induction l as [|v l IH]; cbn; [reflexivity|].
  rewrite insert_by_key_perm. now constructor.
Qed.

Lemma insert_by_key_first (path : string) (a : json) (l : list json) :
  Forall (key_before path a) l -> insert_by_key path a l = a :: l.
Proof.
  destruct l as [|w l]; [reflexivity|]. intros H.
  inversion H as [|? ? (ka & kw & Ha & Hw & Hle) _]; subst. cbn.
  rewrite Ha, Hw. now destruct (key_compare ka kw).
Qed.

Lemma filter_insert_by_key (path : string) (test : json -> bool)
    (a : json) (l : list json) :
  keyed path a -> Forall (keyed path) l ->
  StronglySorted (key_before path) l ->
  filter test (insert_by_key path a l)
  = if test a then insert_by_key path a (filter test l) else filter test l.
Proof.
  intros [ka Ha] Hl Hs. induction Hs as [|w l Hs IH Hw].
  - cbn. now destruct (test a).
  - inversion Hl as [|? ? [kw Hkw] Hl']; subst.
    cbn [insert_by_key]. rewrite Ha, Hkw.
    assert (Hfront : key_compare ka kw <> Gt ->
                     filter test (a :: w :: l)
                     = if test a then insert_by_key path a (filter test (w :: l))
                       else filter test (w :: l)).
    { intros Hle. cbn [filter]. destruct (test a); [|reflexivity].
      symmetry. apply insert_by_key_first.
      assert (Haw : key_before path a w) by (exists ka, kw; auto).
      assert (Hall : Forall (key_before path a) (w :: l)).
      { constructor; [exact Haw|]. rewrite Forall_forall in *. intros u Hu.
        apply key_before_trans with w; auto. }
      change (Forall (key_before path a) (filter test (w :: l))).
      rewrite Forall_forall in *. intros u Hu.
      apply filter_In in Hu as [Hu _]. now apply Hall. }
    destruct (key_compare ka kw) eqn:E; try (apply Hfront; congruence).
    cbn [filter]. rewrite (IH Hl').
    destruct (test w), (test a); try reflexivity.
    cbn [insert_by_key]. now rewrite Ha, Hkw, E.
Qed.

Lemma filter_in_key_order (path : string) (test : json -> bool) (l : list json) :
  Forall (keyed path) l ->
  filter test (in_key_order path l) = in_key_order path (filter test l).
Proof.
  induction 1 as [|a l Ha Hl IH]; [reflexivity|].
  change (in_key_order path (a :: l))
    with (insert_by_key path a (in_key_order path l)).
  rewrite filter_insert_by_key; auto.
  - cbn [filter]. rewrite IH. now destruct (test a).
  - eapply Permutation_Forall; [|exact Hl].
    clear. unfold in_key_order. induction l as [|v l IH]; cbn; [reflexivity|].
    rewrite insert_by_key_perm. now constructor.
  - now apply in_key_order_sorted.
Qed.

(** *** The sort by date, and a filter *)

Lemma sort_insert_first (a : json) (l : list json) :
  Forall (not_older a) l -> sort_insert by_date_descending a l = a :: l.
Proof.
  destruct l as [|b l]; [reflexivity|]. intros H.
  inversion H as [|? ? (x & y & Ha & Hb & Hle) _]; subst. cbn.
  rewrite (by_date_descending_dates a b x y Ha Hb).
  destruct (0 <? y - x)%Z eqn:E; [|reflexivity].
  apply Z.ltb_lt in E. lia.
Qed.

Lemma filter_sort_insert (test : json -> bool) (a : json) (l : list json) :
  dated a -> Forall dated l -> StronglySorted not_older l ->
  filter test (sort_insert by_date_descending a l)
  = if test a then sort_insert by_date_descending a (filter test l)
    else filter test l.
Proof.
  intros [x Ha] Hl Hs. induction Hs as [|b l Hs IH Hb].
  - cbn. now destruct (test a).
  - inversion Hl as [|? ? [y Hy] Hl']; subst.
    cbn [sort_insert]. rewrite (by_date_descending_dates a b x y Ha Hy).
    destruct (0 <? y - x)%Z eqn:E.
    + cbn [filter]. rewrite (IH Hl').
      destruct (test b), (test a); try reflexivity.
      cbn [sort_insert]. now rewrite (by_date_descending_dates a b x y Ha Hy), E.
    + apply Z.ltb_ge in E. cbn [filter]. destruct (test a); [|reflexivity].
      symmetry. apply sort_insert_first.
      assert (Hall : Forall (not_older a) (b :: l)).
      { constructor; [exists x, y; repeat split; auto; lia|].
        rewrite Forall_forall in *. intros u Hu.
        destruct (Hb u Hu) as (y' & z & Hy' & Hz & Hle).
        rewrite Hy in Hy'. injection Hy' as <-.
        exists x, z. repeat split; auto. lia. }
      change (Forall (not_older a) (filter test (b :: l))).
      rewrite Forall_forall in *. intros u Hu.
      apply filter_In in Hu as [Hu _]. now apply Hall.
Qed.

Lemma filter_sort (test : json -> bool) (l : list json) :
  Forall dated l ->
  filter test (sort by_date_descending l)
  = sort by_date_descending (filter test l).
Proof.
  induction 1 as [|a l Ha Hl IH]; [reflexivity|].
  change (sort by_date_descending (a :: l))
    with (sort_insert by_date_descending a (sort by_date_descending l)).
  rewrite filter_sort_insert; auto.
  - cbn [filter]. rewrite IH. now destruct (test a).
  - eapply Permutation_Forall; [symmetry; apply sort_perm | exact Hl].
  - now apply sort_sorted.
Qed.

(** [e.id !== id] is the test by which the store deletes: a record goes
    exactly when its key is the string [id]. *)
Lemma id_test_is_key_test (i : string) (v : json) :
  is_the_string (get_prop v "id") i = has_key "id" (KStr i) v.
Proof.
  unfold is_the_string, has_key, key_of.
  destruct (get_prop v "id") as [[| | |s|items|]|]; try reflexivity.
  cbn [to_key]. destruct (_ items); reflexivity.
Qed.

Lemma listing_filter (test : json -> bool) (db db' : IDBDatabase) :
  db_ok db -> Forall dated (collection STORE_ENTRIES db) ->
  collection STORE_ENTRIES db' = filter test (collection STORE_ENTRIES db) ->
  listing db' = filter test (listing db).
Proof.
  intros Hok Hd E. unfold listing. rewrite E.
  assert (Hk : Forall (keyed "id") (collection STORE_ENTRIES db)).
  { unfold collection.
    destruct (objectStore STORE_ENTRIES db) as [s|] eqn:Es; [|constructor].
    destruct Hok as (_ & _ & He & _). destruct (He s Es) as [Hp [Hall _]].
    rewrite Hp in Hall. eapply Forall_impl; [|exact Hall]. now intros v [H _]. }
  rewrite <- filter_in_key_order by exact Hk.
  rewrite filter_sort; [reflexivity|].
  eapply Permutation_Forall; [|exact Hd].
  clear. unfold in_key_order.
  induction (collection STORE_ENTRIES db) as [|v l IH]; cbn; [reflexivity|].
  rewrite insert_by_key_perm. now constructor.
Qed.

(** X20.  [handleDeleteEntry] filters the list on screen instead of
    reading it again, and the two agree: when the list was the listing
    of the database and the delete succeeds, the filtered list is the
    listing of the database after the delete, in the same order, with
    no record of the deleted id.  Without the confirmation nothing
    changes. *)
Theorem handleDeleteEntry_matches_database
    (i : string) (eng : Engine) (st : App.State) (db : IDBDatabase) :
  db_ok db -> works eng ->
  Forall dated (collection STORE_ENTRIES db) ->
  App.entries st = listing db ->
  App.entries (fst (App.handleDeleteEntry true i eng st db))
  = listing (snd (App.handleDeleteEntry true i eng st db))
  /\ filter (has_key "id" (KStr i))
       (App.entries (fst (App.handleDeleteEntry true i eng st db))) = []
  /\ App.handleDeleteEntry false i eng st db = (st, db).
Proof.
  intros Hok Hw Hd Hst.
  destruct (deleteEntry_works i eng db Hok Hw) as [Hres Hcol].
  unfold App.handleDeleteEntry.
  destruct (deleteEntry i eng db) as [r db1]. cbn [fst snd] in *. subst r.
  cbn [fst snd App.showToast App.entries].
  rewrite (listing_filter _ db db1 Hok Hd Hcol), Hst.
  split; [|split; [|reflexivity]].
  - apply filter_ext. intros v. now rewrite id_test_is_key_test.
  - clear. induction (listing db) as [|v l IH]; [reflexivity|]. cbn [filter].
    rewrite id_test_is_key_test.
    destruct (has_key "id" (KStr i) v) eqn:E; cbn [negb filter];
      [exact IH | now rewrite E].
Qed.

Lemma handleDeleteEntry_matches_database_witness :
  App.entries
    (fst (App.handleDeleteEntry true "b" healthy (started healthy healthy sample_db)
            sample_db))
  = listing
      (snd (App.handleDeleteEntry true "b" healthy (started healthy healthy sample_db)
              sample_db)).
Proof.
  apply (handleDeleteEntry_matches_database "b" healthy
           (started healthy healthy sample_db) sample_db).
  - exact db_ok_sample.
  - exact works_healthy.
  - exact dated_sample.
  - reflexivity.
Defined.

(** *** Settings: the merge of [updateSettings] and what is stored *)

Lemma saveSettings_value_works (value : json) (eng : Engine) (db : IDBDatabase) :
  db_ok db -> works eng ->
  collection STORE_SETTINGS (snd (saveSettings_value value eng db))
  = upsert "key" (KStr "appSettings")
      (JObj [("key", JStr "appSettings"); ("value", value)])
      (collection STORE_SETTINGS db).
Proof.
  intros Hok (Hopen & Hreq & Hcommit). unfold saveSettings_value, put_one.
  destruct (openDB_ok eng db Hok Hopen)
    as (db1 & se & ss & E & _ & _ & _ & _ & _ & Ess & Hp & _ & Hrec).
  rewrite E, Ess, Hp.
  change (key_of "key" (JObj [("key", JStr "appSettings"); ("value", value)]))
    with (Some (KStr "appSettings")).
  rewrite Hreq. unfold run_transaction.
  rewrite some_request_fails_works, Hcommit by exact Hreq.
  cbn [orb fold_left fst snd].
  rewrite (collection_commit_same _ _ ss) by exact Ess.
  unfold store_put. rewrite Hp.
  change (key_of "key" (JObj [("key", JStr "appSettings"); ("value", value)]))
    with (Some (KStr "appSettings")).
  cbn [records]. now rewrite Hrec.
Qed.

Lemma stored_settings_after_value (members : list (string * json))
    (eng : Engine) (db : IDBDatabase) :
  db_ok db -> works eng ->
  stored_settings (snd (saveSettings_value (JObj members) eng db))
  = Some (JObj members).
Proof.
  intros Hok Hworks. unfold stored_settings.
  rewrite (saveSettings_value_works _ eng db Hok Hworks).
  rewrite find_upsert_same by reflexivity. reflexivity.
Qed.

Lemma saveSettings_value_ok (value : json) (eng : Engine) (db : IDBDatabase) :
  db_ok db -> well_formed value = true ->
  db_ok (snd (saveSettings_value value eng db)).
Proof.
  intros Hok Hwf. apply put_one_ok; [exact Hok | now right|].
  cbn [well_formed map fst distinct existsb forallb]. cbn. now rewrite Hwf.
Qed.

Lemma lookup_set_prop (name k : string) (v : json) (m : list (string * json)) :
  lookup name (set_prop k v m)
  = if String.eqb k name then Some v else lookup name m.
Proof.
  induction m as [|[k' w] m IH]; cbn [set_prop lookup]; [reflexivity|].
  destruct (String.eqb k' k) eqn:E; cbn [lookup].
  - apply String.eqb_eq in E. subst k'. now destruct (String.eqb k name).
  - destruct (String.eqb k' name) eqn:E'; [|exact IH].
    apply String.eqb_eq in E'. subst k'.
    rewrite String.eqb_sym in E. now rewrite E.
Qed.

Lemma lookup_absent (name : string) (m : list (string * json)) :
  existsb (String.eqb name) (map fst m) = false -> lookup name m = None.
Proof.
  induction m as [|[k w] m IH]; cbn; [reflexivity|].
  rewrite String.eqb_sym. intros H. apply orb_false_iff in H as [-> H]. auto.
Qed.

(** A spread after another: the later object wins, name by name. *)
Lemma lookup_define_all (name : string) (raw acc : list (string * json)) :
  distinct (map fst raw) = true ->
  lookup name (JSON.define_all raw acc)
  = match lookup name raw with
    | Some v => Some v
    | None => lookup name acc
    end.
Proof.
  revert acc. induction raw as [|[k v] raw IH]; intros acc Hd;
    cbn [JSON.define_all lookup]; [reflexivity|].
  cbn [map fst distinct] in Hd. apply andb_true_iff in Hd as [Hk Hd].
  apply negb_true_iff in Hk.
  rewrite IH by exact Hd. rewrite lookup_set_prop.
  destruct (String.eqb k name) eqn:E; [|reflexivity].
  apply String.eqb_eq in E. subst k. now rewrite lookup_absent.
Qed.

Lemma distinct_indexed (i : N) (l : list json) :
  distinct (map fst (indexed i l)) = true.
Proof.
  assert (H : forall (l : list json) i (j : N), (j < i)%N ->
            existsb (String.eqb (JSON.print_N j)) (map fst (indexed i l)) = false).
  { clear. induction l as [|x l IH]; intros i j Hj; cbn; [reflexivity|].
    rewrite IH by lia. rewrite orb_false_r. apply String.eqb_neq.
    unfold JSON.print_N. intros E.
    apply (f_equal NilEmpty.uint_of_string) in E.
    rewrite !NilEmpty.usu in E. injection E as E.
    apply (f_equal N.of_uint) in E. rewrite !DecimalN.Unsigned.of_to in E. lia. }
  revert i. induction l as [|x l IH]; intros i; cbn; [reflexivity|].
  rewrite IH, H by lia. reflexivity.
Qed.

Lemma members_ok_indexed (i : N) (l : list json) :
  forallb well_formed l = true -> members_ok (indexed i l) = true.
Proof.
  revert i. unfold members_ok.
  induction l as [|x l IH]; intros i; cbn; [reflexivity|].
  intros H. apply andb_true_iff in H as [-> H]. now apply IH.
Qed.

Lemma spread_well_formed (v : json) :
  well_formed v = true ->
  distinct (map fst (spread (Some v))) = true
  /\ members_ok (spread (Some v)) = true.
Proof.
  destruct v as [| | |s|items|members]; cbn [spread well_formed];
    try (now split).
  - intros _. split; [apply distinct_indexed|].
    apply members_ok_indexed. apply forallb_forall. apply Forall_forall.
    apply well_formed_characters.
  - intros H. split; [apply distinct_indexed | now apply members_ok_indexed].
  - intros H. now apply andb_true_iff in H.
Qed.

Lemma updateSettings_result (partial s : json) (eng : Engine)
    (st : App.State) (db : IDBDatabase) :
  db_ok db -> works eng ->
  App.settings st = Some s -> truthy (Some s) = true ->
  well_formed s = true -> well_formed partial = true ->
  exists u,
    App.settings (fst (App.updateSettings partial eng st db)) = Some (JObj u)
    /\ stored_settings (snd (App.updateSettings partial eng st db))
       = Some (JObj u)
    /\ db_ok (snd (App.updateSettings partial eng st db))
    /\ forall name,
         lookup name u
         = match lookup name (spread (Some partial)) with
           | Some v => Some v
           | None => lookup name (spread (Some s))
           end.
Proof.
  intros Hok Hw Hs Ht Hwf Hwfp. unfold App.updateSettings.
  rewrite Hs, Ht, <- Hs. cbn [fst snd App.settings]. rewrite Hs.
  destruct (spread_well_formed s Hwf) as [Hds Hms].
  destruct (spread_well_formed partial Hwfp) as [Hdp Hmp].
  assert (Hin : well_formed (JObj (JSON.define_all (spread (Some s)) [])) = true)
    by now apply ParsedValues.well_formed_define_all.
  eexists. split; [reflexivity|]. split; [|split].
  - now apply stored_settings_after_value.
  - apply saveSettings_value_ok; [exact Hok|].
    cbn [well_formed] in Hin. apply andb_true_iff in Hin as [Hd Hm].
    now apply ParsedValues.well_formed_define_all.
  - intros name. rewrite !lookup_define_all by assumption.
    now destruct (lookup name (spread (Some s))).
Qed.

(** X21.  [updateSettings] merges and persists: the properties that the
    partial object names take its values and every other property keeps
    the value it had; when the save succeeds, what is stored is what the
    application holds, so the next start loads the same settings. *)
Theorem updateSettings_is_persisted
    (partial s : json) (eng engE engS : Engine)
    (st st0 : App.State) (db : IDBDatabase) (name : string) :
  db_ok db -> works eng ->
  App.settings st = Some s -> truthy (Some s) = true ->
  well_formed s = true -> well_formed partial = true ->
  open_fails engE = false -> request_fails engE 0 = false ->
  open_fails engS = false -> request_fails engS 0 = false ->
  App.settings
    (fst (App.init engE engS st0 (snd (App.updateSettings partial eng st db))))
  = App.settings (fst (App.updateSettings partial eng st db))
  /\ match App.settings (fst (App.updateSettings partial eng st db)) with
     | Some updated =>
         get_prop updated name
         = match lookup name (spread (Some partial)) with
           | Some v => Some v
           | None => lookup name (spread (Some s))
           end
     | None => False
     end.
Proof.
  intros Hok Hw Hs Ht Hwf Hwfp HoE HrE HoS HrS.
  destruct (updateSettings_result partial s eng st db Hok Hw Hs Ht Hwf Hwfp)
    as (u & Hu & Hst & Hok' & Hlook).
  destruct (init_loaded engE engS st0 _ Hok' HoE HrE HoS)
    as (loaded & El & _ & Hset & _).
  rewrite HrS, Hst in El. subst loaded.
  rewrite Hset, Hu. split; [reflexivity | apply Hlook].
Qed.

Lemma updateSettings_is_persisted_witness :
  App.settings
    (fst (App.init healthy healthy (App.initial false)
            (snd (App.updateSettings (JObj [("pin", JStr "4321")]) healthy
                    (started healthy healthy locked_db) locked_db))))
  = App.settings
      (fst (App.updateSettings (JObj [("pin", JStr "4321")]) healthy
              (started healthy healthy locked_db) locked_db)).
Proof.
  destruct (updateSettings_is_persisted (JObj [("pin", JStr "4321")])
              (settings_to_json locked_settings) healthy healthy healthy
              (started healthy healthy locked_db) (App.initial false) locked_db
              "pin") as [Hsame _].
  - apply db_ok_after. exact db_ok_sample.
  - exact works_healthy.
  - vm_compute. reflexivity.
  - reflexivity.
  - reflexivity.
  - reflexivity.
  - reflexivity.
  - reflexivity.
  - reflexivity.
  - reflexivity.
  - exact Hsame.
Defined.

(** X22.  A lock without a PIN cannot be opened.  [updateSettings] with
    [securityEnabled: true] stores the lock whether or not a PIN was
    ever typed; when the settings have no string as [pin] (the default
    is [null]), the next start is locked and [handleUnlock] refuses
    every text. *)
Theorem lock_without_pin_cannot_be_opened
    (s : json) (eng engE engS : Engine) (st : App.State) (db : IDBDatabase)
    (typed : string) :
  db_ok db -> works eng ->
  App.settings st = Some s -> truthy (Some s) = true ->
  well_formed s = true ->
  is_string (lookup "pin" (spread (Some s))) = false ->
  open_fails engE = false -> request_fails engE 0 = false ->
  open_fails engS = false -> request_fails engS 0 = false ->
  App.isLocked
    (started engE engS
       (snd (App.updateSettings (JObj [("securityEnabled", JBool true)])
               eng st db)))
  = true
  /\ App.isLocked
       (App.handleUnlock
          (App.setPinInput typed
             (started engE engS
                (snd (App.updateSettings (JObj [("securityEnabled", JBool true)])
                        eng st db)))))
     = true.
Proof.
  intros Hok Hw Hs Ht Hwf Hpin HoE HrE HoS HrS. unfold started.
  destruct (updateSettings_result (JObj [("securityEnabled", JBool true)])
              s eng st db Hok Hw Hs Ht Hwf eq_refl)
    as (u & _ & Hst & Hok' & Hlook).
  destruct (init_loaded engE engS (App.initial false) _ Hok' HoE HrE HoS)
    as (loaded & El & _ & Hset & _ & Hlock & _).
  rewrite HrS, Hst in El. subst loaded.
  cbn [get_prop] in Hlock. rewrite (Hlook "securityEnabled") in Hlock.
  cbn in Hlock. split; [exact Hlock|].
  unfold App.handleUnlock.
  cbn [App.setPinInput App.settings App.pinInput App.isLocked].
  rewrite Hset. cbn [get_prop].
  pose proof (Hlook "pin") as Hp.
  change (lookup "pin" u = lookup "pin" (spread (Some s))) in Hp. rewrite Hp.
  destruct (lookup "pin" (spread (Some s))) as [[| | |p| |]|];
    try discriminate; cbn [is_the_string App.isLocked]; exact Hlock.
Qed.

Lemma lock_without_pin_cannot_be_opened_witness :
  App.isLocked
    (App.handleUnlock
       (App.setPinInput "0000"
          (started healthy healthy
             (snd (App.updateSettings (JObj [("securityEnabled", JBool true)])
                     healthy (started healthy healthy sample_db) sample_db)))))
  = true.
Proof.
  destruct (lock_without_pin_cannot_be_opened defaultSettings healthy healthy
              healthy (started healthy healthy sample_db) sample_db "0000")
    as [_ Hshut].
  - exact db_ok_sample.
  - exact works_healthy.
  - vm_compute. reflexivity.
  - reflexivity.
  - reflexivity.
  - reflexivity.
  - reflexivity.
  - reflexivity.
  - reflexivity.
  - reflexivity.
  - exact Hshut.
Defined.

(** X23.  [toggleTheme] keeps the theme and the class of the document
    together: when the settings hold ['light'] or ['dark'] and the
    document has the class ['dark'] exactly for ['dark'], then after the
    toggle the theme is the other one, the class still agrees with it,
    every other setting is as before, and a successful save has stored
    what the application holds. *)
Theorem toggleTheme_keeps_class_in_step
    (s : json) (eng : Engine) (st : App.State) (db : IDBDatabase) :
  App.settings st = Some s -> well_formed s = true ->
  setting "theme" st = Some (JStr "light")
  \/ setting "theme" st = Some (JStr "dark") ->
  App.dark st = is_the_string (setting "theme" st) "dark" ->
  setting "theme" (fst (App.toggleTheme eng st db))
  = Some (JStr (if is_the_string (setting "theme" st) "light"
                then "dark" else "light"))
  /\ App.dark (fst (App.toggleTheme eng st db))
     = is_the_string (setting "theme" (fst (App.toggleTheme eng st db))) "dark"
  /\ (forall name, name <> "theme" ->
        setting name (fst (App.toggleTheme eng st db)) = setting name st)
  /\ (db_ok db -> works eng ->
      stored_settings (snd (App.toggleTheme eng st db))
      = App.settings (fst (App.toggleTheme eng st db))).
Proof.
  intros Hs Hwf Htheme Hdark.
  assert (Hlook : forall name v,
            lookup name
              (JSON.define_all [("theme", v)]
                 (JSON.define_all (spread (Some s)) []))
            = if String.eqb "theme" name then Some v else get_prop s name).
  { intros name v. cbn [JSON.define_all]. rewrite lookup_set_prop.
    destruct (String.eqb "theme" name); [reflexivity|].
    destruct (spread_well_formed s Hwf) as [Hd _].
    rewrite lookup_define_all by exact Hd. cbn [lookup].
    unfold setting in Htheme. rewrite Hs in Htheme.
    destruct s; cbn in Htheme; try (destruct Htheme; discriminate).
    cbn [spread get_prop]. now destruct (lookup name members). }
  unfold setting in *. unfold App.toggleTheme.
  cbn [fst snd App.settings App.dark get_prop]. rewrite Hs in *.
  split; [|split; [|split]].
  - now rewrite Hlook.
  - rewrite Hlook, Hdark. cbn [String.eqb Ascii.eqb Bool.eqb].
    destruct Htheme as [-> | ->]; reflexivity.
  - intros name Hname. rewrite Hlook.
    destruct (String.eqb "theme" name) eqn:E; [|reflexivity].
    apply String.eqb_eq in E. congruence.
  - intros Hok Hw. now apply stored_settings_after_value.
Qed.

Lemma toggleTheme_keeps_class_in_step_witness :
  setting "theme"
    (fst (App.toggleTheme healthy (started healthy healthy locked_db) locked_db))
  = Some (JStr "light")
  /\ App.dark
       (fst (App.toggleTheme healthy (started healthy healthy locked_db) locked_db))
     = false.
Proof.
  destruct (toggleTheme_keeps_class_in_step (settings_to_json locked_settings)
              healthy (started healthy healthy locked_db) locked_db)
    as (Htheme & Hclass & _).
  - vm_compute. reflexivity.
  - reflexivity.
  - right. vm_compute. reflexivity.
  - vm_compute. reflexivity.
  - split; [exact Htheme|]. rewrite Hclass, Htheme. reflexivity.
Defined.

(** X24.  After a failed read of the settings the theme and the class
    part: the application then holds the empty object, whose [theme] is
    neither ['light'] nor ['dark'], and the first [toggleTheme] stores
    ['light'] while it turns the class ['dark'] on. *)
Theorem toggleTheme_after_failed_read
    (engE engS eng : Engine) (st : App.State) (db db' : IDBDatabase) :
  db_ok db ->
  open_fails engE = false -> request_fails engE 0 = false ->
  open_fails engS = false -> request_fails engS 0 = true ->
  App.dark (fst (App.init engE engS st db)) = false
  /\ setting "theme" (fst (App.toggleTheme eng (fst (App.init engE engS st db)) db'))
     = Some (JStr "light")
  /\ App.dark (fst (App.toggleTheme eng (fst (App.init engE engS st db)) db'))
     = true.
Proof.
  intros Hok HoE HrE HoS HrS.
  destruct (init_loaded engE engS st db Hok HoE HrE HoS)
    as (loaded & El & _ & Hset & _ & _ & Hdark & _).
  rewrite HrS in El. subst loaded. cbn in Hdark.
  split; [exact Hdark|].
  unfold setting, App.toggleTheme. cbn [fst App.settings App.dark].
  rewrite Hset, Hdark. split; reflexivity.
Qed.

Lemma toggleTheme_after_failed_read_witness :
  App.dark
    (fst (App.toggleTheme healthy
            (fst (App.init healthy read_error (App.initial false) locked_db))
            locked_db))
  = true.
Proof.
  destruct (toggleTheme_after_failed_read healthy read_error healthy
              (App.initial false) locked_db locked_db) as (_ & _ & Hclass).
  - apply db_ok_after. exact db_ok_sample.
  - reflexivity.
  - reflexivity.
  - reflexivity.
  - reflexivity.
  - exact Hclass.
Defined.

(** *** A backup restored: [handleImport] after [exportData] *)






(** X26.  An import that stops at a record without [id] is reported as
    an invalid file and the list on screen stays as it was, but the
    records before that record are stored: the screen no longer shows
    what the database holds. *)
Theorem rejected_import_keeps_the_screen
    (text : string) (good rest : list json) (bad : json)
    (engI engL : Engine) (st : App.State) (db : IDBDatabase) :
  db_ok db -> works engI ->
  JSON.parse text = JSON.Parsed (JArr (good ++ bad :: rest)) ->
  Forall (keyed "id") good -> key_of "id" bad = None ->
  App.toast (fst (App.handleImport text engI engL st db))
  = Some (App.invalid_file, "error")
  /\ App.entries (fst (App.handleImport text engI engL st db)) = App.entries st
  /\ collection STORE_ENTRIES (snd (App.handleImport text engI engL st db))
     = fold_left (put_record "id") good (collection STORE_ENTRIES db).
Proof.
  intros Hok (Hopen & Hreq & Hcommit) Hparse Hgood Hbad.
  unfold App.handleImport, importData. rewrite Hparse.
  destruct (openDB_ok engI db Hok Hopen)
    as (db1 & se & ss & E & _ & Ese & Hp & _ & Hrec & _).
  rewrite E, Ese, Hp. cbn [iterate].
  rewrite (put_each_stops "id" good rest bad Hgood Hbad).
  unfold run_transaction.
  rewrite some_request_fails_works, Hcommit by exact Hreq.
  cbn [orb fst snd App.showToast App.toast App.entries].
  split; [reflexivity|]. split; [reflexivity|].
  rewrite (collection_commit_same _ _ se) by exact Ese.
  rewrite fold_store_put. cbn [records]. now rewrite Hp, Hrec.
Qed.

Lemma rejected_import_keeps_the_screen_witness :
  App.entries
    (fst (App.handleImport (dq "[{'id':'z','date':1},{'date':2}]") healthy healthy
            (started healthy healthy sample_db) sample_db))
  = listing sample_db
  /\ collection STORE_ENTRIES
       (snd (App.handleImport (dq "[{'id':'z','date':1},{'date':2}]") healthy healthy
               (started healthy healthy sample_db) sample_db))
     = collection STORE_ENTRIES sample_db
       ++ [JObj [("id", JStr "z"); ("date", JNum 1)]].
Proof.
  destruct (rejected_import_keeps_the_screen
              (dq "[{'id':'z','date':1},{'date':2}]")
              [JObj [("id", JStr "z"); ("date", JNum 1)]] []
              (JObj [("date", JNum 2)]) healthy healthy
              (started healthy healthy sample_db) sample_db)
    as (_ & Hscreen & Hstored).
  - exact db_ok_sample.
  - exact works_healthy.
  - vm_compute. reflexivity.
  - repeat constructor. now exists (KStr "z").
  - reflexivity.
  - split; [exact Hscreen | exact Hstored].
Defined.

(** ** The mood statistics of StatsView.tsx *)

Lemma moodCounts_snoc (entries : list Entry) (e : Entry) :
  StatsView.moodCounts (entries ++ [e])
  = set_prop (mood e)
      (JNum (StatsView.or_zero
               (lookup (mood e) (StatsView.moodCounts entries)) + 1))
      (StatsView.moodCounts entries).
Proof. unfold StatsView.moodCounts. now rewrite fold_left_app. Qed.

Lemma with_mood_snoc (m : string) (entries : list Entry) (e : Entry) :
  with_mood m (entries ++ [e])
  = (with_mood m entries + if String.eqb (mood e) m then 1 else 0)%Z.
Proof.
  unfold with_mood. rewrite filter_app, length_app. cbn [filter].
  destruct (String.eqb (mood e) m); cbn [List.length]; lia.
Qed.

Lemma with_mood_nonnegative (m : string) (entries : list Entry) :
  (0 <= with_mood m entries)%Z.
Proof. unfold with_mood. lia. Qed.

Lemma moodCounts_lookup (m : string) (entries : list Entry) :
  lookup m (StatsView.moodCounts entries)
  = if (0 <? with_mood m entries)%Z then Some (JNum (with_mood m entries))
    else None.
Proof.
  induction entries as [|e entries IH] using rev_ind; [reflexivity|].
  rewrite moodCounts_snoc, with_mood_snoc, lookup_set_prop.
  pose proof (with_mood_nonnegative m entries) as Hge.
  destruct (String.eqb (mood e) m) eqn:E.
  - apply String.eqb_eq in E. rewrite E, IH.
    destruct (0 <? with_mood m entries)%Z eqn:E0; cbn [StatsView.or_zero].
    + apply Z.ltb_lt in E0.
      replace (0 <? with_mood m entries + 1)%Z with true
        by (symmetry; apply Z.ltb_lt; lia).
      reflexivity.
    + apply Z.ltb_ge in E0. assert (with_mood m entries = 0%Z) as -> by lia.
      reflexivity.
  - rewrite IH, Z.add_0_r. reflexivity.
Qed.

Lemma moodCounts_distinct (entries : list Entry) :
  distinct (map fst (StatsView.moodCounts entries)) = true.
Proof.
  induction entries as [|e entries IH] using rev_ind; [reflexivity|].
  rewrite moodCounts_snoc. now apply ParsedValues.distinct_set_prop.
Qed.

Lemma total_set_prop (k : string) (z : Z) (counts : list (string * json)) :
  total (set_prop k (JNum z) counts)
  = (total counts - StatsView.or_zero (lookup k counts) + z)%Z.
Proof.
  induction counts as [|[k' w] counts IH]; cbn [set_prop lookup total].
  - cbn. lia.
  - destruct (String.eqb k' k); cbn [total].
    + change (StatsView.or_zero (Some (JNum z))) with z. lia.
    + rewrite IH. lia.
Qed.

Lemma total_counts_length (entries : list Entry) :
  total (StatsView.moodCounts entries) = Z.of_nat (List.length entries).
Proof.
  induction entries as [|e entries IH] using rev_ind; [reflexivity|].
  rewrite moodCounts_snoc, total_set_prop, IH, length_app. cbn [List.length].
  lia.
Qed.

(** X27.  The mood table counts the entries: for every mood it holds
    the number of entries with that mood, and no member for a mood that
    no entry has; no mood is listed twice, and the counts add up to the
    number of entries.  The moods are plain names, as the emoji of
    [MOODS] are: that is where [moodCounts] is the table of
    JavaScript. *)
Theorem moodCounts_counts_each_mood (entries : list Entry) (m : string) :
  Forall (fun e => plain_name (mood e) = true) entries ->
  lookup m (StatsView.moodCounts entries)
  = (if (0 <? with_mood m entries)%Z then Some (JNum (with_mood m entries))
     else None)
  /\ distinct (map fst (StatsView.moodCounts entries)) = true
  /\ total (StatsView.moodCounts entries) = Z.of_nat (List.length entries).
Proof.
  intros _. split; [apply moodCounts_lookup|].
  split; [apply moodCounts_distinct | apply total_counts_length].
Qed.

Lemma moodCounts_counts_each_mood_witness :
  lookup "calm" (StatsView.moodCounts
                   [moody "a" "calm"; moody "b" "sad"; moody "c" "calm"])
  = Some (JNum 2).
Proof.
  destruct (moodCounts_counts_each_mood
              [moody "a" "calm"; moody "b" "sad"; moody "c" "calm"] "calm")
    as (Hcount & _).
  - repeat constructor.
  - exact Hcount.
Defined.

Lemma by_value_descending_values (a b : json) (x y : Z) :
  value_of a = Some x -> value_of b = Some y ->
  StatsView.by_value_descending a b = (y - x)%Z.
Proof.
  unfold value_of, StatsView.by_value_descending. intros Ha Hb.
  destruct (get_prop b "value") as [[]|]; try discriminate.
  destruct (get_prop a "value") as [[]|]; try discriminate.
  congruence.
Qed.

Lemma sort_by_value_sorted (l : list json) :
  Forall (fun v => exists x, value_of v = Some x) l ->
  StronglySorted not_fewer (sort StatsView.by_value_descending l).
Proof.
  unfold sort. induction 1 as [|a l [x Ha] Hl IH]; cbn [fold_right];
    [constructor|].
  fold (sort StatsView.by_value_descending l) in *.
  assert (Hall : Forall (fun v => exists x, value_of v = Some x)
                   (sort StatsView.by_value_descending l)).
  { eapply Permutation_Forall; [symmetry; apply sort_perm | exact Hl]. }
  induction IH as [|b s Hs IHs Hb]; cbn [sort_insert].
  - repeat constructor.
  - inversion Hall as [|? ? [y Hy] Hall']; subst.
    rewrite (by_value_descending_values a b x y Ha Hy).
    destruct (0 <? y - x)%Z eqn:E.
    + apply Z.ltb_lt in E. constructor; [now apply IHs|].
      eapply Permutation_Forall; [symmetry; apply sort_insert_perm|].
      constructor; [|exact Hb]. exists y, x. repeat split; auto. lia.
    + apply Z.ltb_ge in E. constructor; [now constructor|].
      constructor; [exists x, y; repeat split; auto; lia|].
      rewrite Forall_forall in *. intros c Hc.
      destruct (Hb c Hc) as (y' & z & Hy' & Hz & Hle).
      exists x, z. repeat split; auto. rewrite Hy in Hy'. injection Hy' as <-. lia.
Qed.

Lemma lookup_member (k : string) (x : json) (counts : list (string * json)) :
  distinct (map fst counts) = true -> In (k, x) counts ->
  lookup k counts = Some x.
Proof.
  induction counts as [|[k' w] counts IH]; cbn [In lookup map fst distinct];
    [contradiction|].
  intros Hd [E | Hin].
  - injection E as -> ->. now rewrite String.eqb_refl.
  - apply andb_true_iff in Hd as [Hk Hd]. apply negb_true_iff in Hk.
    destruct (String.eqb k' k) eqn:E; [|now apply IH].
    apply String.eqb_eq in E. subst k'. exfalso.
    assert (existsb (String.eqb k) (map fst counts) = true); [|congruence].
    apply existsb_exists. exists k. split; [|apply String.eqb_refl].
    apply in_map_iff. now exists (k, x).
Qed.

Lemma member_lookup (k : string) (x : json) (counts : list (string * json)) :
  lookup k counts = Some x -> In (k, x) counts.
Proof.
  induction counts as [|[k' w] counts IH]; cbn [In lookup]; [discriminate|].
  destruct (String.eqb k' k) eqn:E; [|now right; apply IH].
  apply String.eqb_eq in E. intros [= ->]. left. congruence.
Qed.

(** X28.  The card "Humor Top" names a most frequent mood: when there
    are entries (with plain names as moods), the mood it shows is the
    mood of at least one entry, and no mood has more entries.  With no
    entries it shows a dash. *)
Theorem top_mood_is_most_frequent
    (MOODS : list MoodDef) (entries : list Entry) (m : string) :
  Forall (fun e => plain_name (mood e) = true) entries ->
  entries <> [] ->
  (0 < with_mood (StatsView.top_mood MOODS entries) entries)%Z
  /\ (with_mood m entries
      <= with_mood (StatsView.top_mood MOODS entries) entries)%Z
  /\ StatsView.top_mood MOODS [] = "-".
Proof.
  intros _ Hne. unfold StatsView.top_mood, StatsView.moodData.
  set (datum := fun kv : string * json => _).
  set (counts := StatsView.moodCounts entries).
  assert (Hcount : forall e c, In (e, c) counts ->
            c = JNum (with_mood e entries) /\ (0 < with_mood e entries)%Z).
  { intros e c Hin.
    apply lookup_member in Hin; [|apply moodCounts_distinct].
    unfold counts in Hin. rewrite moodCounts_lookup in Hin.
    destruct (0 <? with_mood e entries)%Z eqn:E; [|discriminate].
    apply Z.ltb_lt in E. split; [congruence | exact E]. }
  assert (Hdatum : forall v, In v (map datum counts) ->
            exists e, In (e, JNum (with_mood e entries)) counts
                      /\ get_prop v "emoji" = Some (JStr e)
                      /\ value_of v = Some (with_mood e entries)).
  { intros v Hv. apply in_map_iff in Hv as ([e c] & <- & Hin).
    destruct (Hcount e c Hin) as [-> _]. exists e. now repeat split. }
  assert (Hsorted : StronglySorted not_fewer
                      (sort StatsView.by_value_descending (map datum counts))).
  { apply sort_by_value_sorted. apply Forall_forall. intros v Hv.
    destruct (Hdatum v Hv) as (e & _ & _ & Hval). now exists (with_mood e entries). }
  pose proof (sort_perm StatsView.by_value_descending (map datum counts)) as Hp.
  destruct (sort StatsView.by_value_descending (map datum counts))
    as [|first rest] eqn:Es.
  { exfalso. apply Permutation_nil in Hp.
    apply map_eq_nil in Hp. apply Hne.
    pose proof (total_counts_length entries) as Ht.
    fold counts in Ht. rewrite Hp in Ht. cbn in Ht.
    destruct entries; [reflexivity | cbn in Ht; lia]. }
  assert (Hfirst : In first (map datum counts))
    by (eapply Permutation_in; [exact Hp | now left]).
  destruct (Hdatum first Hfirst) as (e & Hin & Hemoji & Hval).
  rewrite Hemoji.
  split; [now apply (Hcount e _ Hin)|]. split; [|reflexivity].
  destruct (0 <? with_mood m entries)%Z eqn:E.
  - assert (Hm : In (datum (m, JNum (with_mood m entries))) (first :: rest)).
    { eapply Permutation_in; [symmetry; exact Hp|]. apply in_map.
      apply member_lookup. unfold counts. now rewrite moodCounts_lookup, E. }
    destruct Hm as [Heq | Hm].
    + rewrite Heq in Hemoji. cbn in Hemoji. injection Hemoji as <-. lia.
    + inversion Hsorted as [|? ? _ Hall]; subst.
      rewrite Forall_forall in Hall.
      destruct (Hall _ Hm) as (x & y & Hx & Hy & Hle).
      rewrite Hval in Hx. injection Hx as <-.
      cbn in Hy. injection Hy as <-. exact Hle.
  - apply Z.ltb_ge in E. pose proof (Hcount e _ Hin). lia.
Qed.

Lemma top_mood_is_most_frequent_witness :
  (with_mood "sad" [moody "a" "calm"; moody "b" "sad"; moody "c" "calm"]
   <= with_mood
        (StatsView.top_mood [] [moody "a" "calm"; moody "b" "sad"; moody "c" "calm"])
        [moody "a" "calm"; moody "b" "sad"; moody "c" "calm"])%Z.
Proof.
  destruct (top_mood_is_most_frequent []
              [moody "a" "calm"; moody "b" "sad"; moody "c" "calm"] "sad")
    as (_ & Hmost & _).
  - repeat constructor.
  - discriminate.
  - exact Hmost.
Defined.
